(** * DependencyTreeRnn: training and evaluation loops of the tree RNN LM

    A shallow embedding of [RnnDependencyTreeLib.cpp] and [RnnState.h]:
    the feature-label accumulator, the vocabulary construction, the
    per-token bookkeeping of [TrainRnnModel] and [TestRnnModel], the
    learning-rate discount, and the end-of-epoch checkpoint / annealing
    rule.

    C++ [double] arithmetic is kept behind the interface [Double], with
    two interpretations: IEEE-754 binary64 with round-to-nearest-even
    (on [spec_float], executable), and exact real arithmetic (on [R]).
    C++ [int] is modelled by [Z]; signed overflow is undefined behaviour
    in the source and is not modelled. *)

From Stdlib Require Import ZArith Bool List Lia Reals Lra.
From Stdlib Require Import Floats.SpecFloat.
From stdpp Require Import base option list gmap strings.

Local Open Scope Z_scope.

(** ** Arithmetic on [double] *)

Class Double (D : Type) := {
  d_of_int : Z -> D;           (* (double)i, and integer-valued literals *)
  d_add : D -> D -> D;
  d_mul : D -> D -> D;
  d_div : D -> D -> D;
  d_neg : D -> D;
  d_ltb : D -> D -> bool;      (* x < y *)
  d_eqb : D -> D -> bool;      (* x == y *)
  d_round : D -> Z             (* (int)round(x): halves away from zero *)
}.

(** [x != y] is the negation of [x == y], also on NaN. *)
Definition d_neb {D} `{Double D} (x y : D) : bool := negb (d_eqb x y).

(** The functions on [double] that the source calls and does not
    define: [log10] of the C math library, and [ExponentiateBase10],
    which is defined outside the files under study. *)
Class LibM (D : Type) := {
  log10 : D -> D;
  ExponentiateBase10 : D -> D
}.

(** *** IEEE-754 binary64 *)

Module B64.
Definition prec : Z := 53.
Definition emax : Z := 1024.

Definition of_int (i : Z) : spec_float := binary_normalize prec emax i 0 false.
Definition add : spec_float -> spec_float -> spec_float := SFadd prec emax.
Definition mul : spec_float -> spec_float -> spec_float := SFmul prec emax.
Definition div : spec_float -> spec_float -> spec_float := SFdiv prec emax.

(** [round] of <math.h> followed by the conversion to [int]; the
    conversion of NaN, of an infinity or of a value outside the range
    of [int] is undefined in the source, and yields 0 here for the
    first two. *)
Definition round (x : spec_float) : Z :=
  match x with
  | S754_finite s m e =>
      let a := match e with
               | Zneg k => Z.shiftr (Zpos m + Z.shiftl 1 (Zpos k - 1)) (Zpos k)
               | _ => Z.shiftl (Zpos m) e
               end in
      if s then - a else a
  | _ => 0
  end.

Definition is_nan (x : spec_float) : bool :=
  match x with S754_nan => true | _ => false end.

Definition is_finite (x : spec_float) : bool :=
  match x with S754_zero _ | S754_finite _ _ _ => true | _ => false end.
(** The exponent that the format gives a value of [e] binary digits
    ([fexp] of SpecFloat, at binary64). *)
Definition fexp (e : Z) : Z := Z.max (e - 53) (-1074).

(** A well-formed binary64 value between 0 and 1, both included: the
    values that the feature layer is meant to stay in. *)
Definition in_unit (x : spec_float) : bool :=
  valid_binary prec emax x && SFleb (of_int 0) x && SFleb x (of_int 1).

(** The representations of these values: a zero, or a positive canonical
    number whose exponent is below -52, or 1 itself. *)
Definition unit_shape (x : spec_float) : Prop :=
  (exists s, x = S754_zero s)
  \/ exists m e, x = S754_finite false m e
       /\ bounded prec emax m e = true
       /\ (e < -52 \/ (e = -52 /\ m = 4503599627370496%positive)).

(** The same, with +0 as the only zero: what rounding a positive product
    gives. *)
Definition small (r : spec_float) : Prop :=
  r = S754_zero false
  \/ exists m e, r = S754_finite false m e
       /\ bounded prec emax m e = true
       /\ (e < -52 \/ (e = -52 /\ m = 4503599627370496%positive)).
End B64.

#[export] Instance binary64 : Double spec_float := {
  d_of_int := B64.of_int;
  d_add := B64.add;
  d_mul := B64.mul;
  d_div := B64.div;
  d_neg := SFopp;
  d_ltb := SFltb;
  d_eqb := SFeqb;
  d_round := B64.round
}.

(** *** Exact real arithmetic *)

Module Exact.
Definition ltb (x y : R) : bool := if Rlt_dec x y then true else false.
Definition eqb (x y : R) : bool := if Req_dec_T x y then true else false.
Definition round (x : R) : Z :=
  if Rle_dec 0 x then Int_part (x + / 2)%R else - Int_part (- x + / 2)%R.
Definition log10 (x : R) : R := (ln x / ln 10)%R.
(** Modelled from the spec: [ExponentiateBase10] is defined outside the
    files under study; the spec gives the perplexity as 10 to the power
    of [-logProb/uniqueWordCount], the argument it is called with. *)
Definition exp10 (x : R) : R := Rpower 10 x.
(** The values that the feature layer is meant to stay in. *)
Definition unit_interval (x : R) : Prop := (0 <= x <= 1)%R.
End Exact.

#[export] Instance exact_real : Double R := {
  d_of_int := IZR;
  d_add := Rplus;
  d_mul := Rmult;
  d_div := Rdiv;
  d_neg := Ropp;
  d_ltb := Exact.ltb;
  d_eqb := Exact.eqb;
  d_round := Exact.round
}.

#[export] Instance exact_libm : LibM R := {
  log10 := Exact.log10;
  ExponentiateBase10 := Exact.exp10
}.

(** ** Data model *)

Section DataModel.
Context {D : Type} {W : Type}.
Context {dbl : Double D}.

(** *** RnnState.h *)

Definition c_maxNGramOrder : Z := 20.

(** [v.assign(n, x)]. *)
Definition assign {A} (n : Z) (x : A) : list A := replicate (Z.to_nat n) x.

Record RnnState := {
  InputLayer : list D;
  FeatureLayer : list D;
  RecurrentLayer : list D;
  HiddenLayer : list D;
  CompressLayer : list D;
  OutputLayer : list D;
  InputGradient : list D;
  FeatureGradient : list D;
  RecurrentGradient : list D;
  HiddenGradient : list D;
  CompressGradient : list D;
  OutputGradient : list D;
  WordHistory : list Z;
  m_orderDirectConnection : Z
}.

(** The constructor of [RnnState]; its body does not use
    [sizeDirectConnection]. *)
Definition RnnState_new (sizeVocabulary sizeHidden sizeFeature sizeClasses
    sizeCompress sizeDirectConnection orderDirectConnection : Z) : RnnState :=
  let sizeInput := sizeVocabulary in
  let sizeOutput := sizeVocabulary + sizeClasses in
  {| WordHistory := assign c_maxNGramOrder 0;
     InputLayer := assign sizeInput (d_of_int 0);
     InputGradient := assign sizeInput (d_of_int 0);
     RecurrentLayer := assign sizeHidden (d_of_int 0);
     RecurrentGradient := assign sizeHidden (d_of_int 0);
     HiddenLayer := assign sizeHidden (d_of_int 0);
     HiddenGradient := assign sizeHidden (d_of_int 0);
     FeatureLayer := assign sizeFeature (d_of_int 0);
     FeatureGradient := assign sizeFeature (d_of_int 0);
     OutputLayer := assign sizeOutput (d_of_int 0);
     OutputGradient := assign sizeOutput (d_of_int 0);
     CompressLayer := assign sizeCompress (d_of_int 0);
     CompressGradient := assign sizeCompress (d_of_int 0);
     m_orderDirectConnection := orderDirectConnection |}.

Definition set_FeatureLayer (v : list D) (s : RnnState) : RnnState :=
  Build_RnnState (InputLayer s) v (RecurrentLayer s) (HiddenLayer s)
    (CompressLayer s) (OutputLayer s) (InputGradient s) (FeatureGradient s)
    (RecurrentGradient s) (HiddenGradient s) (CompressGradient s)
    (OutputGradient s) (WordHistory s) (m_orderDirectConnection s).

(** [RnnState::GetFeatureSize]. *)
Definition State_GetFeatureSize (s : RnnState) : Z :=
  Z.of_nat (length (FeatureLayer s)).

(** The other getters of [RnnState]. *)
Definition State_GetInputSize (s : RnnState) : Z :=
  Z.of_nat (length (InputLayer s)).
Definition State_GetHiddenSize (s : RnnState) : Z :=
  Z.of_nat (length (HiddenLayer s)).
Definition State_GetCompressSize (s : RnnState) : Z :=
  Z.of_nat (length (CompressLayer s)).
Definition State_GetOutputSize (s : RnnState) : Z :=
  Z.of_nat (length (OutputLayer s)).
Definition State_GetOrderDirectConnection (s : RnnState) : Z :=
  m_orderDirectConnection s.

(** [RnnBptt]; its members are prefixed with [Bptt] where they share a
    name with a member of [RnnState]. *)
Record RnnBptt := {
  History : list Z;
  BpttHiddenLayer : list D;
  BpttHiddenGradient : list D;
  BpttFeatureLayer : list D;
  BpttFeatureGradient : list D;
  WeightsInput2Hidden : list D;
  WeightsRecurrent2Hidden : list D;
  WeightsFeature2Hidden : list D
}.

(** The constructor of [RnnBptt]. *)
Definition RnnBptt_new (sizeVocabulary sizeHidden sizeFeature numBpttSteps
    bpttBlockSize : Z) : RnnBptt :=
  let sizeInput := sizeVocabulary in
  {| History := assign (numBpttSteps + bpttBlockSize + 10) (-1);
     BpttHiddenLayer :=
       assign ((numBpttSteps + bpttBlockSize + 1) * sizeHidden) (d_of_int 0);
     BpttHiddenGradient :=
       assign ((numBpttSteps + bpttBlockSize + 1) * sizeHidden) (d_of_int 0);
     BpttFeatureLayer :=
       assign ((numBpttSteps + bpttBlockSize + 2) * sizeFeature) (d_of_int 0);
     BpttFeatureGradient :=
       assign ((numBpttSteps + bpttBlockSize + 2) * sizeFeature) (d_of_int 0);
     WeightsInput2Hidden := assign (sizeInput * sizeHidden) (d_of_int 0);
     WeightsRecurrent2Hidden := assign (sizeHidden * sizeHidden) (d_of_int 0);
     WeightsFeature2Hidden := assign (sizeFeature * sizeHidden) (d_of_int 0) |}.

(** *** The corpus reader *)

(** One token of an unroll, as the reader's [CurrentTokenNumberInSentence],
    [CurrentTokenWord], [CurrentTokenDiscount] and [CurrentTokenLabel]
    return it. *)
Record Token := {
  tokenNumber : Z;
  tokenWord : Z;
  tokenDiscount : D;
  tokenLabel : Z
}.

(** An unroll is read by a loop that tests [NextTokenInUnroll() >= 0]
    after its body: the current token, then the tokens that follow. *)
Definition Unroll : Type := Token * list Token.
Definition Sentence : Type := list Unroll.
Definition BookUnrolls : Type := list Sentence.

(** Modelled from the spec: [CorpusUnrollsReader] is declared outside the
    files under study; the reader yields books, sentences, unrolls and
    tokens in order, and exposes the reverse lookup sequences
    [vocabularyReverse], [labelsReverse] and [wordCountsDiscounted]. *)
Record CorpusUnrollsReader := {
  books : list BookUnrolls;
  vocabularyReverse : list string;
  wordCountsDiscounted : list D;
  labelsReverse : list string
}.

Definition NumBooks (c : CorpusUnrollsReader) : Z := Z.of_nat (length (books c)).
Definition NumWords (c : CorpusUnrollsReader) : Z :=
  Z.of_nat (length (vocabularyReverse c)).
Definition NumLabels (c : CorpusUnrollsReader) : Z :=
  Z.of_nat (length (labelsReverse c)).

(** *** The vocabulary *)

(** Modelled from the spec: the type of the vocabulary entries is
    declared outside the files under study; an entry holds the word, its
    count and the index of its class (the members [word], [cn] and
    [classIndex] that the source reads and writes). *)
Record VocabWord := { word : string; cn : Z; classIndex : Z }.

Definition set_cn (v : Z) (w : VocabWord) : VocabWord :=
  {| word := word w; cn := v; classIndex := classIndex w |}.

Record Vocab := {
  m_vocabularyStorage : list VocabWord;
  m_mapWord2Index : gmap string Z;
  m_mapIndex2Word : gmap Z string;
  m_mapLabel2Index : gmap string Z
}.

(** *** Members that the code under study only reads

    The members of [RnnTreeLM] are declared outside the files under
    study; their types are those that the code uses them at. *)
Record Hyper := {
  m_typeOfDepLabels : Z;
  m_usesClassFile : bool;
  m_featureGammaCoeff : D;
  m_numOutputClasses : Z;
  m_numBpttSteps : Z;
  m_bpttBlockSize : Z;
  m_minLogProbaImprovement : D;
  m_debugMode : bool;
  m_rnnModelFile : string
}.

(** *** The [RnnTreeLM] object *)

(** [W] is the type of the weight matrices ([m_weights]), declared
    outside the files under study. *)
Record RnnTreeLM := {
  m_hyper : Hyper;
  m_vocab : Vocab;
  m_numTrainWords : Z;
  m_corpusVocabulary : CorpusUnrollsReader;
  m_corpusTrain : CorpusUnrollsReader;
  m_corpusValidTest : CorpusUnrollsReader;
  m_wordCounter : Z;
  m_currentPosTrainFile : Z;
  m_initialLearningRate : D;
  m_learningRate : D;
  m_iteration : Z;
  m_doStartReducingLearningRate : bool;
  m_correctSentenceLabels : list Z;
  m_state : RnnState;
  m_stateBackup : RnnState;
  m_bpttVectors : RnnBptt;
  m_weights : W;
  m_weightsBackup : W
}.

Definition set_vocab (v : Vocab) (m : RnnTreeLM) : RnnTreeLM :=
  Build_RnnTreeLM (m_hyper m) v (m_numTrainWords m) (m_corpusVocabulary m)
    (m_corpusTrain m) (m_corpusValidTest m) (m_wordCounter m)
    (m_currentPosTrainFile m) (m_initialLearningRate m) (m_learningRate m)
    (m_iteration m) (m_doStartReducingLearningRate m)
    (m_correctSentenceLabels m) (m_state m) (m_stateBackup m)
    (m_bpttVectors m) (m_weights m) (m_weightsBackup m).

Definition set_numTrainWords (v : Z) (m : RnnTreeLM) : RnnTreeLM :=
  Build_RnnTreeLM (m_hyper m) (m_vocab m) v (m_corpusVocabulary m)
    (m_corpusTrain m) (m_corpusValidTest m) (m_wordCounter m)
    (m_currentPosTrainFile m) (m_initialLearningRate m) (m_learningRate m)
    (m_iteration m) (m_doStartReducingLearningRate m)
    (m_correctSentenceLabels m) (m_state m) (m_stateBackup m)
    (m_bpttVectors m) (m_weights m) (m_weightsBackup m).

Definition set_corpusVocabulary (v : CorpusUnrollsReader) (m : RnnTreeLM) : RnnTreeLM :=
  Build_RnnTreeLM (m_hyper m) (m_vocab m) (m_numTrainWords m) v
    (m_corpusTrain m) (m_corpusValidTest m) (m_wordCounter m)
    (m_currentPosTrainFile m) (m_initialLearningRate m) (m_learningRate m)
    (m_iteration m) (m_doStartReducingLearningRate m)
    (m_correctSentenceLabels m) (m_state m) (m_stateBackup m)
    (m_bpttVectors m) (m_weights m) (m_weightsBackup m).

Definition set_corpusTrain (v : CorpusUnrollsReader) (m : RnnTreeLM) : RnnTreeLM :=
  Build_RnnTreeLM (m_hyper m) (m_vocab m) (m_numTrainWords m)
    (m_corpusVocabulary m) v (m_corpusValidTest m) (m_wordCounter m)
    (m_currentPosTrainFile m) (m_initialLearningRate m) (m_learningRate m)
    (m_iteration m) (m_doStartReducingLearningRate m)
    (m_correctSentenceLabels m) (m_state m) (m_stateBackup m)
    (m_bpttVectors m) (m_weights m) (m_weightsBackup m).

Definition set_corpusValidTest (v : CorpusUnrollsReader) (m : RnnTreeLM) : RnnTreeLM :=
  Build_RnnTreeLM (m_hyper m) (m_vocab m) (m_numTrainWords m)
    (m_corpusVocabulary m) (m_corpusTrain m) v (m_wordCounter m)
    (m_currentPosTrainFile m) (m_initialLearningRate m) (m_learningRate m)
    (m_iteration m) (m_doStartReducingLearningRate m)
    (m_correctSentenceLabels m) (m_state m) (m_stateBackup m)
    (m_bpttVectors m) (m_weights m) (m_weightsBackup m).

Definition set_wordCounter (v : Z) (m : RnnTreeLM) : RnnTreeLM :=
  Build_RnnTreeLM (m_hyper m) (m_vocab m) (m_numTrainWords m)
    (m_corpusVocabulary m) (m_corpusTrain m) (m_corpusValidTest m) v
    (m_currentPosTrainFile m) (m_initialLearningRate m) (m_learningRate m)
    (m_iteration m) (m_doStartReducingLearningRate m)
    (m_correctSentenceLabels m) (m_state m) (m_stateBackup m)
    (m_bpttVectors m) (m_weights m) (m_weightsBackup m).

Definition set_currentPosTrainFile (v : Z) (m : RnnTreeLM) : RnnTreeLM :=
  Build_RnnTreeLM (m_hyper m) (m_vocab m) (m_numTrainWords m)
    (m_corpusVocabulary m) (m_corpusTrain m) (m_corpusValidTest m)
    (m_wordCounter m) v (m_initialLearningRate m) (m_learningRate m)
    (m_iteration m) (m_doStartReducingLearningRate m)
    (m_correctSentenceLabels m) (m_state m) (m_stateBackup m)
    (m_bpttVectors m) (m_weights m) (m_weightsBackup m).

Definition set_initialLearningRate (v : D) (m : RnnTreeLM) : RnnTreeLM :=
  Build_RnnTreeLM (m_hyper m) (m_vocab m) (m_numTrainWords m)
    (m_corpusVocabulary m) (m_corpusTrain m) (m_corpusValidTest m)
    (m_wordCounter m) (m_currentPosTrainFile m) v (m_learningRate m)
    (m_iteration m) (m_doStartReducingLearningRate m)
    (m_correctSentenceLabels m) (m_state m) (m_stateBackup m)
    (m_bpttVectors m) (m_weights m) (m_weightsBackup m).

Definition set_learningRate (v : D) (m : RnnTreeLM) : RnnTreeLM :=
  Build_RnnTreeLM (m_hyper m) (m_vocab m) (m_numTrainWords m)
    (m_corpusVocabulary m) (m_corpusTrain m) (m_corpusValidTest m)
    (m_wordCounter m) (m_currentPosTrainFile m) (m_initialLearningRate m) v
    (m_iteration m) (m_doStartReducingLearningRate m)
    (m_correctSentenceLabels m) (m_state m) (m_stateBackup m)
    (m_bpttVectors m) (m_weights m) (m_weightsBackup m).

Definition set_iteration (v : Z) (m : RnnTreeLM) : RnnTreeLM :=
  Build_RnnTreeLM (m_hyper m) (m_vocab m) (m_numTrainWords m)
    (m_corpusVocabulary m) (m_corpusTrain m) (m_corpusValidTest m)
    (m_wordCounter m) (m_currentPosTrainFile m) (m_initialLearningRate m)
    (m_learningRate m) v (m_doStartReducingLearningRate m)
    (m_correctSentenceLabels m) (m_state m) (m_stateBackup m)
    (m_bpttVectors m) (m_weights m) (m_weightsBackup m).

Definition set_doStartReducingLearningRate (v : bool) (m : RnnTreeLM) : RnnTreeLM :=
  Build_RnnTreeLM (m_hyper m) (m_vocab m) (m_numTrainWords m)
    (m_corpusVocabulary m) (m_corpusTrain m) (m_corpusValidTest m)
    (m_wordCounter m) (m_currentPosTrainFile m) (m_initialLearningRate m)
    (m_learningRate m) (m_iteration m) v (m_correctSentenceLabels m)
    (m_state m) (m_stateBackup m) (m_bpttVectors m) (m_weights m)
    (m_weightsBackup m).

Definition set_state (v : RnnState) (m : RnnTreeLM) : RnnTreeLM :=
  Build_RnnTreeLM (m_hyper m) (m_vocab m) (m_numTrainWords m)
    (m_corpusVocabulary m) (m_corpusTrain m) (m_corpusValidTest m)
    (m_wordCounter m) (m_currentPosTrainFile m) (m_initialLearningRate m)
    (m_learningRate m) (m_iteration m) (m_doStartReducingLearningRate m)
    (m_correctSentenceLabels m) v (m_stateBackup m) (m_bpttVectors m)
    (m_weights m) (m_weightsBackup m).

Definition set_stateBackup (v : RnnState) (m : RnnTreeLM) : RnnTreeLM :=
  Build_RnnTreeLM (m_hyper m) (m_vocab m) (m_numTrainWords m)
    (m_corpusVocabulary m) (m_corpusTrain m) (m_corpusValidTest m)
    (m_wordCounter m) (m_currentPosTrainFile m) (m_initialLearningRate m)
    (m_learningRate m) (m_iteration m) (m_doStartReducingLearningRate m)
    (m_correctSentenceLabels m) (m_state m) v (m_bpttVectors m)
    (m_weights m) (m_weightsBackup m).

Definition set_bpttVectors (v : RnnBptt) (m : RnnTreeLM) : RnnTreeLM :=
  Build_RnnTreeLM (m_hyper m) (m_vocab m) (m_numTrainWords m)
    (m_corpusVocabulary m) (m_corpusTrain m) (m_corpusValidTest m)
    (m_wordCounter m) (m_currentPosTrainFile m) (m_initialLearningRate m)
    (m_learningRate m) (m_iteration m) (m_doStartReducingLearningRate m)
    (m_correctSentenceLabels m) (m_state m) (m_stateBackup m) v
    (m_weights m) (m_weightsBackup m).

Definition set_weights (v : W) (m : RnnTreeLM) : RnnTreeLM :=
  Build_RnnTreeLM (m_hyper m) (m_vocab m) (m_numTrainWords m)
    (m_corpusVocabulary m) (m_corpusTrain m) (m_corpusValidTest m)
    (m_wordCounter m) (m_currentPosTrainFile m) (m_initialLearningRate m)
    (m_learningRate m) (m_iteration m) (m_doStartReducingLearningRate m)
    (m_correctSentenceLabels m) (m_state m) (m_stateBackup m)
    (m_bpttVectors m) v (m_weightsBackup m).

Definition set_weightsBackup (v : W) (m : RnnTreeLM) : RnnTreeLM :=
  Build_RnnTreeLM (m_hyper m) (m_vocab m) (m_numTrainWords m)
    (m_corpusVocabulary m) (m_corpusTrain m) (m_corpusValidTest m)
    (m_wordCounter m) (m_currentPosTrainFile m) (m_initialLearningRate m)
    (m_learningRate m) (m_iteration m) (m_doStartReducingLearningRate m)
    (m_correctSentenceLabels m) (m_state m) (m_stateBackup m)
    (m_bpttVectors m) (m_weights m) v.

End DataModel.


(** ** The program *)

Section Program.
Context {D : Type} {W : Type}.
Context {dbl : Double D} {libm : LibM D}.

#[local] Abbreviation RnnTreeLM := (@RnnTreeLM D W).
#[local] Abbreviation RnnState := (@RnnState D).
#[local] Abbreviation CorpusUnrollsReader := (@CorpusUnrollsReader D).

(** *** Console and file output

    What the program writes to [cout], [cerr] and the log file, one
    constructor per message; clock readings and the rates derived from
    them are left out. *)
Inductive Event :=
| ErrClassFilesNotImplemented
| OutVocabSizes (beforePruning afterPruning labels : Z)
| OutVocabSummary (vocab labels trainWords : Z)
| OutWarnClassesExceedVocabulary
| OutStartTraining
| OutIter (iteration : Z) (alpha : D)
| OutNumericalError
| LogTrainProgress (iteration idxBook : Z) (alpha entropy perplexity : D)
| LogTrainEpoch (iteration : Z) (alpha entropy perplexity : D)
| OutAccuracy (accuracy : D) (sentences : Z)
| LogValid (iteration : Z) (alpha accuracy entropy perplexity : D)
| OutRestored
| OutSaveThisModel
| FileSaveRnnModel
| FileSaveWordEmbeddings (file : string)
| OutSavedTheModel
| OutTestNet
| OutDebugToken (tokenNumber word : Z) (logProbabilityWord : D) (w : string)
| OutLogProbMismatch (stored computed : D)
| OutDebugOOV
| OutTestSummary (logProbability : D) (words unk sentences : Z)
| OutPerplexity (perplexity : D).

(** *** Members of the base class and of the corpus reader that are
    declared outside the files under study

    A method that receives the state by reference reads the object and
    yields the new state; [BackPropagateErrorsThenOneStepGradientDescent]
    and [LoadCorrectSentenceLabels] receive no state and may change any
    member of the object.  [ForwardPropagateWordHistory] also receives
    [lastWord] by reference: the callers never assign it themselves. *)
Class RnnLM := {
  GetVocabularySize : RnnTreeLM -> Z;
  GetLabelSize : RnnTreeLM -> Z;
  GetHiddenSize : RnnTreeLM -> Z;
  GetFeatureSize : RnnTreeLM -> Z;
  ResetAllRnnActivations : RnnTreeLM -> RnnState -> RnnState;
  ResetHiddenRnnStateAndWordHistory : RnnTreeLM -> RnnState -> RnnState;
  ForwardPropagateOneStep : RnnTreeLM -> Z -> Z -> RnnState -> RnnState;
  ForwardPropagateRecurrentConnectionOnly : RnnTreeLM -> RnnState -> RnnState;
  ForwardPropagateWordHistory : RnnTreeLM -> RnnState -> Z -> Z -> RnnState * Z;
  BackPropagateErrorsThenOneStepGradientDescent : Z -> Z -> RnnTreeLM -> RnnTreeLM;
  LoadCorrectSentenceLabels : string -> RnnTreeLM -> RnnTreeLM;
  AccuracyNBestList : list D -> list Z -> D
}.

Class CorpusOps := {
  (* c.ReadVocabulary(flag): the word count, and the reader afterwards *)
  ReadVocabulary : bool -> CorpusUnrollsReader -> Z * CorpusUnrollsReader;
  (* c.FilterSortVocabulary(other) *)
  FilterSortVocabulary : CorpusUnrollsReader -> CorpusUnrollsReader -> CorpusUnrollsReader;
  (* c.CopyVocabulary(other) *)
  CopyVocabulary : CorpusUnrollsReader -> CorpusUnrollsReader -> CorpusUnrollsReader
}.

Context {rnn : RnnLM} {corpus : CorpusOps}.

(** *** Loops and indexing *)

(** [for (a = lo; a < lo + n; a++) body]. *)
Fixpoint for_up {S : Type} (lo n : nat) (body : nat -> S -> S) (s : S) : S :=
  match n with
  | O => s
  | Datatypes.S n' => for_up (Datatypes.S lo) n' body (body lo s)
  end.

(** [for (a = hi; a > 0; a--) body]. *)
Fixpoint for_down {S : Type} (hi : nat) (body : nat -> S -> S) (s : S) : S :=
  match hi with
  | O => s
  | Datatypes.S a' => for_down a' body (body hi s)
  end.

(** [v[i]] on a vector.  Reading outside the vector is undefined in the
    source; the model reads [dflt] there. *)
Definition at_ {A} (dflt : A) (v : list A) (i : Z) : A :=
  if i <? 0 then dflt else default dflt (v !! Z.to_nat i).

(** [v[i] = x] on a vector.  Writing outside the vector is undefined in
    the source; the model leaves the vector as it is. *)
Definition put {A} (v : list A) (i : Z) (x : A) : list A :=
  if i <? 0 then v else <[Z.to_nat i := x]> v.

(** *** Vocabulary *)

Definition set_vocabularyStorage (v : list VocabWord) (vc : Vocab) : Vocab :=
  Build_Vocab v (m_mapWord2Index vc) (m_mapIndex2Word vc) (m_mapLabel2Index vc).
Definition set_mapWord2Index (v : gmap string Z) (vc : Vocab) : Vocab :=
  Build_Vocab (m_vocabularyStorage vc) v (m_mapIndex2Word vc) (m_mapLabel2Index vc).
Definition set_mapIndex2Word (v : gmap Z string) (vc : Vocab) : Vocab :=
  Build_Vocab (m_vocabularyStorage vc) (m_mapWord2Index vc) v (m_mapLabel2Index vc).
Definition set_mapLabel2Index (v : gmap string Z) (vc : Vocab) : Vocab :=
  Build_Vocab (m_vocabularyStorage vc) (m_mapWord2Index vc) (m_mapIndex2Word vc) v.

(** Return the index of a label in the vocabulary, or -1 if OOV. *)
Definition SearchLabelInVocabulary (label : string) (vc : Vocab) : Z :=
  match m_mapLabel2Index vc !! label with
  | None => -1
  | Some i => i
  end.

(** Modelled from the spec: [SearchWordInVocabulary] is defined outside
    the files under study; it is a pure lookup that yields the index of
    the word, or -1. *)
Definition SearchWordInVocabulary (w : string) (vc : Vocab) : Z :=
  match m_mapWord2Index vc !! w with
  | None => -1
  | Some i => i
  end.

(** Modelled from the spec: [AddWordToVocabulary] is defined outside the
    files under study; it appends a new entry with zero count and
    extends the word <-> index maps, and yields the existing index when
    the word is already present. *)
Definition AddWordToVocabulary (w : string) (vc : Vocab) : Z * Vocab :=
  match m_mapWord2Index vc !! w with
  | Some i => (i, vc)
  | None =>
      let i := Z.of_nat (length (m_vocabularyStorage vc)) in
      (i, {| m_vocabularyStorage :=
               m_vocabularyStorage vc ++ [{| word := w; cn := 0; classIndex := 0 |}];
             m_mapWord2Index := <[w := i]> (m_mapWord2Index vc);
             m_mapIndex2Word := <[i := w]> (m_mapIndex2Word vc);
             m_mapLabel2Index := m_mapLabel2Index vc |})
  end.

(** The loop of [LearnVocabularyFromTrainFile] that copies the words of
    the corpus, from word [k] on. *)
Fixpoint CopyWords (ws : list string) (k : nat) (counts : list D)
    (vc : Vocab) : Vocab :=
  match ws with
  | [] => vc
  | w :: ws' =>
      let index := SearchWordInVocabulary w vc in
      let '(index, vc) :=
        if index =? -1 then AddWordToVocabulary w vc else (index, vc) in
      let count := at_ (d_of_int 0) counts (Z.of_nat k) in
      let vc :=
        set_vocabularyStorage
          (alter (set_cn (d_round count)) (Z.to_nat index) (m_vocabularyStorage vc))
          vc in
      let vc := set_mapWord2Index (<[w := index]> (m_mapWord2Index vc)) vc in
      let vc := set_mapIndex2Word (<[index := w]> (m_mapIndex2Word vc)) vc in
      CopyWords ws' (Datatypes.S k) counts vc
  end.

(** The loop that copies the labels; [index] is the next free index. *)
Fixpoint CopyLabels (ls : list string) (index : Z) (vc : Vocab) : Vocab :=
  match ls with
  | [] => vc
  | label :: ls' =>
      if SearchLabelInVocabulary label vc =? -1 then
        CopyLabels ls' (index + 1)
          (set_mapLabel2Index (<[label := index]> (m_mapLabel2Index vc)) vc)
      else CopyLabels ls' index vc
  end.

(** One turn of the loop over the words, on its own: [CopyWords] runs it
    on each word with its count. *)
Definition CopyWord (w : string) (count : D) (vc : Vocab) : Vocab :=
  let index := SearchWordInVocabulary w vc in
  let '(index, vc) :=
    if index =? -1 then AddWordToVocabulary w vc else (index, vc) in
  let vc :=
    set_vocabularyStorage
      (alter (set_cn (d_round count)) (Z.to_nat index) (m_vocabularyStorage vc)) vc in
  let vc := set_mapWord2Index (<[w := index]> (m_mapWord2Index vc)) vc in
  set_mapIndex2Word (<[index := w]> (m_mapIndex2Word vc)) vc.

(** The vocabulary after [AddWordToVocabulary("</s>")] on the emptied
    vocabulary. *)
Definition EndOfSentenceOnly : Vocab :=
  {| m_vocabularyStorage := [{| word := "</s>"; cn := 0; classIndex := 0 |}];
     m_mapWord2Index := {["</s>" := 0]};
     m_mapIndex2Word := {[0 := "</s>"]};
     m_mapLabel2Index := ∅ |}.

(** The invariant of the loop over the words: the two maps are inverse
    to each other, and a word is mapped to the index of its entry. *)
Definition Indexed (vc : Vocab) : Prop :=
  (forall w i, m_mapWord2Index vc !! w = Some i <-> m_mapIndex2Word vc !! i = Some w)
  /\ (forall w i, m_mapWord2Index vc !! w = Some i ->
        0 <= i /\ word <$> (m_vocabularyStorage vc !! Z.to_nat i) = Some w)
  /\ (forall j x, m_vocabularyStorage vc !! j = Some x ->
        m_mapWord2Index vc !! word x = Some (Z.of_nat j)).

(** The invariant of the loop over the labels: the indices given so far
    are the numbers below [index], each given to one label. *)
Definition Numbered (index : Z) (M : gmap string Z) : Prop :=
  (forall l k, M !! l = Some k -> 0 <= k < index)
  /\ (forall l1 l2 k, M !! l1 = Some k -> M !! l2 = Some k -> l1 = l2)
  /\ Z.of_nat (size M) = index.

(** [LearnVocabularyFromTrainFile]: the value returned, the object
    afterwards and the output. *)
Definition LearnVocabularyFromTrainFile (m : RnnTreeLM) : bool * RnnTreeLM * list Event :=
  let '(n, cv) :=
    ReadVocabulary (m_typeOfDepLabels (m_hyper m) =? 1) (m_corpusVocabulary m) in
  let m := set_corpusVocabulary cv (set_numTrainWords n m) in
  let m := set_corpusTrain
             (FilterSortVocabulary (m_corpusTrain m) (m_corpusVocabulary m)) m in
  let vc := m_vocab m in
  let vc := set_vocabularyStorage [] vc in
  let vc := set_mapWord2Index ∅ vc in
  let vc := set_mapIndex2Word ∅ vc in
  let vc := set_mapLabel2Index ∅ vc in
  let m := set_vocab vc m in
  if m_usesClassFile (m_hyper m) then
    (false, m, [ErrClassFilesNotImplemented])
  else
    let out := [OutVocabSizes (NumWords (m_corpusVocabulary m))
                  (NumWords (m_corpusTrain m)) (NumLabels (m_corpusTrain m))] in
    let vc := snd (AddWordToVocabulary "</s>" (m_vocab m)) in
    let vc := CopyWords (vocabularyReverse (m_corpusTrain m)) 0
                (wordCountsDiscounted (m_corpusTrain m)) vc in
    let vc := CopyLabels (labelsReverse (m_corpusTrain m)) 0 vc in
    let m := set_vocab vc m in
    let m := set_corpusValidTest
               (CopyVocabulary (m_corpusValidTest m) (m_corpusTrain m)) m in
    (true, m,
     out ++ [OutVocabSummary (GetVocabularySize m) (GetLabelSize m)
               (m_numTrainWords m)]).


(** *** The feature-label vector *)

(** Apply a method that receives [m_state] by reference. *)
Definition on_state (f : RnnTreeLM -> RnnState -> RnnState) (m : RnnTreeLM)
    : RnnTreeLM :=
  set_state (f m (m_state m)) m.

(** Reset the vector of feature labels. *)
Definition ResetFeatureLabelVector (m : RnnTreeLM) (state : RnnState) : RnnState :=
  set_FeatureLayer (assign (GetFeatureSize m) (d_of_int 0)) state.

(** Update the vector of feature labels. *)
Definition UpdateFeatureLabelVector (label : Z) (m : RnnTreeLM) (state : RnnState)
    : RnnState :=
  (* Time-decay the previous labels using weight gamma *)
  let sizeFeatures := GetFeatureSize m in
  let fl :=
    for_up 0 (Z.to_nat sizeFeatures)
      (fun a fl =>
         put fl (Z.of_nat a)
           (d_mul (at_ (d_of_int 0) fl (Z.of_nat a))
                  (m_featureGammaCoeff (m_hyper m))))
      (FeatureLayer state) in
  (* Find the current label and set it to 1 *)
  let fl :=
    if (0 <=? label) && (label <? sizeFeatures)
    then put fl label (d_of_int 1)
    else fl in
  set_FeatureLayer fl state.

(** A label that [UpdateFeatureLabelVector] finds in the vector. *)
Definition found (m : RnnTreeLM) (label : Z) : bool :=
  (0 <=? label) && (label <? GetFeatureSize m).

(** A sequence of calls of [UpdateFeatureLabelVector], one per label. *)
Definition Updates (labels : list Z) (m : RnnTreeLM) (state : RnnState) : RnnState :=
  fold_left (fun state label => UpdateFeatureLabelVector label m state) labels state.

(** *** Shifting the memory needed for BPTT (in [TrainRnnModel]) *)

(** [v[dst] = v[src]]. *)
Definition copy_cell {A} (dflt : A) (dst src : Z) (v : list A) : list A :=
  put v dst (at_ dflt v src).

(** [sizeFeature] is read once, when [TrainRnnModel] starts. *)
Definition ShiftBptt (sizeFeature lastWord : Z) (m : RnnTreeLM) : RnnTreeLM :=
  if 0 <? m_numBpttSteps (m_hyper m) then
    let top :=
      Z.to_nat (m_numBpttSteps (m_hyper m) + m_bpttBlockSize (m_hyper m) - 1) in
    let bv := m_bpttVectors m in
    let history :=
      for_down top
        (fun a => copy_cell 0 (Z.of_nat a) (Z.of_nat a - 1)) (History bv) in
    let history := put history 0 lastWord in
    let sizeHidden := GetHiddenSize m in
    let '(hiddenLayer, hiddenGradient) :=
      for_down top
        (fun a =>
           for_up 0 (Z.to_nat sizeHidden)
             (fun b '(hl, hg) =>
                (copy_cell (d_of_int 0) (Z.of_nat a * sizeHidden + Z.of_nat b)
                   ((Z.of_nat a - 1) * sizeHidden + Z.of_nat b) hl,
                 copy_cell (d_of_int 0) (Z.of_nat a * sizeHidden + Z.of_nat b)
                   ((Z.of_nat a - 1) * sizeHidden + Z.of_nat b) hg)))
        (BpttHiddenLayer bv, BpttHiddenGradient bv) in
    let featureLayer :=
      for_down top
        (fun a =>
           for_up 0 (Z.to_nat sizeFeature)
             (fun b =>
                copy_cell (d_of_int 0) (Z.of_nat a * sizeFeature + Z.of_nat b)
                  ((Z.of_nat a - 1) * sizeFeature + Z.of_nat b)))
        (BpttFeatureLayer bv) in
    set_bpttVectors
      {| History := history;
         BpttHiddenLayer := hiddenLayer;
         BpttHiddenGradient := hiddenGradient;
         BpttFeatureLayer := featureLayer;
         BpttFeatureGradient := BpttFeatureGradient bv;
         WeightsInput2Hidden := WeightsInput2Hidden bv;
         WeightsRecurrent2Hidden := WeightsRecurrent2Hidden bv;
         WeightsFeature2Hidden := WeightsFeature2Hidden bv |} m
  else m.

(** A sequence of shifts, one per last word. *)
Definition Shifts (sizeFeature : Z) (words : list Z) (m : RnnTreeLM) : RnnTreeLM :=
  fold_left (fun m lastWord => ShiftBptt sizeFeature lastWord m) words m.

(** *** The log-probability of the current word *)

Definition no_word : VocabWord := {| word := ""; cn := 0; classIndex := 0 |}.

(** [m_vocabularyStorage[i].word]. *)
Definition WordAt (m : RnnTreeLM) (i : Z) : string :=
  word (at_ no_word (m_vocabularyStorage (m_vocab m)) i).

(** [log10(condProbaClass * condProbaWordGivenClass)], read from the
    output layer after the forward step. *)
Definition LogProbabilityWord (m : RnnTreeLM) (word : Z) : D :=
  let outputNodeClass :=
    classIndex (at_ no_word (m_vocabularyStorage (m_vocab m)) word)
    + GetVocabularySize m in
  let condProbaClass := at_ (d_of_int 0) (OutputLayer (m_state m)) outputNodeClass in
  let condProbaWordGivenClass := at_ (d_of_int 0) (OutputLayer (m_state m)) word in
  log10 (d_mul condProbaClass condProbaWordGivenClass).

(** Entropy and perplexity as [TrainRnnModel] logs them. *)
Definition Entropy (logProbability : D) (wordCounter : Z) : D :=
  d_div (d_div (d_neg logProbability) (log10 (d_of_int 2))) (d_of_int wordCounter).

Definition Perplexity (logProbability : D) (wordCounter : Z) : D :=
  ExponentiateBase10 (d_div (d_neg logProbability) (d_of_int wordCounter)).
End Program.

(** ** [TestRnnModel] *)

Module Test.
Section TestRnnModel.
Context {D : Type} {W : Type}.
Context {dbl : Double D} {libm : LibM D} {rnn : @RnnLM D W}.

#[local] Abbreviation RnnTreeLM := (@RnnTreeLM D W).

(** The by-reference parameters [uniqueWordCounter] and [sentenceScores],
    the local variables of the function, the object and the output. *)
Record Locals := {
  this : RnnTreeLM;
  testLogProbability : D;
  uniqueWordCounter : Z;
  numUnk : Z;
  sentenceScores : list D;
  logProbSentence : gmap Z D;
  sentenceLogProbability : D;
  lastWord : Z;
  lastLabel : Z;
  out : list (@Event D)
}.

Definition set_this (m : RnnTreeLM) (s : Locals) : Locals :=
  Build_Locals m (testLogProbability s) (uniqueWordCounter s) (numUnk s)
    (sentenceScores s) (logProbSentence s) (sentenceLogProbability s)
    (lastWord s) (lastLabel s) (out s).

Definition emit (evs : list (@Event D)) (s : Locals) : Locals :=
  Build_Locals (this s) (testLogProbability s) (uniqueWordCounter s) (numUnk s)
    (sentenceScores s) (logProbSentence s) (sentenceLogProbability s)
    (lastWord s) (lastLabel s) (out s ++ evs).

(** "For perplexity, we do not count OOV words...": the bookkeeping of one
    token, given the log-probability of the current word. *)
Definition Count (tokenNumber word : Z) (logProbabilityWord : D) (s : Locals)
    : Locals :=
  if (0 <=? word) && negb (word =? 1) then
    (* Did we see already that word token (at that position) in the sentence? *)
    match logProbSentence s !! tokenNumber with
    | None =>
        (* No: store the log-likelihood of that word, and contribute it
           to the sentence and corpus *)
        {| this := this s;
           logProbSentence := <[tokenNumber := logProbabilityWord]> (logProbSentence s);
           testLogProbability := d_add (testLogProbability s) logProbabilityWord;
           sentenceLogProbability := d_add (sentenceLogProbability s) logProbabilityWord;
           uniqueWordCounter := uniqueWordCounter s + 1;
           numUnk := numUnk s;
           sentenceScores := sentenceScores s;
           lastWord := lastWord s;
           lastLabel := lastLabel s;
           out := out s ++
             (if m_debugMode (m_hyper (this s))
              then [OutDebugToken tokenNumber word logProbabilityWord
                      (WordAt (this s) word)]
              else []) |}
    | Some stored =>
        (* Safety check *)
        emit (if d_neb stored logProbabilityWord
              then [OutLogProbMismatch stored logProbabilityWord]
              else []) s
    end
  else
    {| this := this s;
       logProbSentence := logProbSentence s;
       testLogProbability := testLogProbability s;
       sentenceLogProbability := sentenceLogProbability s;
       uniqueWordCounter := uniqueWordCounter s;
       numUnk := numUnk s + 1;
       sentenceScores := sentenceScores s;
       lastWord := lastWord s;
       lastLabel := lastLabel s;
       out := out s ++ (if m_debugMode (m_hyper (this s)) then [OutDebugOOV] else []) |}.

(** The forward part of the loop body: the object after the feature
    update and the forward step. *)
Definition Forward (word : Z) (s : Locals) : RnnTreeLM :=
  let m := this s in
  let m :=
    if m_typeOfDepLabels (m_hyper m) =? 2
    then on_state (UpdateFeatureLabelVector (lastLabel s)) m
    else m in
  on_state (fun m => ForwardPropagateOneStep m (lastWord s) word) m.

(** The end of the loop body: the recurrent connection, the word history
    and the last label. *)
Definition Advance (word label : Z) (s : Locals) : Locals :=
  let m := on_state ForwardPropagateRecurrentConnectionOnly (this s) in
  let '(state, lastWord') :=
    ForwardPropagateWordHistory m (m_state m) (lastWord s) word in
  Build_Locals (set_state state m) (testLogProbability s) (uniqueWordCounter s)
    (numUnk s) (sentenceScores s) (logProbSentence s) (sentenceLogProbability s)
    lastWord' label (out s).

(** The body of the loop over the tokens of an unroll.  The source
    computes [logProbabilityWord] only where [Count] uses it. *)
Definition OneToken (tok : @Token D) (s : Locals) : Locals :=
  let tokenNumber := tokenNumber tok in
  let word := tokenWord tok in
  let label := tokenLabel tok in
  let s := set_this (Forward word s) s in
  let s := Count tokenNumber word (LogProbabilityWord (this s) word) s in
  Advance word label s.

(** The start of the body of the loop over the unrolls of a sentence:
    the resets, and the last word and label set to 0. *)
Definition BeginUnroll (s : Locals) : Locals :=
  let m := on_state ResetHiddenRnnStateAndWordHistory (this s) in
  let m := on_state ResetFeatureLabelVector m in
  Build_Locals m (testLogProbability s) (uniqueWordCounter s) (numUnk s)
    (sentenceScores s) (logProbSentence s) (sentenceLogProbability s)
    0 0 (out s).

(** The loop over the tokens of an unroll. *)
Definition Tokens (toks : list (@Token D)) (s : Locals) : Locals :=
  fold_left (fun s tok => OneToken tok s) toks s.

(** The body of the loop over the unrolls of a sentence. *)
Definition OneUnroll (u : @Unroll D) (s : Locals) : Locals :=
  Tokens (fst u :: snd u) (BeginUnroll s).

(** The locals at the start of the body of the loop over sentences. *)
Definition BeginSentence (s : Locals) : Locals :=
  Build_Locals (this s) (testLogProbability s) (uniqueWordCounter s) (numUnk s)
    (sentenceScores s) ∅ (d_of_int 0) (lastWord s) (lastLabel s) (out s).

(** The loop over the unrolls of a sentence. *)
Definition Unrolls (sent : @Sentence D) (s : Locals) : Locals :=
  fold_left (fun s u => OneUnroll u s) sent (BeginSentence s).

(** The body of the loop over the sentences of a book. *)
Definition OneSentence (sent : @Sentence D) (s : Locals) : Locals :=
  let s := Unrolls sent s in
  (* Reset the table of word token probabilities, and store the
     log-probability of the sentence *)
  Build_Locals (this s) (testLogProbability s) (uniqueWordCounter s) (numUnk s)
    (sentenceScores s ++ [sentenceLogProbability s]) ∅ (sentenceLogProbability s)
    (lastWord s) (lastLabel s) (out s).

Definition OneBook (book : @BookUnrolls D) (s : Locals) : Locals :=
  fold_left (fun s sent => OneSentence sent s) book s.

(** The loop over the books of the corpus. *)
Definition Books (bks : list (@BookUnrolls D)) (s : Locals) : Locals :=
  fold_left (fun s book => OneBook book s) bks s.

(** The locals before the loop over books: the activations and the
    counters reset. *)
Definition Begin (m : RnnTreeLM) (sentenceScores0 : list D)
    (out0 : list (@Event D)) : Locals :=
  let m := on_state ResetAllRnnActivations m in
  let m := on_state ForwardPropagateRecurrentConnectionOnly m in
  {| this := m;
     testLogProbability := d_of_int 0;
     uniqueWordCounter := 0;
     numUnk := 0;
     sentenceScores := sentenceScores0;
     logProbSentence := ∅;
     sentenceLogProbability := d_of_int 0;
     lastWord := 0;
     lastLabel := 0;
     out := out0 ++ [OutTestNet] |}.

(** [TestRnnModel]; the value returned is [testLogProbability] of the
    result.  The file names it receives are not used by its body. *)
Definition TestRnnModel (m : RnnTreeLM) (sentenceScores0 : list D)
    (out0 : list (@Event D)) : Locals :=
  let s := Begin m sentenceScores0 out0 in
  let s := Books (books (m_corpusValidTest (this s))) s in
  let perplexity :=
    if 0 <? uniqueWordCounter s
    then Perplexity (testLogProbability s) (uniqueWordCounter s)
    else d_of_int 0 in
  emit [OutTestSummary (testLogProbability s) (uniqueWordCounter s) (numUnk s)
          (Z.of_nat (length (sentenceScores s)));
        OutPerplexity perplexity] s.


(** *** What a run visits, and the score a sentence should get *)

(** One visit of a token position: the position, the word found there
    and the log-probability that the loop body computes for it. *)
Record Visit := {
  position : Z;
  visitedWord : Z;
  logProbability : D
}.

(** The visit that [OneToken] makes from the locals [s]. *)
Definition visit (tok : @Token D) (s : Locals) : Visit :=
  {| position := tokenNumber tok;
     visitedWord := tokenWord tok;
     logProbability :=
       LogProbabilityWord (Forward (tokenWord tok) s) (tokenWord tok) |}.

(** The visits of a run of the loop over tokens, in order. *)
Fixpoint TokenVisits (toks : list (@Token D)) (s : Locals) : list Visit :=
  match toks with
  | [] => []
  | tok :: toks' => visit tok s :: TokenVisits toks' (OneToken tok s)
  end.

(** The visits of a run of the loop over the unrolls of a sentence. *)
Fixpoint UnrollVisits (sent : @Sentence D) (s : Locals) : list Visit :=
  match sent with
  | [] => []
  | u :: sent' =>
      TokenVisits (fst u :: snd u) (BeginUnroll s)
      ++ UnrollVisits sent' (OneUnroll u s)
  end.

Definition SentenceVisits (sent : @Sentence D) (s : Locals) : list Visit :=
  UnrollVisits sent (BeginSentence s).

(** A visit counts when its word is in the vocabulary and is not the
    unknown word. *)
Definition counts (v : Visit) : bool :=
  (0 <=? visitedWord v) && negb (visitedWord v =? 1).

(** The visits that are the first to count at their position, in order;
    [seen] holds the positions already counted. *)
Fixpoint FirstVisits (seen : gset Z) (vs : list Visit) : list Visit :=
  match vs with
  | [] => []
  | v :: vs' =>
      if counts v && bool_decide (position v ∉ seen)
      then v :: FirstVisits ({[position v]} ∪ seen) vs'
      else FirstVisits seen vs'
  end.

(** The sum of [logs], added to [acc] one after the other. *)
Definition sum_from (acc : D) (logs : list D) : D := fold_left d_add logs acc.

(** The score of a sentence in the words of the specification: the sum,
    over its distinct token positions, of the log-probability of the
    first visit of each. *)
Definition SentenceScore (vs : list Visit) : D :=
  sum_from (d_of_int 0) (logProbability <$> FirstVisits ∅ vs).

(** The scores that the specification gives to the sentences of a
    book and of a corpus, in order, each from the visits of its run. *)
Fixpoint BookScores (book : @BookUnrolls D) (s : Locals) : list D :=
  match book with
  | [] => []
  | sent :: book' =>
      SentenceScore (SentenceVisits sent s) :: BookScores book' (OneSentence sent s)
  end.

Fixpoint CorpusScores (bks : list (@BookUnrolls D)) (s : Locals) : list D :=
  match bks with
  | [] => []
  | book :: bks' => BookScores book s ++ CorpusScores bks' (OneBook book s)
  end.

Definition entry (v : Visit) : Z * D := (position v, logProbability v).

(** The table of a sentence in the words of the specification: each
    distinct position with the log-probability of its first visit. *)
Definition SentenceTable (vs : list Visit) : gmap Z D :=
  list_to_map (entry <$> FirstVisits ∅ vs).
End TestRnnModel.
End Test.

(** ** [TrainRnnModel] *)

Module Train.
Section TrainRnnModel.
Context {D : Type} {W : Type}.
Context {dbl : Double D} {libm : LibM D} {rnn : @RnnLM D W}.

#[local] Abbreviation RnnTreeLM := (@RnnTreeLM D W).

(** The local variables of an epoch, the object and the output. *)
Record Locals := {
  this : RnnTreeLM;
  trainLogProbability : D;
  uniqueWordCounter : Z;
  logProbSentence : gmap Z D;
  lastWord : Z;
  lastLabel : Z;
  out : list (@Event D)
}.

Definition set_this (m : RnnTreeLM) (s : Locals) : Locals :=
  Build_Locals m (trainLogProbability s) (uniqueWordCounter s)
    (logProbSentence s) (lastWord s) (lastLabel s) (out s).

Definition emit (evs : list (@Event D)) (s : Locals) : Locals :=
  Build_Locals (this s) (trainLogProbability s) (uniqueWordCounter s)
    (logProbSentence s) (lastWord s) (lastLabel s) (out s ++ evs).

(** The body either runs to its end or executes [return false]. *)
Inductive Flow :=
| Continue (s : Locals)
| ReturnFalse (s : Locals).

Definition locals (f : Flow) : Locals :=
  match f with Continue s | ReturnFalse s => s end.

(** A loop over [xs] whose body may return from the function. *)
Fixpoint loop {A} (body : A -> Locals -> Flow) (xs : list A) (s : Locals) : Flow :=
  match xs with
  | [] => Continue s
  | x :: xs' =>
      match body x s with
      | Continue s' => loop body xs' s'
      | ReturnFalse s' => ReturnFalse s'
      end
  end.

(** The elements of a list with their indices. *)
Definition indexed {A} (l : list A) : list (Z * A) :=
  imap (fun i x => (Z.of_nat i, x)) l.

(** "For perplexity, we do not count OOV words...": the bookkeeping of one
    token, given the log-probability of the current word. *)
Definition Count (tokenNumber word : Z) (logProbabilityWord : D) (s : Locals)
    : Locals :=
  if 0 <=? word then
    let s :=
      (* Did we see already that word token (at that position) in the sentence? *)
      match logProbSentence s !! tokenNumber with
      | None =>
          {| this := this s;
             logProbSentence := <[tokenNumber := logProbabilityWord]> (logProbSentence s);
             trainLogProbability := d_add (trainLogProbability s) logProbabilityWord;
             uniqueWordCounter := uniqueWordCounter s + 1;
             lastWord := lastWord s;
             lastLabel := lastLabel s;
             out := out s |}
      | Some _ => s
      end in
    set_this (set_wordCounter (m_wordCounter (this s) + 1) (this s)) s
  else s.

(** Safety check (that log-likelihood does not diverge):
    [trainLogProbability != trainLogProbability]. *)
Definition diverged (x : D) : bool := d_neb x x.

Definition Diverged (s : Locals) : bool := diverged (trainLogProbability s).

(** Discount the learning rate, back-propagate, undiscount. *)
Definition DiscountedBackPropagate (discount : D) (lastWord word : Z)
    (m : RnnTreeLM) : RnnTreeLM :=
  let alphaBackup := m_learningRate m in
  let m := set_learningRate (d_mul (m_learningRate m) discount) m in
  let m := BackPropagateErrorsThenOneStepGradientDescent lastWord word m in
  set_learningRate alphaBackup m.

(** The forward part of the loop body. *)
Definition Forward (word : Z) (s : Locals) : RnnTreeLM :=
  let m := this s in
  let m :=
    if m_typeOfDepLabels (m_hyper m) =? 2
    then on_state (UpdateFeatureLabelVector (lastLabel s)) m
    else m in
  on_state (fun m => ForwardPropagateOneStep m (lastWord s) word) m.

(** The loop body after the safety check. *)
Definition Learn (sizeFeature : Z) (tok : @Token D) (s : Locals) : Locals :=
  let word := tokenWord tok in
  let m := ShiftBptt sizeFeature (lastWord s) (this s) in
  let m := DiscountedBackPropagate (tokenDiscount tok) (lastWord s) word m in
  let m := on_state ForwardPropagateRecurrentConnectionOnly m in
  let '(state, lastWord') :=
    ForwardPropagateWordHistory m (m_state m) (lastWord s) word in
  Build_Locals (set_state state m) (trainLogProbability s) (uniqueWordCounter s)
    (logProbSentence s) lastWord' (tokenLabel tok) (out s).

(** The loop body up to the bookkeeping.  The source computes
    [logProbabilityWord] only where [Count] uses it. *)
Definition Counted (tok : @Token D) (s : Locals) : Locals :=
  let tokenNumber := tokenNumber tok in
  let word := tokenWord tok in
  let s := set_this (Forward word s) s in
  Count tokenNumber word (LogProbabilityWord (this s) word) s.

(** The body of the loop over the tokens of an unroll. *)
Definition OneToken (sizeFeature : Z) (tok : @Token D) (s : Locals) : Flow :=
  let s := Counted tok s in
  if Diverged s then ReturnFalse (emit [OutNumericalError] s)
  else Continue (Learn sizeFeature tok s).

(** The start of the body of the loop over the unrolls of a sentence:
    the resets, and the last word and label set to 0. *)
Definition BeginUnroll (s : Locals) : Locals :=
  let m := on_state ResetHiddenRnnStateAndWordHistory (this s) in
  let m := on_state ResetFeatureLabelVector m in
  Build_Locals m (trainLogProbability s) (uniqueWordCounter s)
    (logProbSentence s) 0 0 (out s).

(** The body of the loop over the unrolls of a sentence. *)
Definition OneUnroll (sizeFeature : Z) (u : @Unroll D) (s : Locals) : Flow :=
  loop (OneToken sizeFeature) (fst u :: snd u) (BeginUnroll s).

(** The locals at the start of the body of the loop over sentences. *)
Definition BeginSentence (s : Locals) : Locals :=
  Build_Locals (this s) (trainLogProbability s) (uniqueWordCounter s)
    ∅ (lastWord s) (lastLabel s) (out s).

(** The progress record written after every thousandth sentence. *)
Definition Verbose (idxBook idxSentence : Z) (s : Locals) : Locals :=
  if Z.rem idxSentence 1000 =? 0 then
    emit [LogTrainProgress (m_iteration (this s)) idxBook
            (m_learningRate (this s))
            (Entropy (trainLogProbability s) (uniqueWordCounter s))
            (Perplexity (trainLogProbability s) (uniqueWordCounter s))] s
  else s.

(** The body of the loop over the sentences of a book. *)
Definition OneSentence (sizeFeature idxBook : Z) (isent : Z * @Sentence D)
    (s : Locals) : Flow :=
  match loop (OneUnroll sizeFeature) (snd isent) (BeginSentence s) with
  | ReturnFalse s => ReturnFalse s
  | Continue s => Continue (Verbose idxBook (fst isent) s)
  end.

Definition OneBook (sizeFeature : Z) (ibook : Z * @BookUnrolls D) (s : Locals)
    : Flow :=
  loop (OneSentence sizeFeature (fst ibook)) (indexed (snd ibook)) s.

(** The locals at the start of the body of the loop over epochs. *)
Definition BeginEpoch (m : RnnTreeLM) (out0 : list (@Event D)) : Locals :=
  {| this := on_state ResetAllRnnActivations m;
     trainLogProbability := d_of_int 0;
     uniqueWordCounter := 0;
     logProbSentence := ∅;
     lastWord := 0;
     lastLabel := 0;
     out := out0 ++ [OutIter (m_iteration m) (m_learningRate m)] |}.

(** The training part of an epoch: from the top of the loop over epochs
    to the end of the loop over books. *)
Definition Training (sizeFeature : Z) (m : RnnTreeLM) (out0 : list (@Event D))
    : Flow :=
  loop (OneBook sizeFeature) (indexed (books (m_corpusTrain m)))
    (BeginEpoch m out0).

(** *** The accumulated log-probability along a run

    The values of [trainLogProbability] after the bookkeeping of each
    token that a run reaches, in order. *)
Fixpoint loop_trace {A} (body : A -> Locals -> Flow)
    (trace : A -> Locals -> list D) (xs : list A) (s : Locals) : list D :=
  match xs with
  | [] => []
  | x :: xs' =>
      trace x s ++
      match body x s with
      | Continue s' => loop_trace body trace xs' s'
      | ReturnFalse _ => []
      end
  end.

Definition TokenTrace (tok : @Token D) (s : Locals) : list D :=
  [trainLogProbability (Counted tok s)].

Definition UnrollTrace (sizeFeature : Z) (u : @Unroll D) (s : Locals) : list D :=
  loop_trace (OneToken sizeFeature) TokenTrace (fst u :: snd u) (BeginUnroll s).

Definition SentenceTrace (sizeFeature : Z) (isent : Z * @Sentence D)
    (s : Locals) : list D :=
  loop_trace (OneUnroll sizeFeature) (UnrollTrace sizeFeature) (snd isent)
    (BeginSentence s).

Definition BookTrace (sizeFeature : Z) (ibook : Z * @BookUnrolls D)
    (s : Locals) : list D :=
  loop_trace (OneSentence sizeFeature (fst ibook)) (SentenceTrace sizeFeature)
    (indexed (snd ibook)) s.

Definition TrainingTrace (sizeFeature : Z) (m : RnnTreeLM)
    (out0 : list (@Event D)) : list D :=
  loop_trace (OneBook sizeFeature) (BookTrace sizeFeature)
    (indexed (books (m_corpusTrain m))) (BeginEpoch m out0).

(** *** Predicates used to state what the loops do *)

(** A member [q] of the object that neither the assignments of the loops
    nor the discounted backward step change. *)
Record Kept {X} (q : RnnTreeLM -> X) : Prop := {
  kept_state : forall v m, q (set_state v m) = q m;
  kept_wordCounter : forall v m, q (set_wordCounter v m) = q m;
  kept_bpttVectors : forall v m, q (set_bpttVectors v m) = q m;
  kept_backward : forall discount lw w m,
    q (DiscountedBackPropagate discount lw w m) = q m
}.

(** No value of the list makes the safety check fire. *)
Definition Sound (values : list D) : Prop :=
  Forall (fun y => diverged y = false) values.

(** The list ends with [x], the only value that makes the check fire. *)
Definition StopsAt (values : list D) (x : D) : Prop :=
  exists pre, values = pre ++ [x] /\ diverged x = true /\ Sound pre.

(** A run and the values it went through agree: the run returns false
    at the first value that makes the check fire, after the diagnostic,
    and runs to its end when there is none. *)
Definition Outcome (f : Flow) (values : list D) : Prop :=
  match f with
  | ReturnFalse s =>
      StopsAt values (trainLogProbability s)
      /\ last (out s) = Some OutNumericalError
  | Continue _ => Sound values
  end.

(** The variables of [TrainRnnModel] that live across epochs. *)
Record Outer := {
  model : RnnTreeLM;
  lastValidLogProbability : D;
  loopEpochs : bool;
  log : list (@Event D)
}.

(** Restore the weights and the state from the backup, or back them up. *)
Definition RestoreOrBackup (validLogProbability lastValidLogProbability : D)
    (m : RnnTreeLM) : RnnTreeLM * list (@Event D) :=
  if d_ltb validLogProbability lastValidLogProbability then
    let m := set_weights (m_weightsBackup m) m in
    let m := set_state (m_stateBackup m) m in
    (m, [OutRestored])
  else
    let m := set_weightsBackup (m_weights m) m in
    let m := set_stateBackup (m_state m) m in
    (m, [OutSaveThisModel]).

Definition save_model (m : RnnTreeLM) : list (@Event D) :=
  [FileSaveRnnModel;
   FileSaveWordEmbeddings (m_rnnModelFile (m_hyper m) +:+ ".word_embeddings.txt")].

(** "Shall we start reducing the learning rate?", and the end of the
    body of the loop over epochs. *)
Definition Anneal (validLogProbability : D) (o : Outer) : Outer :=
  let m := model o in
  let '(m, loopEpochs, saved) :=
    if d_ltb (d_mul validLogProbability (m_minLogProbaImprovement (m_hyper m)))
             (lastValidLogProbability o)
    then
      if negb (m_doStartReducingLearningRate m)
      then (set_doStartReducingLearningRate true m, true, [])
      else (m, false, save_model m)
    else (m, true, []) in
  if loopEpochs then
    let m :=
      if m_doStartReducingLearningRate m
      then set_learningRate (d_div (m_learningRate m) (d_of_int 2)) m
      else m in
    let m := set_iteration (m_iteration m + 1) m in
    {| model := m;
       lastValidLogProbability := validLogProbability;
       loopEpochs := true;
       log := log o ++ saved ++ save_model m ++ [OutSavedTheModel] |}
  else
    {| model := m;
       lastValidLogProbability := lastValidLogProbability o;
       loopEpochs := false;
       log := log o ++ saved |}.

(** The end of an epoch, from the validation log-probability on. *)
Definition EndOfEpoch (validLogProbability : D) (o : Outer) : Outer :=
  (* Reset the position in the training file *)
  let m := set_wordCounter 0 (model o) in
  let m := set_currentPosTrainFile 0 m in
  let '(m, evs) :=
    RestoreOrBackup validLogProbability (lastValidLogProbability o) m in
  Anneal validLogProbability
    {| model := m;
       lastValidLogProbability := lastValidLogProbability o;
       loopEpochs := loopEpochs o;
       log := log o ++ evs |}.

(** The validation of an epoch: the validation log-probability, and the
    object and the output afterwards. *)
Definition Validate (s : Locals) : D * RnnTreeLM * list (@Event D) :=
  let m := this s in
  let evs :=
    out s ++ [LogTrainEpoch (m_iteration m) (m_learningRate m)
                (Entropy (trainLogProbability s) (uniqueWordCounter s))
                (Perplexity (trainLogProbability s) (uniqueWordCounter s))] in
  let t := Test.TestRnnModel m [] evs in
  let m := Test.this t in
  let validWordCounter := Test.uniqueWordCounter t in
  let sentenceScores := Test.sentenceScores t in
  let validLogProbability := Test.testLogProbability t in
  let validPerplexity :=
    if validWordCounter =? 0 then d_of_int 0
    else Perplexity validLogProbability validWordCounter in
  let validEntropy :=
    if validWordCounter =? 0 then d_of_int 0
    else Entropy validLogProbability validWordCounter in
  let validAccuracy := AccuracyNBestList sentenceScores (m_correctSentenceLabels m) in
  (validLogProbability, m,
   Test.out t ++
   [OutAccuracy validAccuracy (Z.of_nat (length sentenceScores));
    LogValid (m_iteration m) (m_learningRate m) validAccuracy validEntropy
      validPerplexity]).

(** The body of the loop over epochs: [inl] when it executes
    [return false], [inr] when it reaches its end or its [break]. *)
Definition OneEpoch (sizeFeature : Z) (o : Outer) : Outer + Outer :=
  match Training sizeFeature (model o) (log o) with
  | ReturnFalse s =>
      inl {| model := this s;
             lastValidLogProbability := lastValidLogProbability o;
             loopEpochs := loopEpochs o;
             log := out s |}
  | Continue s =>
      let '(validLogProbability, m, evs) := Validate s in
      inr (EndOfEpoch validLogProbability
             {| model := m;
                lastValidLogProbability := lastValidLogProbability o;
                loopEpochs := loopEpochs o;
                log := evs |})
  end.

(** [while (loopEpochs)], for at most [fuel] epochs: [None] when the
    epochs allowed are used up, else the value returned. *)
Fixpoint Epochs (fuel : nat) (sizeFeature : Z) (o : Outer) : option (bool * Outer) :=
  if loopEpochs o then
    match fuel with
    | O => None
    | S fuel' =>
        match OneEpoch sizeFeature o with
        | inl o' => Some (false, o')
        | inr o' => Epochs fuel' sizeFeature o'
        end
    end
  else Some (true, o).

Definition labelsFile : string :=
  "/Users/piotr/Documents/Projets/Microsoft/Data/GutenbergHolmes/valid.labels".

(** Train a Recurrent Neural Network model using the JSON trees of
    dependency parse. *)
Definition TrainRnnModel (fuel : nat) (m : RnnTreeLM) : option (bool * Outer) :=
  let sizeFeature := GetFeatureSize m in
  (* Reset the log-likelihood of the last iteration to ginourmous value *)
  let lastValidLogProbability := d_neg (d_of_int (10 ^ 37)) in
  let m := set_wordCounter (m_currentPosTrainFile m) m in
  let m := set_initialLearningRate (m_learningRate m) m in
  let warn :=
    if GetVocabularySize m <? m_numOutputClasses (m_hyper m)
    then [OutWarnClassesExceedVocabulary] else [] in
  let m := LoadCorrectSentenceLabels labelsFile m in
  Epochs fuel sizeFeature
    {| model := m;
       lastValidLogProbability := lastValidLogProbability;
       loopEpochs := true;
       log := warn ++ [OutStartTraining] |}.

End TrainRnnModel.
End Train.

(** ** What a corpus holds

    The tokens that the loops over books, sentences and unrolls visit,
    in order, and the counts that depend on them only. *)

Section CorpusCounts.
Context {D : Type}.

Definition UnrollTokens (u : @Unroll D) : list (@Token D) := fst u :: snd u.

Definition SentenceTokens (sent : @Sentence D) : list (@Token D) :=
  concat (UnrollTokens <$> sent).

Definition BookTokens (book : @BookUnrolls D) : list (@Token D) :=
  concat (SentenceTokens <$> book).

Definition CorpusTokens (bks : list (@BookUnrolls D)) : list (@Token D) :=
  concat (BookTokens <$> bks).

Definition CorpusSentences (bks : list (@BookUnrolls D)) : list (@Sentence D) :=
  concat bks.

(** The test of [TestRnnModel] on the word of a token,
    [(word >= 0) && (word != 1)], and that of [TrainRnnModel],
    [word >= 0]. *)
Definition TestCounted (tok : @Token D) : bool :=
  (0 <=? tokenWord tok) && negb (tokenWord tok =? 1).

Definition TrainCounted (tok : @Token D) : bool := 0 <=? tokenWord tok.

(** The token positions of a sentence that hold a word that counts. *)
Definition Positions (counted : @Token D -> bool) (sent : @Sentence D) : gset Z :=
  list_to_set (tokenNumber <$> filter (fun tok => counted tok = true) (SentenceTokens sent)).

(** Their number, and its sum over the sentences of a corpus. *)
Definition DistinctPositions (counted : @Token D -> bool) (sent : @Sentence D) : Z :=
  Z.of_nat (size (Positions counted sent)).

Definition CorpusPositions (counted : @Token D -> bool) (bks : list (@BookUnrolls D)) : Z :=
  foldr Z.add 0 (DistinctPositions counted <$> CorpusSentences bks).

(** The number of tokens that do not count in [TestRnnModel], and of
    those that count in [TrainRnnModel]. *)
Definition UncountedTokens (toks : list (@Token D)) : Z :=
  Z.of_nat (length (filter (fun tok => TestCounted tok = false) toks)).

Definition CountedTokens (toks : list (@Token D)) : Z :=
  Z.of_nat (length (filter (fun tok => TrainCounted tok = true) toks)).

(** The positions seen and their number, after one more token of
    [TrainRnnModel]. *)
Definition Train_see (tok : @Token D) (sc : gset Z * Z) : gset Z * Z :=
  if TrainCounted tok && bool_decide (tokenNumber tok ∉ sc.1)
  then ({[tokenNumber tok]} ∪ sc.1, sc.2 + 1) else sc.

(** A visit of [TestRnnModel] and the token it is made at. *)
Definition at_token (v : @Test.Visit D) (tok : @Token D) : Prop :=
  Test.position v = tokenNumber tok /\ Test.visitedWord v = tokenWord tok.

End CorpusCounts.

Section RunCounts.
Context {D : Type} {W : Type}.

(** The positions in the table of [TrainRnnModel] and the counter of
    distinct positions. *)
Definition Train_seen (s : @Train.Locals D W) : gset Z * Z :=
  (dom (Train.logProbSentence s), Train.uniqueWordCounter s).

End RunCounts.

(** ** A small model and corpus

    A three-word vocabulary with one class, a two-label feature layer, a
    corpus of one sentence with two unrolls that share a token position,
    and stand-ins for the members declared outside the files under
    study, used to run the definitions on concrete inputs. *)

Module Sample.
Section Sample.
Context {D : Type} {dbl : Double D}.

Definition ratio (a b : Z) : D := d_div (d_of_int a) (d_of_int b).

Definition vocab : Vocab :=
  {| m_vocabularyStorage :=
       [ {| word := "</s>"; cn := 5; classIndex := 0 |};
         {| word := "<unk>"; cn := 2; classIndex := 0 |};
         {| word := "holmes"; cn := 3; classIndex := 0 |} ];
     m_mapWord2Index := list_to_map [("</s>", 0); ("<unk>", 1); ("holmes", 2)];
     m_mapIndex2Word := list_to_map [(0, "</s>"); (1, "<unk>"); (2, "holmes")];
     m_mapLabel2Index := list_to_map [("ROOT", 0); ("nsubj", 1)] |}.

Definition hyper : @Hyper D :=
  {| m_typeOfDepLabels := 2;
     m_usesClassFile := false;
     m_featureGammaCoeff := ratio 9 10;
     m_numOutputClasses := 1;
     m_numBpttSteps := 1;
     m_bpttBlockSize := 1;
     m_minLogProbaImprovement := ratio 1003 1000;
     m_debugMode := false;
     m_rnnModelFile := "model" |}.

(** The word-given-class block, then the class block. *)
Definition state : @RnnState D :=
  Build_RnnState (assign 3 (d_of_int 0)) (assign 2 (d_of_int 0))
    (assign 2 (d_of_int 0)) (assign 2 (d_of_int 0)) []
    [ratio 1 2; ratio 1 4; ratio 1 4; d_of_int 1]
    (assign 3 (d_of_int 0)) (assign 2 (d_of_int 0)) (assign 2 (d_of_int 0))
    (assign 2 (d_of_int 0)) [] (assign 4 (d_of_int 0))
    (assign c_maxNGramOrder 0) 3.

Definition token (n w : Z) (discount : D) (l : Z) : @Token D :=
  {| tokenNumber := n; tokenWord := w; tokenDiscount := discount; tokenLabel := l |}.

(** Two unrolls that share position 0; position 1 holds the unknown
    word and position 2 a word outside the vocabulary. *)
Definition sentence : @Sentence D :=
  [ (token 0 2 (ratio 1 2) 1, [token 1 1 (d_of_int 1) 0]);
    (token 0 2 (ratio 1 2) 1, [token 2 (-1) (d_of_int 1) 1]) ].

Definition reader : @CorpusUnrollsReader D :=
  {| books := [[sentence]];
     vocabularyReverse := ["</s>"; "<unk>"; "holmes"];
     wordCountsDiscounted := [d_of_int 5; d_of_int 2; d_of_int 3];
     labelsReverse := ["ROOT"; "nsubj"] |}.

(** The weights are a single number here. *)
Definition lm : @RnnTreeLM D D :=
  {| m_hyper := hyper;
     m_vocab := vocab;
     m_numTrainWords := 4;
     m_corpusVocabulary := reader;
     m_corpusTrain := reader;
     m_corpusValidTest := reader;
     m_wordCounter := 0;
     m_currentPosTrainFile := 0;
     m_initialLearningRate := ratio 1 10;
     m_learningRate := ratio 1 10;
     m_iteration := 0;
     m_doStartReducingLearningRate := false;
     m_correctSentenceLabels := [0];
     m_state := state;
     m_stateBackup := state;
     m_bpttVectors := RnnBptt_new 3 2 2 1 1;
     m_weights := d_of_int 0;
     m_weightsBackup := d_of_int 0 |}.

Definition set_hyper (h : @Hyper D) (m : @RnnTreeLM D D) : @RnnTreeLM D D :=
  Build_RnnTreeLM h (m_vocab m) (m_numTrainWords m) (m_corpusVocabulary m)
    (m_corpusTrain m) (m_corpusValidTest m) (m_wordCounter m)
    (m_currentPosTrainFile m) (m_initialLearningRate m) (m_learningRate m)
    (m_iteration m) (m_doStartReducingLearningRate m)
    (m_correctSentenceLabels m) (m_state m) (m_stateBackup m)
    (m_bpttVectors m) (m_weights m) (m_weightsBackup m).

(** The same model with another decay coefficient, and with a class
    file requested. *)
Definition lm_gamma (gamma : D) : @RnnTreeLM D D :=
  set_hyper
    {| m_typeOfDepLabels := 2;
       m_usesClassFile := false;
       m_featureGammaCoeff := gamma;
       m_numOutputClasses := 1;
       m_numBpttSteps := 1;
       m_bpttBlockSize := 1;
       m_minLogProbaImprovement := ratio 1003 1000;
       m_debugMode := false;
       m_rnnModelFile := "model" |} lm.

Definition lm_class_file : @RnnTreeLM D D :=
  set_hyper
    {| m_typeOfDepLabels := 2;
       m_usesClassFile := true;
       m_featureGammaCoeff := ratio 9 10;
       m_numOutputClasses := 1;
       m_numBpttSteps := 1;
       m_bpttBlockSize := 1;
       m_minLogProbaImprovement := ratio 1003 1000;
       m_debugMode := false;
       m_rnnModelFile := "model" |} lm.

(** A network whose forward step leaves the output layer as it is and
    whose backward step adds the learning rate to the weights. *)
Definition net : @RnnLM D D :=
  {| GetVocabularySize m := Z.of_nat (length (m_vocabularyStorage (m_vocab m)));
     GetLabelSize m := Z.of_nat (size (m_mapLabel2Index (m_vocab m)));
     GetHiddenSize m := Z.of_nat (length (HiddenLayer (m_state m)));
     GetFeatureSize m := State_GetFeatureSize (m_state m);
     ResetAllRnnActivations _ s := s;
     ResetHiddenRnnStateAndWordHistory _ s := s;
     ForwardPropagateOneStep _ _ _ s := s;
     ForwardPropagateRecurrentConnectionOnly _ s := s;
     ForwardPropagateWordHistory _ s _ w := (s, w);
     BackPropagateErrorsThenOneStepGradientDescent _ _ m :=
       set_weights (d_add (m_weights m) (m_learningRate m)) m;
     LoadCorrectSentenceLabels _ m := m;
     AccuracyNBestList _ _ := d_of_int 1 |}.

(** A reader that counts four words and copies vocabularies as they are. *)
Definition corpus : @CorpusOps D :=
  {| ReadVocabulary _ c := (4, c);
     FilterSortVocabulary c other :=
       {| books := books c;
          vocabularyReverse := vocabularyReverse other;
          wordCountsDiscounted := wordCountsDiscounted other;
          labelsReverse := labelsReverse other |};
     CopyVocabulary c other :=
       {| books := books c;
          vocabularyReverse := vocabularyReverse other;
          wordCountsDiscounted := wordCountsDiscounted other;
          labelsReverse := labelsReverse other |} |}.

(** A validation corpus without a word that counts: a sentence with a
    word outside the vocabulary and the unknown word, and a sentence
    without unrolls. *)
Definition reader_oov : @CorpusUnrollsReader D :=
  {| books := [[ [(token 0 (-1) (d_of_int 1) 1, [token 1 1 (d_of_int 1) 0])]; [] ]];
     vocabularyReverse := ["</s>"; "<unk>"; "holmes"];
     wordCountsDiscounted := [d_of_int 5; d_of_int 2; d_of_int 3];
     labelsReverse := ["ROOT"; "nsubj"] |}.

Definition lm_oov : @RnnTreeLM D D := set_corpusValidTest reader_oov lm.

(** The same model with a BPTT memory of three blocks of two hidden
    units and four blocks of two features, numbered. *)
Definition lm_bptt : @RnnTreeLM D D :=
  set_bpttVectors
    {| History := assign 12 (-1);
       BpttHiddenLayer := d_of_int <$> [1; 2; 3; 4; 5; 6];
       BpttHiddenGradient := d_of_int <$> [11; 12; 13; 14; 15; 16];
       BpttFeatureLayer := d_of_int <$> [1; 2; 3; 4; 5; 6; 7; 8];
       BpttFeatureGradient := d_of_int <$> [11; 12; 13; 14; 15; 16; 17; 18];
       WeightsInput2Hidden := [];
       WeightsRecurrent2Hidden := [];
       WeightsFeature2Hidden := [] |} lm.

(** The locals of [TestRnnModel] and of [TrainRnnModel] inside a
    sentence whose position 0 is already in the table. *)
Definition testing : @Test.Locals D D :=
  {| Test.this := lm;
     Test.testLogProbability := d_of_int (-3);
     Test.uniqueWordCounter := 4;
     Test.numUnk := 1;
     Test.sentenceScores := [d_of_int (-2)];
     Test.logProbSentence := {[0 := d_of_int (-1)]};
     Test.sentenceLogProbability := d_of_int (-1);
     Test.lastWord := 2;
     Test.lastLabel := 1;
     Test.out := [] |}.

Definition training : @Train.Locals D D :=
  {| Train.this := lm;
     Train.trainLogProbability := d_of_int (-3);
     Train.uniqueWordCounter := 4;
     Train.logProbSentence := {[0 := d_of_int (-1)]};
     Train.lastWord := 2;
     Train.lastLabel := 1;
     Train.out := [] |}.

Definition outer : @Train.Outer D D :=
  {| Train.model := lm;
     Train.lastValidLogProbability := ratio (-1002) 10;
     Train.loopEpochs := true;
     Train.log := [] |}.

(** The end of an epoch whose training has changed the weights. *)
Definition trained : @Train.Outer D D :=
  {| Train.model := set_weights (ratio 7 10) lm;
     Train.lastValidLogProbability := ratio (-1002) 10;
     Train.loopEpochs := true;
     Train.log := [] |}.

End Sample.
End Sample.

(** * Properties *)

(** ** [TestRnnModel]: every token position counts once *)

Section TestFacts.
Context {D : Type} {W : Type}.
Context {dbl : Double D} {libm : LibM D} {rnn : @RnnLM D W}.

#[local] Abbreviation TLocals := (@Test.Locals D W).

(** What [Test.Count] does, case by case. *)
Lemma Test_Count_first tokenNumber w lp (s : TLocals) :
  Test.counts (Test.Build_Visit tokenNumber w lp) = true ->
  Test.logProbSentence s !! tokenNumber = None ->
  let s' := Test.Count tokenNumber w lp s in
  Test.logProbSentence s' = <[tokenNumber := lp]> (Test.logProbSentence s)
  /\ Test.sentenceLogProbability s' = d_add (Test.sentenceLogProbability s) lp
  /\ Test.testLogProbability s' = d_add (Test.testLogProbability s) lp
  /\ Test.uniqueWordCounter s' = Test.uniqueWordCounter s + 1
  /\ Test.numUnk s' = Test.numUnk s.
Proof.
  unfold Test.counts, Test.Count; simpl.
  intros Hc Hnone. rewrite Hc, Hnone. simpl. auto.
Qed.

Lemma Test_Count_seen tokenNumber w lp stored (s : TLocals) :
  Test.counts (Test.Build_Visit tokenNumber w lp) = true ->
  Test.logProbSentence s !! tokenNumber = Some stored ->
  Test.Count tokenNumber w lp s
  = Test.emit (if d_neb stored lp then [OutLogProbMismatch stored lp] else []) s.
Proof.
  unfold Test.counts, Test.Count; simpl.
  intros Hc Hsome. now rewrite Hc, Hsome.
Qed.

Lemma Test_Count_oov tokenNumber w lp (s : TLocals) :
  Test.counts (Test.Build_Visit tokenNumber w lp) = false ->
  let s' := Test.Count tokenNumber w lp s in
  Test.logProbSentence s' = Test.logProbSentence s
  /\ Test.sentenceLogProbability s' = Test.sentenceLogProbability s
  /\ Test.testLogProbability s' = Test.testLogProbability s
  /\ Test.uniqueWordCounter s' = Test.uniqueWordCounter s
  /\ Test.numUnk s' = Test.numUnk s + 1.
Proof.
  unfold Test.counts, Test.Count; simpl.
  intros Hc. rewrite Hc. simpl. auto.
Qed.

(** The rest of the loop body leaves the bookkeeping alone. *)
Lemma Test_Advance_keeps w label (s : TLocals) :
  let s' := Test.Advance w label s in
  Test.logProbSentence s' = Test.logProbSentence s
  /\ Test.sentenceLogProbability s' = Test.sentenceLogProbability s
  /\ Test.testLogProbability s' = Test.testLogProbability s
  /\ Test.uniqueWordCounter s' = Test.uniqueWordCounter s
  /\ Test.numUnk s' = Test.numUnk s
  /\ Test.sentenceScores s' = Test.sentenceScores s.
Proof.
  unfold Test.Advance; simpl.
  destruct (ForwardPropagateWordHistory _ _ _ _) as [state lw]; simpl. auto 10.
Qed.

Lemma Test_Count_scores tokenNumber w lp (s : TLocals) :
  Test.sentenceScores (Test.Count tokenNumber w lp s) = Test.sentenceScores s.
Proof.
  unfold Test.Count.
  destruct (_ && _); [destruct (_ !! _) |]; reflexivity.
Qed.

(** The bookkeeping of [Test.OneToken] is that of [Test.Count] at the
    visit it makes. *)
Lemma Test_OneToken_Count tok (s : TLocals) :
  let c := Test.Count (tokenNumber tok) (tokenWord tok)
             (Test.logProbability (Test.visit tok s))
             (Test.set_this (Test.Forward (tokenWord tok) s) s) in
  let s' := Test.OneToken tok s in
  Test.logProbSentence s' = Test.logProbSentence c
  /\ Test.sentenceLogProbability s' = Test.sentenceLogProbability c
  /\ Test.testLogProbability s' = Test.testLogProbability c
  /\ Test.uniqueWordCounter s' = Test.uniqueWordCounter c
  /\ Test.numUnk s' = Test.numUnk c
  /\ Test.sentenceScores s' = Test.sentenceScores c.
Proof.
  unfold Test.OneToken, Test.visit; simpl.
  apply Test_Advance_keeps.
Qed.

(** [FirstVisits]: the visits kept are at positions not yet seen, and at
    distinct positions. *)
Lemma FirstVisits_fresh (vs : list (@Test.Visit D)) seen v :
  v ∈ Test.FirstVisits seen vs -> Test.position v ∉ seen.
Proof.
  revert seen. induction vs as [|a vs IH]; intros seen; simpl.
  - intros Hin. inversion Hin.
  - destruct (Test.counts a && bool_decide (Test.position a ∉ seen)) eqn:E.
    + apply andb_true_iff in E as [_ Hfresh]. apply bool_decide_eq_true in Hfresh.
      intros Hin. apply elem_of_cons in Hin as [-> | Hin]; [exact Hfresh |].
      apply IH in Hin. set_solver.
    + apply IH.
Qed.

Lemma FirstVisits_NoDup (vs : list (@Test.Visit D)) seen :
  NoDup (Test.position <$> Test.FirstVisits seen vs).
Proof.
  revert seen. induction vs as [|a vs IH]; intros seen; simpl.
  - constructor.
  - destruct (Test.counts a && bool_decide (Test.position a ∉ seen)); [| apply IH].
    rewrite fmap_cons. constructor; [| apply IH].
    intros Hin. apply list_elem_of_fmap in Hin as (v & Hp & Hin).
    apply FirstVisits_fresh in Hin. set_solver.
Qed.

Lemma FirstVisits_app (vs1 vs2 : list (@Test.Visit D)) seen :
  Test.FirstVisits seen (vs1 ++ vs2)
  = Test.FirstVisits seen vs1
    ++ Test.FirstVisits
         (list_to_set (Test.position <$> Test.FirstVisits seen vs1) ∪ seen) vs2.
Proof.
  revert seen. induction vs1 as [|a vs1 IH]; intros seen; simpl.
  - now rewrite (left_id_L ∅ (∪)).
  - destruct (Test.counts a && bool_decide (Test.position a ∉ seen)).
    + simpl. rewrite IH.
      assert (Hset : forall (X S : gset Z) p, X ∪ ({[p]} ∪ S) = {[p]} ∪ X ∪ S)
        by set_solver.
      now rewrite Hset.
    + apply IH.
Qed.

(** Every visit kept counts, and no earlier visit counted at its
    position; every position with a visit that counts is kept. *)
Lemma FirstVisits_first (vs : list (@Test.Visit D)) seen v :
  v ∈ Test.FirstVisits seen vs ->
  Test.counts v = true
  /\ exists pre post, vs = pre ++ v :: post
       /\ forall v', v' ∈ pre -> Test.counts v' = true ->
            Test.position v' <> Test.position v.
Proof.
  revert seen. induction vs as [|a vs IH]; intros seen; simpl.
  - intros Hin. inversion Hin.
  - destruct (Test.counts a && bool_decide (Test.position a ∉ seen)) eqn:E.
    + intros Hin. apply elem_of_cons in Hin as [-> | Hin].
      * apply andb_true_iff in E as [Hc _]. split; [exact Hc |].
        exists [], vs. split; [reflexivity |]. intros v' Hv'. inversion Hv'.
      * pose proof (FirstVisits_fresh _ _ _ Hin) as Hfresh.
        destruct (IH _ Hin) as (Hc & pre & post & -> & Hpre).
        split; [exact Hc |]. exists (a :: pre), post. split; [reflexivity |].
        intros v' Hv' Hc'. apply elem_of_cons in Hv' as [-> | Hv']; [| now apply Hpre].
        set_solver.
    + intros Hin. pose proof (FirstVisits_fresh _ _ _ Hin) as Hfresh.
      destruct (IH _ Hin) as (Hc & pre & post & -> & Hpre).
      split; [exact Hc |]. exists (a :: pre), post. split; [reflexivity |].
      intros v' Hv' Hc'. apply elem_of_cons in Hv' as [-> | Hv']; [| now apply Hpre].
      rewrite Hc' in E. simpl in E. apply bool_decide_eq_false in E.
      intros Heq. apply E. now rewrite Heq.
Qed.

Lemma FirstVisits_complete (vs : list (@Test.Visit D)) seen v :
  v ∈ vs -> Test.counts v = true -> Test.position v ∉ seen ->
  Test.position v ∈ Test.position <$> Test.FirstVisits seen vs.
Proof.
  revert seen. induction vs as [|a vs IH]; intros seen Hin Hc Hfresh; simpl.
  - inversion Hin.
  - destruct (Test.counts a && bool_decide (Test.position a ∉ seen)) eqn:E.
    + rewrite fmap_cons.
      destruct (decide (Test.position a = Test.position v)) as [Heq | Hne].
      * rewrite Heq. apply elem_of_cons. now left.
      * apply elem_of_cons. right.
        apply elem_of_cons in Hin as [-> | Hin]; [congruence |].
        apply IH; [exact Hin | exact Hc | set_solver].
    + apply elem_of_cons in Hin as [-> | Hin]; [| now apply IH].
      rewrite Hc in E. simpl in E. apply bool_decide_eq_false in E. tauto.
Qed.

(** The bookkeeping of a run of the loop over tokens, in terms of the
    visits that are the first to count at a position not yet in the
    table. *)
Lemma Test_Tokens_account (toks : list (@Token D)) (s : TLocals) :
  let vs := Test.FirstVisits (dom (Test.logProbSentence s)) (Test.TokenVisits toks s) in
  let s' := Test.Tokens toks s in
  Test.logProbSentence s' = list_to_map (Test.entry <$> vs) ∪ Test.logProbSentence s
  /\ Test.sentenceLogProbability s'
     = Test.sum_from (Test.sentenceLogProbability s) (Test.logProbability <$> vs)
  /\ Test.testLogProbability s'
     = Test.sum_from (Test.testLogProbability s) (Test.logProbability <$> vs)
  /\ Test.uniqueWordCounter s' = Test.uniqueWordCounter s + Z.of_nat (length vs)
  /\ Test.sentenceScores s' = Test.sentenceScores s.
Proof.
  revert s. induction toks as [|tok toks IH]; intros s.
  - simpl. rewrite (left_id_L ∅ (∪)). repeat split; lia.
  - cbn [Test.TokenVisits Test.Tokens fold_left Test.FirstVisits].
    change (fold_left _ toks (Test.OneToken tok s))
      with (Test.Tokens toks (Test.OneToken tok s)).
    specialize (IH (Test.OneToken tok s)). cbv zeta in IH.
    destruct IH as (IHt & IHs & IHl & IHu & IHsc).
    destruct (Test_OneToken_Count tok s) as (Et & Es & El & Eu & _ & Esc).
    rewrite Test_Count_scores in Esc. simpl in Esc.
    unfold Test.visit in *. cbn [Test.position Test.logProbability] in *.
    set (lp := LogProbabilityWord _ _) in *.
    set (c0 := Test.set_this (Test.Forward (tokenWord tok) s) s) in *.
    destruct (Test.counts (Test.Build_Visit (tokenNumber tok) (tokenWord tok) lp)) eqn:Hc.
    + destruct (Test.logProbSentence s !! tokenNumber tok) as [stored|] eqn:Hl.
      * (* already in the table *)
        assert (Hseen : bool_decide (tokenNumber tok ∉ dom (Test.logProbSentence s)) = false).
        { apply bool_decide_eq_false. rewrite not_elem_of_dom, Hl. congruence. }
        rewrite Hseen. simpl.
        rewrite (Test_Count_seen _ _ _ stored c0 Hc Hl) in Et, Es, El, Eu.
        simpl in Et, Es, El, Eu.
        rewrite Et in IHt, IHs, IHl, IHu.
        rewrite IHt, IHs, IHl, IHu, IHsc, Es, El, Eu, Esc.
        auto.
      * (* first visit that counts *)
        assert (Hfresh : bool_decide (tokenNumber tok ∉ dom (Test.logProbSentence s)) = true).
        { apply bool_decide_eq_true. now rewrite not_elem_of_dom. }
        rewrite Hfresh. simpl.
        destruct (Test_Count_first _ _ _ c0 Hc Hl) as (Ct & Cs & Cl & Cu & _).
        simpl in Ct, Cs, Cl, Cu.
        rewrite Ct in Et. rewrite Cs in Es. rewrite Cl in El. rewrite Cu in Eu.
        rewrite Et, dom_insert_L in IHt, IHs, IHl, IHu.
        rewrite IHt, IHs, IHl, IHu, IHsc, Es, El, Eu, Esc.
        set (fv := Test.FirstVisits _ _) in *.
        repeat split; [| lia].
        rewrite <- insert_union_l. symmetry. apply insert_union_r.
        apply not_elem_of_list_to_map_1. rewrite <- list_fmap_compose.
        intros Hin. apply list_elem_of_fmap in Hin as (v' & Hp & Hin).
        apply FirstVisits_fresh in Hin. simpl in Hp. rewrite <- Hp in Hin.
        apply Hin, elem_of_union_l, elem_of_singleton. reflexivity.
    + (* the visit does not count *)
      simpl.
      destruct (Test_Count_oov _ _ _ c0 Hc) as (Ct & Cs & Cl & Cu & _).
      simpl in Ct, Cs, Cl, Cu.
      rewrite Ct in Et. rewrite Cs in Es. rewrite Cl in El. rewrite Cu in Eu.
      rewrite Et in IHt, IHs, IHl, IHu.
      rewrite IHt, IHs, IHl, IHu, IHsc, Es, El, Eu, Esc. auto.
Qed.

Lemma entry_positions (l : list (@Test.Visit D)) :
  (Test.entry <$> l).*1 = Test.position <$> l.
Proof. induction l as [|v l IH]; [reflexivity |]. rewrite !fmap_cons. now f_equal. Qed.

Lemma Test_BeginUnroll_keeps (s : TLocals) :
  let s' := Test.BeginUnroll s in
  Test.logProbSentence s' = Test.logProbSentence s
  /\ Test.sentenceLogProbability s' = Test.sentenceLogProbability s
  /\ Test.testLogProbability s' = Test.testLogProbability s
  /\ Test.uniqueWordCounter s' = Test.uniqueWordCounter s
  /\ Test.sentenceScores s' = Test.sentenceScores s.
Proof. unfold Test.BeginUnroll; simpl; auto. Qed.

(** The same for a run of the loop over the unrolls of a sentence. *)
Lemma Test_Unrolls_account (sent : @Sentence D) (s : TLocals) :
  let vs := Test.FirstVisits (dom (Test.logProbSentence s)) (Test.UnrollVisits sent s) in
  let s' := fold_left (fun s u => Test.OneUnroll u s) sent s in
  Test.logProbSentence s' = list_to_map (Test.entry <$> vs) ∪ Test.logProbSentence s
  /\ Test.sentenceLogProbability s'
     = Test.sum_from (Test.sentenceLogProbability s) (Test.logProbability <$> vs)
  /\ Test.testLogProbability s'
     = Test.sum_from (Test.testLogProbability s) (Test.logProbability <$> vs)
  /\ Test.uniqueWordCounter s' = Test.uniqueWordCounter s + Z.of_nat (length vs)
  /\ Test.sentenceScores s' = Test.sentenceScores s.
Proof.
  revert s. induction sent as [|u sent IH]; intros s.
  - simpl. rewrite (left_id_L ∅ (∪)). repeat split; lia.
  - cbn [fold_left Test.UnrollVisits].
    specialize (IH (Test.OneUnroll u s)). cbv zeta in IH.
    destruct IH as (IHt & IHs & IHl & IHu & IHsc).
    destruct (Test_Tokens_account (fst u :: snd u) (Test.BeginUnroll s))
      as (Et & Es & El & Eu & Esc).
    destruct (Test_BeginUnroll_keeps s) as (Bt & Bs & Bl & Bu & Bsc).
    rewrite Bt in Et, Es, El, Eu. rewrite Bs in Es. rewrite Bl in El.
    rewrite Bu in Eu. rewrite Bsc in Esc.
    fold (Test.OneUnroll u s) in Et, Es, El, Eu, Esc.
    set (vs1 := Test.TokenVisits (fst u :: snd u) (Test.BeginUnroll s)) in *.
    set (fv1 := Test.FirstVisits (dom (Test.logProbSentence s)) vs1) in *.
    rewrite FirstVisits_app. fold fv1.
    rewrite Et, dom_union_L, dom_list_to_map_L, entry_positions in IHt, IHs, IHl, IHu.
    set (fv2 := Test.FirstVisits _ (Test.UnrollVisits sent _)) in *.
    rewrite IHt, IHs, IHl, IHu, IHsc, Es, El, Eu, Esc.
    rewrite !fmap_app, length_app, list_to_map_app.
    unfold Test.sum_from. rewrite !fold_left_app.
    repeat split; [| lia].
    rewrite (assoc_L (∪)). f_equal. apply map_union_comm.
    apply map_disjoint_dom_2. rewrite !dom_list_to_map_L, !entry_positions.
    apply elem_of_disjoint. intros p Hp2 Hp1.
    apply elem_of_list_to_set, list_elem_of_fmap in Hp2 as (v & -> & Hv).
    apply FirstVisits_fresh in Hv. apply Hv, elem_of_union_l. exact Hp1.
Qed.

(** The bookkeeping of one sentence. *)
Lemma Test_OneSentence_account (sent : @Sentence D) (s : TLocals) :
  let vs := Test.SentenceVisits sent s in
  Test.sentenceScores (Test.OneSentence sent s)
  = Test.sentenceScores s ++ [Test.SentenceScore vs]
  /\ Test.logProbSentence (Test.Unrolls sent s) = Test.SentenceTable vs
  /\ NoDup (Test.position <$> Test.FirstVisits ∅ vs)
  /\ Test.testLogProbability (Test.OneSentence sent s)
     = Test.sum_from (Test.testLogProbability s)
         (Test.logProbability <$> Test.FirstVisits ∅ vs)
  /\ Test.uniqueWordCounter (Test.OneSentence sent s)
     = Test.uniqueWordCounter s + Z.of_nat (length (Test.FirstVisits ∅ vs)).
Proof.
  cbv zeta. unfold Test.OneSentence, Test.Unrolls, Test.SentenceVisits,
    Test.SentenceScore, Test.SentenceTable.
  destruct (Test_Unrolls_account sent (Test.BeginSentence s))
    as (Et & Es & El & Eu & Esc).
  cbn [Test.BeginSentence Test.logProbSentence Test.sentenceLogProbability
       Test.testLogProbability Test.uniqueWordCounter Test.sentenceScores]
    in Et, Es, El, Eu, Esc.
  rewrite dom_empty_L in Et, Es, El, Eu.
  cbn [Test.sentenceScores Test.testLogProbability Test.uniqueWordCounter].
  rewrite Esc, Es, Et, El, Eu, (right_id_L ∅ (∪)).
  repeat split. apply FirstVisits_NoDup.
Qed.

(** C5.  The score that [TestRnnModel] appends to [sentenceScores] for a
    sentence is the sum, over the distinct token positions of the
    sentence, of the log-probability computed at the first visit of each
    position that counts; the table holds exactly these values at the
    end of the sentence, and the corpus totals grow by the same visits:
    later visits of a position add nothing.  So the scores that a run of
    [TestRnnModel] appends are these sums, one per sentence, in order. *)
Theorem Test_sentence_score_counts_each_position_once :
  (forall (sent : @Sentence D) (s : TLocals),
     let vs := Test.SentenceVisits sent s in
     Test.sentenceScores (Test.OneSentence sent s)
     = Test.sentenceScores s ++ [Test.SentenceScore vs]
     /\ Test.logProbSentence (Test.Unrolls sent s) = Test.SentenceTable vs
     /\ NoDup (Test.position <$> Test.FirstVisits ∅ vs)
     /\ Test.testLogProbability (Test.OneSentence sent s)
        = Test.sum_from (Test.testLogProbability s)
            (Test.logProbability <$> Test.FirstVisits ∅ vs)
     /\ Test.uniqueWordCounter (Test.OneSentence sent s)
        = Test.uniqueWordCounter s + Z.of_nat (length (Test.FirstVisits ∅ vs)))
  /\ (forall (m : @RnnTreeLM D W) sentenceScores0 out0,
        let s := Test.Begin m sentenceScores0 out0 in
        Test.sentenceScores (Test.TestRnnModel m sentenceScores0 out0)
        = sentenceScores0
          ++ Test.CorpusScores (books (m_corpusValidTest (Test.this s))) s).
Proof.
  split; [exact Test_OneSentence_account |].
  assert (Hbook : forall book (s : TLocals),
            Test.sentenceScores (Test.OneBook book s)
            = Test.sentenceScores s ++ Test.BookScores book s).
  { unfold Test.OneBook. induction book as [|sent book IH]; intros s; simpl.
    - now rewrite app_nil_r.
    - rewrite IH. destruct (Test_OneSentence_account sent s) as [-> _].
      now rewrite <- app_assoc. }
  assert (Hbooks : forall bks (s : TLocals),
            Test.sentenceScores (Test.Books bks s)
            = Test.sentenceScores s ++ Test.CorpusScores bks s).
  { unfold Test.Books. induction bks as [|book bks IH]; intros s; simpl.
    - now rewrite app_nil_r.
    - rewrite IH, Hbook. now rewrite <- app_assoc. }
  intros m sentenceScores0 out0. cbv zeta. unfold Test.TestRnnModel.
  cbn [Test.emit Test.sentenceScores]. rewrite Hbooks. reflexivity.
Qed.

Lemma Test_Advance_out w label (s : TLocals) :
  Test.out (Test.Advance w label s) = Test.out s.
Proof.
  unfold Test.Advance.
  destruct (ForwardPropagateWordHistory _ _ _ _) as [state lw]. reflexivity.
Qed.

(** C10.  When [TestRnnModel] visits a token position that is already in
    the table of the sentence, the stored log-probability, the sentence
    score, the accumulated test log-probability and [uniqueWordCounter]
    stay as they are, whatever log-probability the visit computes; for a
    word that counts, a value that differs from the stored one is only
    printed. *)
Theorem Test_revisit_changes_nothing (tok : @Token D) (s : TLocals) (stored : D) :
  Test.logProbSentence s !! tokenNumber tok = Some stored ->
  let s' := Test.OneToken tok s in
  let lp := Test.logProbability (Test.visit tok s) in
  Test.logProbSentence s' = Test.logProbSentence s
  /\ Test.logProbSentence s' !! tokenNumber tok = Some stored
  /\ Test.sentenceLogProbability s' = Test.sentenceLogProbability s
  /\ Test.testLogProbability s' = Test.testLogProbability s
  /\ Test.uniqueWordCounter s' = Test.uniqueWordCounter s
  /\ Test.sentenceScores s' = Test.sentenceScores s
  /\ (Test.counts (Test.visit tok s) = true ->
      Test.out s'
      = Test.out s ++ (if d_neb stored lp then [OutLogProbMismatch stored lp] else [])).
Proof.
  intros Hl. cbv zeta.
  destruct (Test_OneToken_Count tok s) as (Et & Es & El & Eu & _ & Esc).
  rewrite Test_Count_scores in Esc. simpl in Esc.
  unfold Test.visit in *. cbn [Test.position Test.logProbability] in *.
  set (lp := LogProbabilityWord _ _) in *.
  set (c0 := Test.set_this (Test.Forward (tokenWord tok) s) s) in *.
  assert (Hl0 : Test.logProbSentence c0 !! tokenNumber tok = Some stored) by exact Hl.
  destruct (Test.counts (Test.Build_Visit (tokenNumber tok) (tokenWord tok) lp)) eqn:Hc.
  - pose proof (Test_Count_seen _ _ _ stored c0 Hc Hl0) as HC.
    rewrite HC in Et, Es, El, Eu. simpl in Et, Es, El, Eu.
    rewrite Et, Es, El, Eu, Esc. repeat split; try assumption.
    intros _. unfold Test.OneToken. rewrite Test_Advance_out.
    fold c0. change (LogProbabilityWord (Test.this c0) (tokenWord tok)) with lp.
    rewrite HC. reflexivity.
  - destruct (Test_Count_oov _ _ _ c0 Hc) as (Ct & Cs & Cl & Cu & _).
    simpl in Ct, Cs, Cl, Cu.
    rewrite Et, Es, El, Eu, Esc, Ct, Cs, Cl, Cu.
    repeat split; try assumption. discriminate.
Qed.

(** A member of the object that an assignment to [m_state] leaves alone
    is the same after [TestRnnModel]. *)
Lemma TestRnnModel_keeps {X} (q : @RnnTreeLM D W -> X) :
  (forall v m, q (set_state v m) = q m) ->
  forall m sentenceScores0 out0,
    q (Test.this (Test.TestRnnModel m sentenceScores0 out0)) = q m.
Proof.
  intros Hq.
  assert (Hon : forall f m, q (on_state f m) = q m) by (intros; apply Hq).
  assert (Htok : forall tok (s : TLocals), q (Test.this (Test.OneToken tok s)) = q (Test.this s)).
  { intros tok s. unfold Test.OneToken, Test.Advance. cbv zeta.
    destruct (ForwardPropagateWordHistory _ _ _ _) as [state lw]. simpl.
    rewrite Hq, Hon.
    assert (Hc : forall tn w lp (c : TLocals), Test.this (Test.Count tn w lp c) = Test.this c).
    { intros. unfold Test.Count. destruct (_ && _); [destruct (_ !! _) |]; reflexivity. }
    rewrite Hc. simpl. unfold Test.Forward. rewrite Hon.
    destruct (_ =? 2); [apply Hon | reflexivity]. }
  assert (Htoks : forall toks (s : TLocals), q (Test.this (Test.Tokens toks s)) = q (Test.this s)).
  { unfold Test.Tokens. induction toks as [|tok toks IH]; intros s; simpl; [reflexivity |].
    now rewrite IH, Htok. }
  assert (Hunr : forall sent (s : TLocals),
            q (Test.this (fold_left (fun s u => Test.OneUnroll u s) sent s)) = q (Test.this s)).
  { induction sent as [|u sent IH]; intros s; simpl; [reflexivity |].
    rewrite IH. unfold Test.OneUnroll. rewrite Htoks. unfold Test.BeginUnroll. simpl.
    now rewrite !Hon. }
  assert (Hbook : forall book (s : TLocals), q (Test.this (Test.OneBook book s)) = q (Test.this s)).
  { unfold Test.OneBook. induction book as [|sent book IH]; intros s; simpl; [reflexivity |].
    rewrite IH. unfold Test.OneSentence, Test.Unrolls. simpl. now rewrite Hunr. }
  assert (Hbooks : forall bks (s : TLocals), q (Test.this (Test.Books bks s)) = q (Test.this s)).
  { unfold Test.Books. induction bks as [|book bks IH]; intros s; simpl; [reflexivity |].
    now rewrite IH, Hbook. }
  intros m sentenceScores0 out0. unfold Test.TestRnnModel. cbv zeta.
  cbn [Test.emit Test.this]. rewrite Hbooks. unfold Test.Begin. simpl.
  now rewrite !Hon.
Qed.
End TestFacts.

(** ** [TrainRnnModel]: what the loops keep *)

Section TrainFacts.
Context {D : Type} {W : Type}.
Context {dbl : Double D} {libm : LibM D} {rnn : @RnnLM D W}.

#[local] Abbreviation RnnTreeLM := (@RnnTreeLM D W).
#[local] Abbreviation Locals := (@Train.Locals D W).

Lemma loop_app {A} (body : A -> Locals -> Train.Flow) xs ys s :
  Train.loop body (xs ++ ys) s
  = match Train.loop body xs s with
    | Train.Continue s' => Train.loop body ys s'
    | Train.ReturnFalse s' => Train.ReturnFalse s'
    end.
Proof.
  revert s. induction xs as [|x xs IH]; intros s; simpl; [reflexivity |].
  destruct (body x s); [apply IH | reflexivity].
Qed.

(** What every run of the body keeps, a run of the loop keeps. *)
Lemma loop_keeps {A X} (body : A -> Locals -> Train.Flow) (p : Locals -> X) :
  (forall x s, p (Train.locals (body x s)) = p s) ->
  forall xs s, p (Train.locals (Train.loop body xs s)) = p s.
Proof.
  intros Hbody xs. induction xs as [|x xs IH]; intros s; simpl; [reflexivity |].
  specialize (Hbody x s). destruct (body x s) as [s'|s']; simpl in *.
  - now rewrite IH.
  - exact Hbody.
Qed.

Section Kept.
Context {X : Type} (q : RnnTreeLM -> X) (Hq : Train.Kept q).

Lemma on_state_keeps f m : q (on_state f m) = q m.
Proof. unfold on_state. apply (Train.kept_state q Hq). Qed.

Lemma Forward_keeps w (s : Locals) : q (Train.Forward w s) = q (Train.this s).
Proof.
  unfold Train.Forward. rewrite on_state_keeps.
  destruct (_ =? 2); [apply on_state_keeps | reflexivity].
Qed.

Lemma Count_keeps tn w lp (s : Locals) :
  q (Train.this (Train.Count tn w lp s)) = q (Train.this s).
Proof.
  unfold Train.Count. destruct (0 <=? w); [| reflexivity]. simpl.
  rewrite (Train.kept_wordCounter q Hq). now destruct (_ !! _).
Qed.

Lemma Counted_keeps tok (s : Locals) :
  q (Train.this (Train.Counted tok s)) = q (Train.this s).
Proof. unfold Train.Counted. rewrite Count_keeps. simpl. apply Forward_keeps. Qed.

Lemma ShiftBptt_keeps sf lw m : q (ShiftBptt sf lw m) = q m.
Proof.
  unfold ShiftBptt. destruct (0 <? _); [| reflexivity].
  destruct (for_down _ _ _). apply (Train.kept_bpttVectors q Hq).
Qed.

Lemma Learn_keeps sf tok (s : Locals) :
  q (Train.this (Train.Learn sf tok s)) = q (Train.this s).
Proof.
  unfold Train.Learn.
  destruct (ForwardPropagateWordHistory _ _ _ _) as [state lw]. simpl.
  now rewrite (Train.kept_state q Hq), on_state_keeps, (Train.kept_backward q Hq), ShiftBptt_keeps.
Qed.

Lemma OneToken_keeps sf tok (s : Locals) :
  q (Train.this (Train.locals (Train.OneToken sf tok s))) = q (Train.this s).
Proof.
  unfold Train.OneToken. destruct (Train.Diverged _); simpl.
  - apply Counted_keeps.
  - rewrite Learn_keeps. apply Counted_keeps.
Qed.

Lemma OneUnroll_keeps sf u (s : Locals) :
  q (Train.this (Train.locals (Train.OneUnroll sf u s))) = q (Train.this s).
Proof.
  unfold Train.OneUnroll.
  rewrite (loop_keeps _ (fun s => q (Train.this s)) (OneToken_keeps sf)).
  unfold Train.BeginUnroll. simpl. now rewrite !on_state_keeps.
Qed.

Lemma OneSentence_keeps sf idxBook isent (s : Locals) :
  q (Train.this (Train.locals (Train.OneSentence sf idxBook isent s)))
  = q (Train.this s).
Proof.
  unfold Train.OneSentence.
  pose proof (loop_keeps _ (fun s => q (Train.this s)) (OneUnroll_keeps sf)
                (snd isent) (Train.BeginSentence s)) as Hl.
  destruct (Train.loop _ _ _) as [s'|s']; simpl in *; [| exact Hl].
  unfold Train.Verbose. now destruct (_ =? 0).
Qed.

Lemma OneBook_keeps sf ibook (s : Locals) :
  q (Train.this (Train.locals (Train.OneBook sf ibook s))) = q (Train.this s).
Proof.
  unfold Train.OneBook.
  apply (loop_keeps _ (fun s => q (Train.this s)) (OneSentence_keeps sf _)).
Qed.

Lemma Training_keeps sf m out0 :
  q (Train.this (Train.locals (Train.Training sf m out0))) = q m.
Proof.
  unfold Train.Training.
  rewrite (loop_keeps _ (fun s => q (Train.this s)) (OneBook_keeps sf)).
  unfold Train.BeginEpoch. simpl. apply on_state_keeps.
Qed.

End Kept.

Lemma learningRate_Kept : Train.Kept (@m_learningRate D W).
Proof. split; reflexivity. Qed.

(** C4.  The learning rate after the discounted backward step of a token
    is the rate before the discount, for every discount and whatever the
    backward step, which runs at the rate times the discount, does to
    the object; so it is after the whole body of the token loop and
    after the training of a whole epoch: the discount of a token never
    reaches the rate that the next token starts from. *)
Theorem discount_never_persists :
  (forall (discount : D) lw w (m : RnnTreeLM),
     m_learningRate (Train.DiscountedBackPropagate discount lw w m)
     = m_learningRate m
     /\ Train.DiscountedBackPropagate discount lw w m
        = set_learningRate (m_learningRate m)
            (BackPropagateErrorsThenOneStepGradientDescent lw w
               (set_learningRate (d_mul (m_learningRate m) discount) m)))
  /\ (forall sf tok (s : Locals),
        m_learningRate (Train.this (Train.locals (Train.OneToken sf tok s)))
        = m_learningRate (Train.this s))
  /\ (forall sf (m : RnnTreeLM) out0,
        m_learningRate (Train.this (Train.locals (Train.Training sf m out0)))
        = m_learningRate m).
Proof.
  split; [intros; split; reflexivity |]. split.
  - intros. apply (OneToken_keeps _ learningRate_Kept).
  - intros. apply (Training_keeps _ learningRate_Kept).
Qed.


(** The backward part of the loop body leaves the bookkeeping alone. *)
Lemma Train_Learn_locals sf tok (s : Locals) :
  let s' := Train.Learn sf tok s in
  Train.trainLogProbability s' = Train.trainLogProbability s
  /\ Train.uniqueWordCounter s' = Train.uniqueWordCounter s
  /\ Train.logProbSentence s' = Train.logProbSentence s
  /\ Train.out s' = Train.out s.
Proof.
  unfold Train.Learn.
  destruct (ForwardPropagateWordHistory _ _ _ _) as [state lw]. simpl. auto.
Qed.

(** The bookkeeping of [Train.OneToken] is that of [Train.Counted]. *)
Lemma Train_OneToken_Counted sf tok (s : Locals) :
  let s' := Train.locals (Train.OneToken sf tok s) in
  Train.trainLogProbability s' = Train.trainLogProbability (Train.Counted tok s)
  /\ Train.uniqueWordCounter s' = Train.uniqueWordCounter (Train.Counted tok s)
  /\ Train.logProbSentence s' = Train.logProbSentence (Train.Counted tok s).
Proof.
  unfold Train.OneToken. destruct (Train.Diverged _); simpl; [auto |].
  destruct (Train_Learn_locals sf tok (Train.Counted tok s)) as (? & ? & ? & _).
  auto.
Qed.

(** A word outside the vocabulary leaves every variable of the training
    loop as it is. *)
Lemma Train_Count_oov tn w lp (s : Locals) :
  w < 0 -> Train.Count tn w lp s = s.
Proof.
  intros Hw. unfold Train.Count.
  destruct (0 <=? w) eqn:E; [apply Z.leb_le in E; lia | reflexivity].
Qed.

(** A word of the vocabulary at a position not yet in the table is
    counted, the unknown word like any other. *)
Lemma Train_Count_first tn w lp (s : Locals) :
  0 <= w -> Train.logProbSentence s !! tn = None ->
  let s' := Train.Count tn w lp s in
  Train.logProbSentence s' = <[tn := lp]> (Train.logProbSentence s)
  /\ Train.trainLogProbability s' = d_add (Train.trainLogProbability s) lp
  /\ Train.uniqueWordCounter s' = Train.uniqueWordCounter s + 1.
Proof.
  intros Hw Hl. unfold Train.Count.
  destruct (0 <=? w) eqn:E; [| apply Z.leb_gt in E; lia].
  rewrite Hl. simpl. auto.
Qed.

(** *** Where the safety check stops a run *)

Lemma Sound_app (l1 l2 : list D) :
  Train.Sound l1 -> Train.Sound l2 -> Train.Sound (l1 ++ l2).
Proof. unfold Train.Sound. intros. now apply Forall_app. Qed.

Lemma StopsAt_app (l1 l2 : list D) x :
  Train.Sound l1 -> Train.StopsAt l2 x -> Train.StopsAt (l1 ++ l2) x.
Proof.
  intros H1 (pre & -> & Hx & Hpre). exists (l1 ++ pre).
  split; [now rewrite app_assoc |]. split; [exact Hx | now apply Sound_app].
Qed.

(** When every run of the body agrees with its values, so does every run
    of the loop. *)
Lemma loop_Outcome {A} (body : A -> Locals -> Train.Flow) trace :
  (forall x s, Train.Outcome (body x s) (trace x s)) ->
  forall xs s, Train.Outcome (Train.loop body xs s) (Train.loop_trace body trace xs s).
Proof.
  intros Hbody xs. induction xs as [|x xs IH]; intros s; simpl.
  - constructor.
  - specialize (Hbody x s). destruct (body x s) as [s'|s']; simpl in Hbody.
    + specialize (IH s'). destruct (Train.loop body xs s') as [s''|s'']; simpl in *.
      * now apply Sound_app.
      * destruct IH as [Hstop Hout]. split; [now apply StopsAt_app | exact Hout].
    + simpl. now rewrite app_nil_r.
Qed.

Lemma OneToken_Outcome sf tok (s : Locals) :
  Train.Outcome (Train.OneToken sf tok s) (Train.TokenTrace tok s).
Proof.
  unfold Train.OneToken, Train.TokenTrace, Train.Diverged.
  destruct (Train.diverged _) eqn:E; simpl.
  - split; [| apply last_snoc].
    exists []. split; [reflexivity |]. split; [exact E | constructor].
  - repeat constructor. exact E.
Qed.

Lemma OneUnroll_Outcome sf u (s : Locals) :
  Train.Outcome (Train.OneUnroll sf u s) (Train.UnrollTrace sf u s).
Proof. apply loop_Outcome, OneToken_Outcome. Qed.

Lemma OneSentence_Outcome sf idxBook isent (s : Locals) :
  Train.Outcome (Train.OneSentence sf idxBook isent s) (Train.SentenceTrace sf isent s).
Proof.
  unfold Train.OneSentence, Train.SentenceTrace.
  pose proof (loop_Outcome _ _ (OneUnroll_Outcome sf) (snd isent)
                (Train.BeginSentence s)) as Hl.
  destruct (Train.loop _ _ _); exact Hl.
Qed.

Lemma OneBook_Outcome sf ibook (s : Locals) :
  Train.Outcome (Train.OneBook sf ibook s) (Train.BookTrace sf ibook s).
Proof. apply loop_Outcome, OneSentence_Outcome. Qed.

Lemma Training_Outcome sf m out0 :
  Train.Outcome (Train.Training sf m out0) (Train.TrainingTrace sf m out0).
Proof. apply loop_Outcome, OneBook_Outcome. Qed.

(** An epoch whose training returns false ends [TrainRnnModel] there:
    no validation, no further epoch. *)
Lemma Epochs_return_false fuel sf (o : @Train.Outer D W) s :
  Train.loopEpochs o = true ->
  Train.Training sf (Train.model o) (Train.log o) = Train.ReturnFalse s ->
  Train.Epochs (S fuel) sf o
  = Some (false,
          {| Train.model := Train.this s;
             Train.lastValidLogProbability := Train.lastValidLogProbability o;
             Train.loopEpochs := true;
             Train.log := Train.out s |}).
Proof.
  intros Hloop Htrain. simpl. unfold Train.OneEpoch.
  now rewrite Hloop, Htrain.
Qed.

End TrainFacts.

(** ** The end of an epoch *)

Section EpochFacts.
Context {D : Type} {W : Type} {dbl : Double D}.

#[local] Abbreviation RnnTreeLM := (@RnnTreeLM D W).
#[local] Abbreviation Outer := (@Train.Outer D W).

(** [Train.Anneal] touches neither the weights nor the state nor their
    backups. *)
Lemma Anneal_weights v (o : Outer) :
  let m := Train.model o in
  let m' := Train.model (Train.Anneal v o) in
  m_weights m' = m_weights m /\ m_state m' = m_state m
  /\ m_weightsBackup m' = m_weightsBackup m /\ m_stateBackup m' = m_stateBackup m.
Proof.
  unfold Train.Anneal. cbv zeta.
  destruct (d_ltb _ _); [destruct (negb _) eqn:E |]; simpl.
  - auto.
  - auto.
  - destruct (m_doStartReducingLearningRate _); simpl; auto.
Qed.

Lemma Anneal_last v (o : Outer) :
  Train.loopEpochs (Train.Anneal v o) = true ->
  Train.lastValidLogProbability (Train.Anneal v o) = v.
Proof.
  unfold Train.Anneal.
  destruct (d_ltb _ _); [destruct (m_doStartReducingLearningRate _) |];
    simpl; intros; congruence.
Qed.

Lemma EndOfEpoch_weights v (o : Outer) :
  let m := Train.model o in
  let m' := Train.model (Train.EndOfEpoch v o) in
  (d_ltb v (Train.lastValidLogProbability o) = true ->
     m_weights m' = m_weightsBackup m /\ m_state m' = m_stateBackup m
     /\ m_weightsBackup m' = m_weightsBackup m
     /\ m_stateBackup m' = m_stateBackup m)
  /\ (d_ltb v (Train.lastValidLogProbability o) = false ->
        m_weightsBackup m' = m_weights m /\ m_stateBackup m' = m_state m
        /\ m_weights m' = m_weights m /\ m_state m' = m_state m).
Proof.
  unfold Train.EndOfEpoch, Train.RestoreOrBackup. cbv zeta.
  destruct (d_ltb v _); cbv iota beta;
    match goal with
    | |- context [Train.Anneal v ?x] =>
        destruct (Anneal_weights v x) as (A1 & A2 & A3 & A4)
    end;
    cbv zeta in A1, A2, A3, A4; rewrite A1, A2, A3, A4; simpl;
    split; intros Hlt; try discriminate; auto.
Qed.

(** C1.  At the end of an epoch, when the validation log-probability is
    less than the value stored at the end of the previous epoch, the
    weights and the state become the backup, which stays; otherwise the
    backup becomes the current weights and state, which stay.  Either
    way, weights and state equal their backup afterwards; so when the
    next epoch, which leaves the backup alone, ends with a lower
    validation log-probability, its weights and state become those of
    the end of this epoch. *)
Theorem rollback_or_checkpoint (validLogProbability : D) (o : Outer) :
  let o' := Train.EndOfEpoch validLogProbability o in
  let m := Train.model o in
  let m' := Train.model o' in
  (d_ltb validLogProbability (Train.lastValidLogProbability o) = true ->
     m_weights m' = m_weightsBackup m /\ m_state m' = m_stateBackup m
     /\ m_weightsBackup m' = m_weightsBackup m
     /\ m_stateBackup m' = m_stateBackup m)
  /\ (d_ltb validLogProbability (Train.lastValidLogProbability o) = false ->
        m_weightsBackup m' = m_weights m /\ m_stateBackup m' = m_state m
        /\ m_weights m' = m_weights m /\ m_state m' = m_state m)
  /\ (m_weights m' = m_weightsBackup m' /\ m_state m' = m_stateBackup m')
  /\ (Train.loopEpochs o' = true ->
        Train.lastValidLogProbability o' = validLogProbability)
  /\ (forall (epoch : RnnTreeLM -> RnnTreeLM) (nextValidLogProbability : D),
        (forall x, m_weightsBackup (epoch x) = m_weightsBackup x
                   /\ m_stateBackup (epoch x) = m_stateBackup x) ->
        d_ltb nextValidLogProbability (Train.lastValidLogProbability o') = true ->
        let m'' :=
          Train.model
            (Train.EndOfEpoch nextValidLogProbability
               {| Train.model := epoch m';
                  Train.lastValidLogProbability := Train.lastValidLogProbability o';
                  Train.loopEpochs := Train.loopEpochs o';
                  Train.log := Train.log o' |}) in
        m_weights m'' = m_weights m' /\ m_state m'' = m_state m').
Proof.
  cbv zeta.
  pose proof EndOfEpoch_weights as Hcase. cbv zeta in Hcase.
  destruct (Hcase validLogProbability o) as [Hlt Hge].
  split; [exact Hlt |]. split; [exact Hge |].
  assert (Hsync : m_weights (Train.model (Train.EndOfEpoch validLogProbability o))
                  = m_weightsBackup (Train.model (Train.EndOfEpoch validLogProbability o))
                  /\ m_state (Train.model (Train.EndOfEpoch validLogProbability o))
                     = m_stateBackup (Train.model (Train.EndOfEpoch validLogProbability o))).
  { destruct (d_ltb validLogProbability (Train.lastValidLogProbability o)).
    - destruct (Hlt eq_refl) as (-> & -> & -> & ->). auto.
    - destruct (Hge eq_refl) as (-> & -> & -> & ->). auto. }
  split; [exact Hsync |]. split.
  - unfold Train.EndOfEpoch. cbv zeta.
    destruct (Train.RestoreOrBackup _ _ _) as [r evs]. apply Anneal_last.
  - intros epoch v2 Hframe Hlt2.
    set (o' := Train.EndOfEpoch validLogProbability o) in *.
    destruct (Hcase v2
      {| Train.model := epoch (Train.model o');
         Train.lastValidLogProbability := Train.lastValidLogProbability o';
         Train.loopEpochs := Train.loopEpochs o';
         Train.log := Train.log o' |}) as [Hlt' _].
    destruct (Hlt' Hlt2) as (-> & -> & _). simpl.
    destruct (Hframe (Train.model o')) as [-> ->].
    destruct Hsync as [-> ->]. auto.
Qed.

(** C3, as the code has it.  When the ratio test fires and the flag is
    not yet set, the end of the epoch sets the flag and halves the
    learning rate at once, so the next epoch trains at half the rate;
    when it fires and the flag is set, the model and the word embeddings
    are saved, right after the restoring or the backup, and training
    stops with the rate as it is: the loop over epochs runs no other
    epoch and [TrainRnnModel] returns true; when it does not fire, the
    rate is halved if the flag is set and kept otherwise. *)
Theorem annealing_halves_from_the_first_trigger (validLogProbability : D) (o : Outer) :
  let fires :=
    d_ltb (d_mul validLogProbability
             (m_minLogProbaImprovement (m_hyper (Train.model o))))
          (Train.lastValidLogProbability o) in
  let started := m_doStartReducingLearningRate (Train.model o) in
  let alpha := m_learningRate (Train.model o) in
  let o' := Train.EndOfEpoch validLogProbability o in
  let started' := m_doStartReducingLearningRate (Train.model o') in
  let alpha' := m_learningRate (Train.model o') in
  (fires = true -> started = false ->
     started' = true /\ Train.loopEpochs o' = true
     /\ alpha' = d_div alpha (d_of_int 2)
     /\ m_iteration (Train.model o') = m_iteration (Train.model o) + 1)
  /\ (fires = true -> started = true ->
        started' = true /\ Train.loopEpochs o' = false /\ alpha' = alpha
        /\ Train.log o'
           = Train.log o
             ++ [if d_ltb validLogProbability (Train.lastValidLogProbability o)
                 then OutRestored else OutSaveThisModel]
             ++ [FileSaveRnnModel;
                 FileSaveWordEmbeddings
                   (m_rnnModelFile (m_hyper (Train.model o)) +:+ ".word_embeddings.txt")]
        /\ forall (libm : LibM D) (rnn : @RnnLM D W) fuel sizeFeature,
             Train.Epochs fuel sizeFeature o' = Some (true, o'))
  /\ (fires = false -> started = true ->
        started' = true /\ Train.loopEpochs o' = true
        /\ alpha' = d_div alpha (d_of_int 2))
  /\ (fires = false -> started = false ->
        started' = false /\ Train.loopEpochs o' = true /\ alpha' = alpha).
Proof.
  cbv zeta.
  assert (Hstop : forall (libm : LibM D) (rnn : @RnnLM D W) (x : Outer) fuel sizeFeature,
            Train.loopEpochs x = false ->
            Train.Epochs fuel sizeFeature x = Some (true, x)).
  { intros libm rnn x fuel sizeFeature Hx. destruct fuel; simpl; now rewrite Hx. }
  split; [| split; [| split]].
  - unfold Train.EndOfEpoch, Train.RestoreOrBackup, Train.Anneal.
    destruct (d_ltb validLogProbability _); simpl;
      destruct (d_ltb (d_mul _ _) _); simpl;
      destruct (m_doStartReducingLearningRate (Train.model o)) eqn:Hflag;
      simpl; rewrite ?Hflag; simpl;
      repeat split; intros; try discriminate; try reflexivity; assumption.
  - intros Hfires Hstarted.
    assert (Hlog : Train.loopEpochs (Train.EndOfEpoch validLogProbability o) = false
                   /\ Train.log (Train.EndOfEpoch validLogProbability o)
                      = Train.log o
                        ++ [if d_ltb validLogProbability (Train.lastValidLogProbability o)
                            then OutRestored else OutSaveThisModel]
                        ++ [FileSaveRnnModel;
                            FileSaveWordEmbeddings
                              (m_rnnModelFile (m_hyper (Train.model o))
                               +:+ ".word_embeddings.txt")]).
    { revert Hfires Hstarted.
      unfold Train.EndOfEpoch, Train.RestoreOrBackup, Train.Anneal, Train.save_model.
      destruct (d_ltb validLogProbability _); simpl;
        intros Hfires Hstarted; rewrite Hfires; simpl; rewrite Hstarted; simpl;
        (split; [reflexivity | now rewrite <- app_assoc]). }
    destruct Hlog as [Hloop Hlog].
    split; [| split; [exact Hloop | split; [| split; [exact Hlog | ]]]].
    + revert Hfires Hstarted.
      unfold Train.EndOfEpoch, Train.RestoreOrBackup, Train.Anneal.
      destruct (d_ltb validLogProbability _); simpl;
        intros Hfires Hstarted; rewrite Hfires; simpl; rewrite Hstarted; simpl;
        exact Hstarted.
    + revert Hfires Hstarted.
      unfold Train.EndOfEpoch, Train.RestoreOrBackup, Train.Anneal.
      destruct (d_ltb validLogProbability _); simpl;
        intros Hfires Hstarted; rewrite Hfires; simpl; rewrite Hstarted; simpl;
        reflexivity.
    + intros libm rnn fuel sizeFeature. now apply Hstop.
  - unfold Train.EndOfEpoch, Train.RestoreOrBackup, Train.Anneal.
    destruct (d_ltb validLogProbability _); simpl;
      destruct (d_ltb (d_mul _ _) _); simpl;
      destruct (m_doStartReducingLearningRate (Train.model o)) eqn:Hflag;
      simpl; rewrite ?Hflag; simpl;
      repeat split; intros; try discriminate; try reflexivity; assumption.
  - unfold Train.EndOfEpoch, Train.RestoreOrBackup, Train.Anneal.
    destruct (d_ltb validLogProbability _); simpl;
      destruct (d_ltb (d_mul _ _) _); simpl;
      destruct (m_doStartReducingLearningRate (Train.model o)) eqn:Hflag;
      simpl; rewrite ?Hflag; simpl;
      repeat split; intros; try discriminate; try reflexivity; assumption.
Qed.

End EpochFacts.

Section EpochRollback.
Context {D : Type} {W : Type}.
Context {dbl : Double D} {libm : LibM D} {rnn : @RnnLM D W}.

Lemma Validate_keeps {X} (q : @RnnTreeLM D W -> X) :
  (forall v m, q (set_state v m) = q m) ->
  forall s, q (snd (fst (Train.Validate s))) = q (Train.this s).
Proof.
  intros Hq s. unfold Train.Validate. cbv zeta. cbn [fst snd].
  now apply TestRnnModel_keeps.
Qed.

(** When the backward step leaves the backup alone, so does an epoch up
    to its validation; an epoch that starts with weights and state equal
    to their backup, as every end of epoch leaves them, and whose
    validation log-probability is below the stored one therefore ends
    with the weights and the state it started with. *)
Lemma epoch_rollback_restores_previous_epoch sf (o : @Train.Outer D W) s :
  (forall lw w m,
     m_weightsBackup (BackPropagateErrorsThenOneStepGradientDescent lw w m)
     = m_weightsBackup m
     /\ m_stateBackup (BackPropagateErrorsThenOneStepGradientDescent lw w m)
        = m_stateBackup m) ->
  m_weights (Train.model o) = m_weightsBackup (Train.model o) ->
  m_state (Train.model o) = m_stateBackup (Train.model o) ->
  Train.Training sf (Train.model o) (Train.log o) = Train.Continue s ->
  let '(validLogProbability, m, evs) := Train.Validate s in
  let o' :=
    Train.EndOfEpoch validLogProbability
      {| Train.model := m;
         Train.lastValidLogProbability := Train.lastValidLogProbability o;
         Train.loopEpochs := Train.loopEpochs o;
         Train.log := evs |} in
  Train.OneEpoch sf o = inr o'
  /\ (d_ltb validLogProbability (Train.lastValidLogProbability o) = true ->
      m_weights (Train.model o') = m_weights (Train.model o)
      /\ m_state (Train.model o') = m_state (Train.model o)).
Proof.
  intros Hback Hw Hs Htrain.
  assert (Kw : Train.Kept (@m_weightsBackup D W)).
  { split; try reflexivity. intros. unfold Train.DiscountedBackPropagate. simpl.
    now destruct (Hback lw w (set_learningRate (d_mul (m_learningRate m) discount) m))
      as [-> _]. }
  assert (Ks : Train.Kept (@m_stateBackup D W)).
  { split; try reflexivity. intros. unfold Train.DiscountedBackPropagate. simpl.
    now destruct (Hback lw w (set_learningRate (d_mul (m_learningRate m) discount) m))
      as [_ ->]. }
  pose proof (Training_keeps _ Kw sf (Train.model o) (Train.log o)) as Tw.
  pose proof (Training_keeps _ Ks sf (Train.model o) (Train.log o)) as Ts.
  rewrite Htrain in Tw, Ts. simpl in Tw, Ts.
  unfold Train.OneEpoch. rewrite Htrain.
  pose proof (Validate_keeps (@m_weightsBackup D W) (fun _ _ => eq_refl) s) as Vw.
  pose proof (Validate_keeps (@m_stateBackup D W) (fun _ _ => eq_refl) s) as Vs.
  destruct (Train.Validate s) as [[v m] evs].
  simpl in Vw, Vs.
  split; [reflexivity |].
  intros Hlt.
  match goal with
  | |- context [Train.EndOfEpoch ?v ?x] =>
      destruct (EndOfEpoch_weights v x) as [Hr _];
        destruct (Hr Hlt) as (-> & -> & _)
  end.
  cbn [Train.model].
  now rewrite Vw, Vs, Tw, Ts, Hw, Hs.
Qed.

End EpochRollback.

(** ** Tokens outside the vocabulary *)

Section OovFacts.
Context {D : Type} {W : Type}.
Context {dbl : Double D} {libm : LibM D} {rnn : @RnnLM D W}.

(** C2, as the code has it.  A token whose word index is negative leaves
    [uniqueWordCounter], the accumulated log-probability and the table
    of the sentence as they are, in [TrainRnnModel] and in
    [TestRnnModel]; in [TestRnnModel] so does a token whose word is the
    unknown word (index 1), and either kind of token adds one to
    [numUnk].  The bookkeeping of [TrainRnnModel] changes no variable at
    all for a negative word index: it keeps no tally of such tokens. *)
Theorem oov_tokens_are_not_counted (sizeFeature : Z) (tok : @Token D)
    (training : @Train.Locals D W) (testing : @Test.Locals D W) :
  tokenWord tok < 0 \/ tokenWord tok = 1 ->
  (let testing' := Test.OneToken tok testing in
   Test.uniqueWordCounter testing' = Test.uniqueWordCounter testing
   /\ Test.testLogProbability testing' = Test.testLogProbability testing
   /\ Test.sentenceLogProbability testing' = Test.sentenceLogProbability testing
   /\ Test.logProbSentence testing' = Test.logProbSentence testing
   /\ Test.numUnk testing' = Test.numUnk testing + 1)
  /\ (tokenWord tok < 0 ->
      let training' := Train.locals (Train.OneToken sizeFeature tok training) in
      Train.uniqueWordCounter training' = Train.uniqueWordCounter training
      /\ Train.trainLogProbability training' = Train.trainLogProbability training
      /\ Train.logProbSentence training' = Train.logProbSentence training
      /\ forall lp (s : @Train.Locals D W),
           Train.Count (tokenNumber tok) (tokenWord tok) lp s = s).
Proof.
  intros Hoov. split.
  - cbv zeta.
    destruct (Test_OneToken_Count tok testing) as (Et & Es & El & Eu & En & _).
    unfold Test.visit in *. cbn [Test.logProbability] in *.
    set (lp := LogProbabilityWord _ _) in *.
    assert (Hc : Test.counts
                   (Test.Build_Visit (tokenNumber tok) (tokenWord tok) lp) = false).
    { unfold Test.counts. simpl. destruct Hoov as [Hneg | ->]; [| reflexivity].
      destruct (0 <=? tokenWord tok) eqn:E; [apply Z.leb_le in E; lia | reflexivity]. }
    destruct (Test_Count_oov _ _ _
                (Test.set_this (Test.Forward (tokenWord tok) testing) testing) Hc)
      as (Ct & Cs & Cl & Cu & Cn).
    simpl in Ct, Cs, Cl, Cu, Cn.
    rewrite Et, Es, El, Eu, En, Ct, Cs, Cl, Cu, Cn. auto.
  - intros Hneg. cbv zeta.
    destruct (Train_OneToken_Counted sizeFeature tok training) as (El & Eu & Et).
    rewrite El, Eu, Et. unfold Train.Counted.
    rewrite (Train_Count_oov _ _ _ _ Hneg). simpl.
    repeat split. intros lp s. now apply Train_Count_oov.
Qed.

End OovFacts.

(** ** The vocabulary and the class file *)

Section VocabularyFacts.
Context {D : Type} {W : Type}.
Context {dbl : Double D} {rnn : @RnnLM D W} {corpus : @CorpusOps D}.

(** C8.  When a class file is requested, [LearnVocabularyFromTrainFile]
    writes its diagnostic and returns false; the vocabulary storage and
    the word and label maps are left empty, as the clearing made them
    (the end-of-sentence word is not added), the vocabulary is not copied
    to the validation corpus, and apart from what reading and filtering
    the corpus vocabulary did before, every other member is as it
    was. *)
Theorem class_file_aborts_vocabulary (m : @RnnTreeLM D W) :
  m_usesClassFile (m_hyper m) = true ->
  let '(ok, m', evs) := LearnVocabularyFromTrainFile m in
  ok = false
  /\ evs = [ErrClassFilesNotImplemented]
  /\ m_vocabularyStorage (m_vocab m') = []
  /\ m_mapWord2Index (m_vocab m') = ∅
  /\ m_mapIndex2Word (m_vocab m') = ∅
  /\ m_mapLabel2Index (m_vocab m') = ∅
  /\ SearchWordInVocabulary "</s>" (m_vocab m') = -1
  /\ m_corpusValidTest m' = m_corpusValidTest m
  /\ (m_numTrainWords m', m_corpusVocabulary m')
     = ReadVocabulary (m_typeOfDepLabels (m_hyper m) =? 1) (m_corpusVocabulary m)
  /\ m_corpusTrain m'
     = FilterSortVocabulary (m_corpusTrain m) (m_corpusVocabulary m')
  /\ m_hyper m' = m_hyper m
  /\ m_state m' = m_state m /\ m_stateBackup m' = m_stateBackup m
  /\ m_weights m' = m_weights m /\ m_weightsBackup m' = m_weightsBackup m
  /\ m_bpttVectors m' = m_bpttVectors m
  /\ m_learningRate m' = m_learningRate m
  /\ m_iteration m' = m_iteration m
  /\ m_wordCounter m' = m_wordCounter m.
Proof.
  intros Hclass. unfold LearnVocabularyFromTrainFile.
  destruct (ReadVocabulary _ _) as [n cv]. simpl. rewrite Hclass.
  repeat split.
Qed.

End VocabularyFacts.

(** ** The feature-label vector *)

Section FeatureFacts.
Context {D : Type} {W : Type}.
Context {dbl : Double D} {rnn : @RnnLM D W}.

Lemma put_nat {A} (v : list A) (a : nat) x : put v (Z.of_nat a) x = <[a := x]> v.
Proof.
  unfold put. destruct (Z.of_nat a <? 0) eqn:E; [apply Z.ltb_lt in E; lia |].
  now rewrite Nat2Z.id.
Qed.

Lemma at_nat {A} (d : A) (v : list A) (a : nat) :
  at_ d v (Z.of_nat a) = default d (v !! a).
Proof.
  unfold at_. destruct (Z.of_nat a <? 0) eqn:E; [apply Z.ltb_lt in E; lia |].
  now rewrite Nat2Z.id.
Qed.

(** The decay loop multiplies the entries it runs over, once each. *)
Lemma decay_lookup (gamma : D) (n lo : nat) (fl : list D) (i : nat) :
  for_up lo n
    (fun a fl => put fl (Z.of_nat a) (d_mul (at_ (d_of_int 0) fl (Z.of_nat a)) gamma))
    fl !! i
  = if bool_decide (lo <= i < lo + n)%nat
    then (fun x => d_mul x gamma) <$> fl !! i
    else fl !! i.
Proof.
  revert lo fl. induction n as [|n IH]; intros lo fl; simpl.
  - rewrite bool_decide_eq_false_2 by lia. reflexivity.
  - rewrite IH, put_nat, at_nat.
    destruct (decide (i = lo)) as [-> | Hne].
    + rewrite bool_decide_eq_false_2 by lia.
      rewrite bool_decide_eq_true_2 by lia.
      destruct (fl !! lo) as [x|] eqn:Hl.
      * rewrite list_lookup_insert_eq; [reflexivity |].
        now apply lookup_lt_Some in Hl.
      * rewrite list_insert_ge; [now rewrite Hl |].
        now apply lookup_ge_None in Hl.
    + rewrite list_lookup_insert_ne by congruence.
      destruct (bool_decide (S lo <= i < S lo + n)%nat) eqn:E1.
      * apply bool_decide_eq_true in E1.
        rewrite bool_decide_eq_true_2 by lia. reflexivity.
      * apply bool_decide_eq_false in E1.
        rewrite bool_decide_eq_false_2 by lia. reflexivity.
Qed.

(** One call, entry by entry: the entry of a label that is found becomes
    1, every other entry below the feature size is multiplied by gamma. *)
Lemma Update_lookup (label : Z) (m : @RnnTreeLM D W) (state : @RnnState D) (i : nat) :
  FeatureLayer (UpdateFeatureLabelVector label m state) !! i
  = if found m label && bool_decide (i = Z.to_nat label)
    then (fun _ => d_of_int 1) <$> FeatureLayer state !! i
    else if bool_decide (i < Z.to_nat (GetFeatureSize m))%nat
         then (fun x => d_mul x (m_featureGammaCoeff (m_hyper m)))
                <$> FeatureLayer state !! i
         else FeatureLayer state !! i.
Proof.
  unfold UpdateFeatureLabelVector, found. simpl.
  set (decayed := for_up _ _ _ _).
  assert (Hd : forall j, decayed !! j
               = if bool_decide (j < Z.to_nat (GetFeatureSize m))%nat
                 then (fun x => d_mul x (m_featureGammaCoeff (m_hyper m)))
                        <$> FeatureLayer state !! j
                 else FeatureLayer state !! j).
  { intros j. unfold decayed. rewrite decay_lookup.
    destruct (bool_decide (j < _)%nat) eqn:E.
    - apply bool_decide_eq_true in E. rewrite bool_decide_eq_true_2 by lia. reflexivity.
    - apply bool_decide_eq_false in E. rewrite bool_decide_eq_false_2 by lia. reflexivity. }
  destruct ((0 <=? label) && (label <? GetFeatureSize m)) eqn:Hf; simpl.
  - apply andb_true_iff in Hf as [H0 H1]. apply Z.leb_le in H0. apply Z.ltb_lt in H1.
    unfold put. destruct (label <? 0) eqn:E; [apply Z.ltb_lt in E; lia |].
    destruct (decide (i = Z.to_nat label)) as [-> | Hne].
    + rewrite bool_decide_eq_true_2 by reflexivity.
      destruct (decayed !! Z.to_nat label) as [x|] eqn:Hl.
      * rewrite list_lookup_insert_eq by (now apply lookup_lt_Some in Hl).
        rewrite Hd in Hl. rewrite bool_decide_eq_true_2 in Hl by lia.
        destruct (FeatureLayer state !! Z.to_nat label); [reflexivity | discriminate].
      * rewrite list_insert_ge by (now apply lookup_ge_None in Hl).
        rewrite Hl. rewrite Hd in Hl. rewrite bool_decide_eq_true_2 in Hl by lia.
        destruct (FeatureLayer state !! Z.to_nat label); [discriminate | reflexivity].
    + rewrite bool_decide_eq_false_2 by exact Hne.
      rewrite list_lookup_insert_ne by congruence. apply Hd.
  - apply Hd.
Qed.

Lemma Update_length (label : Z) (m : @RnnTreeLM D W) (state : @RnnState D) :
  length (FeatureLayer (UpdateFeatureLabelVector label m state))
  = length (FeatureLayer state).
Proof.
  apply Nat.le_antisymm.
  - destruct (decide (length (FeatureLayer (UpdateFeatureLabelVector label m state))
                      <= length (FeatureLayer state))%nat) as [Hle | Hgt]; [exact Hle |].
    exfalso.
    assert (Hnone : FeatureLayer state !! length (FeatureLayer state) = None)
      by (apply lookup_ge_None; lia).
    assert (Hsome : is_Some (FeatureLayer (UpdateFeatureLabelVector label m state)
                             !! length (FeatureLayer state)))
      by (apply lookup_lt_is_Some; lia).
    rewrite Update_lookup, Hnone in Hsome.
    destruct (_ && _); [| destruct (bool_decide _)]; simpl in Hsome;
      destruct Hsome; discriminate.
  - destruct (decide (length (FeatureLayer state)
                      <= length (FeatureLayer (UpdateFeatureLabelVector label m state)))%nat)
      as [Hle | Hgt]; [exact Hle |].
    exfalso.
    set (k := length (FeatureLayer (UpdateFeatureLabelVector label m state))) in *.
    assert (Hnone : FeatureLayer (UpdateFeatureLabelVector label m state) !! k = None)
      by (apply lookup_ge_None; lia).
    assert (Hsome : is_Some (FeatureLayer state !! k))
      by (apply lookup_lt_is_Some; lia).
    rewrite Update_lookup in Hnone. destruct Hsome as [x Hx]. rewrite Hx in Hnone.
    destruct (_ && _); [| destruct (bool_decide _)]; simpl in Hnone; discriminate.
Qed.

End FeatureFacts.

(** *** In exact arithmetic *)

Section FeatureFactsExact.
Context {W : Type} {rnn : @RnnLM R W}.

Local Open Scope R_scope.

Lemma Reset_unit (m : @RnnTreeLM R W) (state : @RnnState R) :
  Forall Exact.unit_interval (FeatureLayer (ResetFeatureLabelVector m state)).
Proof.
  unfold ResetFeatureLabelVector, assign. simpl.
  apply Forall_replicate. unfold Exact.unit_interval. lra.
Qed.

Lemma Update_unit (label : Z) (m : @RnnTreeLM R W) (state : @RnnState R) :
  0 <= m_featureGammaCoeff (m_hyper m) <= 1 ->
  Forall Exact.unit_interval (FeatureLayer state) ->
  Forall Exact.unit_interval (FeatureLayer (UpdateFeatureLabelVector label m state)).
Proof.
  intros Hg Hin. apply Forall_lookup. intros i y Hy.
  rewrite Update_lookup in Hy.
  destruct (FeatureLayer state !! i) as [x|] eqn:Hx.
  - assert (Hx01 : Exact.unit_interval x) by (eapply Forall_lookup_1; eassumption).
    unfold Exact.unit_interval in *.
    destruct (_ && _); [| destruct (bool_decide _)]; simpl in Hy;
      inversion Hy; subst; simpl; try lra; nra.
  - destruct (_ && _); [| destruct (bool_decide _)]; simpl in Hy; discriminate.
Qed.

Lemma Updates_unit (labels : list Z) (m : @RnnTreeLM R W) (state : @RnnState R) :
  0 <= m_featureGammaCoeff (m_hyper m) <= 1 ->
  Forall Exact.unit_interval (FeatureLayer state) ->
  Forall Exact.unit_interval (FeatureLayer (Updates labels m state)).
Proof.
  intros Hg. revert state. unfold Updates.
  induction labels as [|l labels IH]; intros state Hin; simpl; [exact Hin |].
  apply IH. now apply Update_unit.
Qed.

(** Calls whose label is not found multiply every entry below the
    feature size by gamma, once per call. *)
Lemma Updates_decay (labels : list Z) (m : @RnnTreeLM R W) (state : @RnnState R)
    (i : nat) (x : R) :
  Forall (fun l => found m l = false) labels ->
  (i < Z.to_nat (GetFeatureSize m))%nat ->
  FeatureLayer state !! i = Some x ->
  FeatureLayer (Updates labels m state) !! i
  = Some (x * m_featureGammaCoeff (m_hyper m) ^ length labels).
Proof.
  intros Hl Hi. revert state x. unfold Updates.
  induction Hl as [|l labels Hnf Hl IH]; intros state x Hx; simpl.
  - rewrite Hx. f_equal. lra.
  - rewrite (IH _ (x * m_featureGammaCoeff (m_hyper m))).
    + f_equal. lra.
    + rewrite Update_lookup, Hnf, Hx. simpl.
      now rewrite bool_decide_eq_true_2 by exact Hi.
Qed.


Lemma Updates_length (labels : list Z) (m : @RnnTreeLM R W) (state : @RnnState R) :
  length (FeatureLayer (Updates labels m state)) = length (FeatureLayer state).
Proof.
  revert state. unfold Updates.
  induction labels as [|l labels IH]; intros state; simpl; [reflexivity |].
  rewrite IH. apply Update_length.
Qed.

(** In exact arithmetic, which the program does not compute in: starting
    from the zeroed feature layer, with gamma in [0,1], every sequence of
    calls of [UpdateFeatureLabelVector] keeps every entry in [0,1]; after
    [n] more calls whose label is not found an entry [x] is
    [x * gamma ^ n], not more than [x]; and when gamma < 1 all entries
    are eventually below any positive bound. *)
Lemma exact_feature_layer_decays
    (m : @RnnTreeLM R W) (state0 : @RnnState R) (labels : list Z) :
  0 <= m_featureGammaCoeff (m_hyper m) <= 1 ->
  let gamma := m_featureGammaCoeff (m_hyper m) in
  let state := Updates labels m (ResetFeatureLabelVector m state0) in
  Forall Exact.unit_interval (FeatureLayer state)
  /\ (forall label i,
        FeatureLayer (UpdateFeatureLabelVector label m state) !! i
        = if found m label && bool_decide (i = Z.to_nat label)
          then (fun _ => 1) <$> FeatureLayer state !! i
          else (fun x => x * gamma) <$> FeatureLayer state !! i)
  /\ (forall quiet i x,
        Forall (fun l => found m l = false) quiet ->
        FeatureLayer state !! i = Some x ->
        FeatureLayer (Updates quiet m state) !! i = Some (x * gamma ^ length quiet)
        /\ x * gamma ^ length quiet <= x)
  /\ (gamma < 1 ->
      forall bound, 0 < bound ->
      exists N, forall quiet,
        Forall (fun l => found m l = false) quiet ->
        (N <= length quiet)%nat ->
        Forall (fun y => 0 <= y < bound) (FeatureLayer (Updates quiet m state))).
Proof.
  intros Hg. cbv zeta.
  set (gamma := m_featureGammaCoeff (m_hyper m)) in *.
  set (state := Updates labels m (ResetFeatureLabelVector m state0)).
  assert (Hunit : Forall Exact.unit_interval (FeatureLayer state)).
  { apply Updates_unit; [exact Hg | apply Reset_unit]. }
  assert (Hlen : length (FeatureLayer state) = Z.to_nat (GetFeatureSize m)).
  { unfold state. rewrite Updates_length. unfold ResetFeatureLabelVector, assign.
    simpl. apply length_replicate. }
  assert (Hdecay : forall quiet i x,
            Forall (fun l => found m l = false) quiet ->
            FeatureLayer state !! i = Some x ->
            FeatureLayer (Updates quiet m state) !! i
            = Some (x * gamma ^ length quiet)).
  { intros quiet i x Hq Hx. apply Updates_decay; [exact Hq | | exact Hx].
    apply lookup_lt_Some in Hx. lia. }
  split; [exact Hunit |]. split; [| split].
  - intros label i. rewrite Update_lookup.
    destruct (_ && _); [reflexivity |].
    destruct (bool_decide _) eqn:E; [reflexivity |].
    apply bool_decide_eq_false in E.
    rewrite (proj2 (lookup_ge_None (FeatureLayer state) i)) by lia. reflexivity.
  - intros quiet i x Hq Hx. split; [now apply Hdecay |].
    assert (Hx01 : Exact.unit_interval x) by (eapply Forall_lookup_1; eassumption).
    assert (Hp : 0 <= gamma ^ length quiet <= 1).
    { split; [apply pow_le; lra |].
      rewrite <- (pow1 (length quiet)). apply pow_incr. lra. }
    unfold Exact.unit_interval in Hx01. nra.
  - intros Hlt bound Hb.
    destruct (pow_lt_1_zero gamma) with (y := bound) as [N HN];
      [rewrite Rabs_pos_eq; lra | exact Hb |].
    exists N. intros quiet Hq HNq. apply Forall_lookup. intros i y Hy.
    assert (Hi : (i < length (FeatureLayer state))%nat).
    { apply lookup_lt_Some in Hy. now rewrite Updates_length in Hy. }
    destruct (lookup_lt_is_Some_2 _ _ Hi) as [x Hx].
    rewrite (Hdecay quiet i x Hq Hx) in Hy. inversion Hy; subst y.
    assert (Hx01 : Exact.unit_interval x) by (eapply Forall_lookup_1; eassumption).
    specialize (HN (length quiet) HNq).
    assert (Hp : 0 <= gamma ^ length quiet) by (apply pow_le; lra).
    rewrite Rabs_pos_eq in HN by exact Hp.
    unfold Exact.unit_interval in Hx01. nra.
Qed.
End FeatureFactsExact.

(** *** In binary64 *)

Section FeatureFactsBinary64.

Lemma digits_bounds (p : positive) :
  2 ^ (Zpos (digits2_pos p) - 1) <= Zpos p < 2 ^ Zpos (digits2_pos p).
Proof.
  induction p as [p IH | p IH |]; simpl digits2_pos.
  - rewrite Pos2Z.inj_succ.
    replace (Z.succ (Zpos (digits2_pos p)) - 1) with (Z.succ (Zpos (digits2_pos p) - 1)) by lia.
    rewrite !Z.pow_succ_r by lia. lia.
  - rewrite Pos2Z.inj_succ.
    replace (Z.succ (Zpos (digits2_pos p)) - 1) with (Z.succ (Zpos (digits2_pos p) - 1)) by lia.
    rewrite !Z.pow_succ_r by lia. lia.
  - simpl. lia.
Qed.

Lemma digits_unique (p : positive) (k : Z) :
  2 ^ (k - 1) <= Zpos p < 2 ^ k -> Zpos (digits2_pos p) = k.
Proof.
  intros [Hlo Hhi]. pose proof (digits_bounds p) as [Dlo Dhi].
  assert (0 < k). { destruct (Z_lt_le_dec 0 k); [lia|]. 
    assert (2 ^ k <= 2 ^ 0) by (destruct (Z_lt_le_dec k 0); [rewrite Z.pow_neg_r by lia; simpl; lia | apply Z.pow_le_mono_r; lia]). simpl in *. lia. }
  destruct (Z_lt_le_dec (Zpos (digits2_pos p)) k) as [Hlt | Hge].
  - assert (2 ^ Zpos (digits2_pos p) <= 2 ^ (k - 1)) by (apply Z.pow_le_mono_r; lia). lia.
  - destruct (Z_lt_le_dec k (Zpos (digits2_pos p))) as [Hlt | Hle]; [| lia].
    assert (2 ^ k <= 2 ^ (Zpos (digits2_pos p) - 1)) by (apply Z.pow_le_mono_r; lia). lia.
Qed.

Lemma shr_1_m (mrs : shr_record) :
  0 <= shr_m mrs -> shr_m (shr_1 mrs) = shr_m mrs / 2.
Proof.
  destruct mrs as [m r s]. simpl. intros Hm.
  destruct m as [|p|p]; [reflexivity | | lia].
  destruct p as [p|p|]; simpl shr_m.
  - rewrite Pos2Z.inj_xI. apply Z.div_unique with 1; lia.
  - rewrite Pos2Z.inj_xO. apply Z.div_unique with 0; lia.
  - reflexivity.
Qed.

Lemma shr_1_nonneg (mrs : shr_record) : 0 <= shr_m mrs -> 0 <= shr_m (shr_1 mrs).
Proof. intros H. rewrite shr_1_m by exact H. apply Z.div_pos; lia. Qed.

Lemma pow2_xO (k : positive) : 2 ^ Zpos k~0 = 2 ^ Zpos k * 2 ^ Zpos k.
Proof. rewrite Pos2Z.inj_xO, <- Z.pow_add_r by lia. f_equal. lia. Qed.

Lemma pow2_xI (k : positive) : 2 ^ Zpos k~1 = 2 * (2 ^ Zpos k * 2 ^ Zpos k).
Proof.
  rewrite Pos2Z.inj_xI, <- Z.pow_add_r by lia.
  replace (2 * Zpos k + 1) with (Z.succ (Zpos k + Zpos k)) by lia.
  now rewrite Z.pow_succ_r by lia.
Qed.

Lemma iter_shr_m (k : positive) : forall mrs,
  0 <= shr_m mrs ->
  shr_m (SpecFloat.iter_pos shr_1 k mrs) = shr_m mrs / 2 ^ Zpos k
  /\ 0 <= shr_m (SpecFloat.iter_pos shr_1 k mrs).
Proof.
  induction k as [k IH | k IH |]; intros mrs Hm; simpl SpecFloat.iter_pos.
  - pose proof (shr_1_nonneg mrs Hm) as H1.
    destruct (IH (shr_1 mrs) H1) as [E1 N1].
    destruct (IH _ N1) as [E2 N2].
    split; [| exact N2].
    assert (Hp : 0 < 2 ^ Zpos k) by (apply Z.pow_pos_nonneg; lia).
    rewrite E2, E1, shr_1_m by exact Hm.
    rewrite !Z.div_div by lia. now rewrite pow2_xI.
  - destruct (IH mrs Hm) as [E1 N1].
    destruct (IH _ N1) as [E2 N2].
    split; [| exact N2].
    assert (Hp : 0 < 2 ^ Zpos k) by (apply Z.pow_pos_nonneg; lia).
    rewrite E2, E1.
    rewrite !Z.div_div by lia. now rewrite pow2_xO.
  - split; [rewrite shr_1_m by exact Hm; reflexivity | now apply shr_1_nonneg].
Qed.

Lemma B64_fexp_eq e : fexp B64.prec B64.emax e = B64.fexp e.
Proof. reflexivity. Qed.

Lemma round_nearest_even_bounds m l : m <= round_nearest_even m l <= m + 1.
Proof.
  unfold round_nearest_even.
  destruct l as [|[| |]]; try lia. destruct (Z.even m); lia.
Qed.

Lemma round_aux_small (m : positive) (e : Z) :
  let d := Zpos (digits2_pos m) in
  d + e <= 0 ->
  e < B64.fexp (d + e) ->
  B64.small (binary_round_aux B64.prec B64.emax false (Zpos m) e loc_Exact).
Proof.
  intros d Hde Hn.
  pose proof (digits_bounds m) as [Dlo Dhi]. fold d in Dlo, Dhi.
  unfold binary_round_aux, shr_fexp.
  change (Zdigits2 (Zpos m)) with d. rewrite B64_fexp_eq.
  set (e' := B64.fexp (d + e)) in *.
  destruct (e' - e) as [|pn|pn] eqn:En; try lia.
  unfold shr. 
  assert (He' : e + Zpos pn = e') by lia. rewrite He'.
  set (mrs' := SpecFloat.iter_pos shr_1 pn (shr_record_of_loc (Zpos m) loc_Exact)).
  destruct (iter_shr_m pn (shr_record_of_loc (Zpos m) loc_Exact)) as [Em Nm];
    [simpl; lia |].
  fold mrs' in Em, Nm. simpl (shr_m (shr_record_of_loc _ _)) in Em.
  set (m' := shr_m mrs') in *.
  pose proof (round_nearest_even_bounds m' (loc_of_shr_record mrs')) as [R1 R2].
  set (m1 := round_nearest_even m' (loc_of_shr_record mrs')) in *.
  (* bounds on m' *)
  assert (Hpn : 0 < 2 ^ Zpos pn) by (apply Z.pow_pos_nonneg; lia).
  assert (He'lo : -1074 <= e') by (unfold e', B64.fexp; lia).
  assert (He'hi : e' <= -53) by (unfold e', B64.fexp; lia).
  assert (Hnorm : e' = -1074 \/ (e' = d + e - 53 /\ -1074 < e')) by (unfold e', B64.fexp; lia).
  assert (Hm'hi : m' < 2 ^ 53).
  { rewrite Em. apply Z.div_lt_upper_bound; [lia |].
    rewrite <- Z.pow_add_r by lia.
    assert (2 ^ d <= 2 ^ (Zpos pn + 53)) by (apply Z.pow_le_mono_r; unfold e', B64.fexp in *; lia).
    lia. }
  assert (Hm'sub : e' = -1074 -> m' < 2 ^ 53) by (intros; exact Hm'hi).
  assert (Hm'lo : -1074 < e' -> 2 ^ 52 <= m').
  { intros Hne. assert (Ed : d - 1 = Zpos pn + 52) by lia.
    rewrite Em. apply Z.div_le_lower_bound; [lia |].
    rewrite <- Z.pow_add_r by lia. rewrite <- Ed. exact Dlo. }
  (* second shift *)
  destruct m1 as [|q|q] eqn:Eq1; try lia.
  - (* rounded to zero *)
    simpl Zdigits2. rewrite B64_fexp_eq.
    assert (Hn2 : B64.fexp (0 + e') - e' <= 0) by (unfold B64.fexp; lia).
    destruct (B64.fexp (0 + e') - e') eqn:En2; try lia; simpl; now left.
  - pose proof (digits_bounds q) as [Qlo Qhi].
    change (Zdigits2 (Zpos q)) with (Zpos (digits2_pos q)). rewrite B64_fexp_eq.
    set (d1 := Zpos (digits2_pos q)) in *.
    destruct (Z_lt_le_dec (Zpos q) (2 ^ 53)) as [Hq | Hq].
    + (* no carry out of the mantissa *)
      assert (Hd1 : d1 <= 53).
      { destruct (Z_lt_le_dec 53 d1); [| lia].
        assert (2 ^ 53 <= 2 ^ (d1 - 1)) by (apply Z.pow_le_mono_r; lia). lia. }
      assert (Hd1lo : -1074 < e' -> d1 = 53).
      { intros Hne. specialize (Hm'lo Hne).
        destruct (Z_lt_le_dec d1 53); [| lia].
        assert (2 ^ d1 <= 2 ^ 52) by (apply Z.pow_le_mono_r; lia). lia. }
      assert (Hcan : B64.fexp (d1 + e') = e') by (unfold B64.fexp; lia).
      rewrite Hcan, Z.sub_diag. simpl.
      match goal with |- context [if ?c then _ else _] =>
        replace c with true
          by (symmetry; apply Z.leb_le; unfold B64.emax, B64.prec; lia) end.
      right. exists q, e'. split; [reflexivity |]. split; [| left; lia].
      unfold bounded, canonical_mantissa. fold d1. rewrite B64_fexp_eq, Hcan, Z.eqb_refl.
      apply Z.leb_le. unfold B64.emax, B64.prec. lia.
    + (* carry: the mantissa is 2^53 *)
      assert (Hq53 : Zpos q = 2 ^ 53) by lia.
      assert (Eq : q = 9007199254740992%positive).
      { apply Pos2Z.inj. rewrite Hq53. reflexivity. }
      subst q. change (Zpos (digits2_pos 9007199254740992)) with 54 in *.
      assert (Hshift : B64.fexp (d1 + e') - e' = 1) by (unfold d1, B64.fexp; lia).
      rewrite Hshift. simpl.
      match goal with |- context [if ?c then _ else _] =>
        replace c with true
          by (symmetry; apply Z.leb_le; unfold B64.emax, B64.prec; lia) end.
      right. exists 4503599627370496%positive, (e' + 1).
      split; [reflexivity |]. split.
      * unfold bounded, canonical_mantissa.
        change (Zpos (digits2_pos 4503599627370496)) with 53. rewrite B64_fexp_eq.
        replace (B64.fexp (53 + (e' + 1))) with (e' + 1) by (unfold B64.fexp; lia).
        rewrite Z.eqb_refl. apply Z.leb_le. unfold B64.emax, B64.prec. lia.
      * destruct (Z_lt_le_dec (e' + 1) (-52)); [left; lia | right; split; [lia | reflexivity]].
Qed.



Lemma small_is_unit_shape r : B64.small r -> B64.unit_shape r.
Proof. intros [-> | H]; [left; now exists false | now right]. Qed.

Lemma bounded_canonical m e :
  bounded B64.prec B64.emax m e = true ->
  B64.fexp (Zpos (digits2_pos m) + e) = e /\ e <= 971.
Proof.
  unfold bounded, canonical_mantissa. rewrite B64_fexp_eq.
  intros H. apply andb_true_iff in H as [H1 H2].
  apply Z.eqb_eq in H1. apply Z.leb_le in H2. unfold B64.emax, B64.prec in H2. lia.
Qed.

Lemma B64_zero : B64.of_int 0 = S754_zero false.
Proof. reflexivity. Qed.

Lemma B64_one : B64.of_int 1 = S754_finite false 4503599627370496 (-52).
Proof. reflexivity. Qed.

Lemma SFleb_finite (m : positive) (e : Z) (m2 : positive) (e2 : Z) :
  SFleb (S754_finite false m e) (S754_finite false m2 e2)
  = match e ?= e2 with
    | Eq => match Pos.compare_cont Eq m m2 with Gt => false | _ => true end
    | Lt => true
    | Gt => false
    end.
Proof.
  unfold SFleb, SFcompare. destruct (e ?= e2); reflexivity.
Qed.

Lemma SFleb_zero_finite (m : positive) (e : Z) :
  SFleb (S754_zero false) (S754_finite false m e) = true.
Proof. reflexivity. Qed.

Lemma unit_has_shape x : B64.in_unit x = true -> B64.unit_shape x.
Proof.
  unfold B64.in_unit. rewrite B64_zero, B64_one. intros H.
  apply andb_true_iff in H as [H H1]. apply andb_true_iff in H as [Hv H0].
  destruct x as [s | s | | s m e]; try discriminate.
  - left. now exists s.
  - destruct s; discriminate.
  - destruct s; [discriminate |].
    right. exists m, e. split; [reflexivity |].
    change (bounded B64.prec B64.emax m e = true) in Hv. split; [exact Hv |].
    rewrite SFleb_finite in H1.
    destruct (Z.compare_spec e (-52)) as [E | E | E]; try discriminate.
    + right. split; [exact E |]. subst e.
      apply bounded_canonical in Hv as [Hc _].
      pose proof (digits_bounds m) as [Dlo Dhi].
      assert (Hd : Zpos (digits2_pos m) = 53) by (unfold B64.fexp in Hc; lia).
      rewrite Hd in Dlo.
      assert (Hle : (m <= 4503599627370496)%positive).
      { unfold Pos.le, Pos.compare. intros Hgt. rewrite Hgt in H1. discriminate. }
      apply Pos2Z.inj. change (Zpos 4503599627370496) with (2 ^ (53 - 1)).
      apply Pos2Z.pos_le_pos in Hle.
      change (Zpos 4503599627370496) with (2 ^ (53 - 1)) in Hle. lia.
    + left. exact E.
Qed.

Lemma shape_is_unit x : B64.unit_shape x -> B64.in_unit x = true.
Proof.
  intros [[s ->] | (m & e & -> & Hb & He)].
  - reflexivity.
  - unfold B64.in_unit. rewrite B64_zero, B64_one.
    change (valid_binary B64.prec B64.emax (S754_finite false m e))
      with (bounded B64.prec B64.emax m e).
    rewrite Hb, SFleb_zero_finite, SFleb_finite.
    destruct He as [He | [-> ->]]; [| reflexivity].
    apply Z.compare_lt_iff in He. now rewrite He.
Qed.






Lemma digits_mul_le (a b : positive) :
  Zpos (digits2_pos a) + Zpos (digits2_pos b) - 1 <= Zpos (digits2_pos (a * b))
  <= Zpos (digits2_pos a) + Zpos (digits2_pos b).
Proof.
  pose proof (digits_bounds a) as [Alo Ahi].
  pose proof (digits_bounds b) as [Blo Bhi].
  pose proof (digits_bounds (a * b)) as [Plo Phi].
  rewrite Pos2Z.inj_mul in Plo, Phi.
  set (da := Zpos (digits2_pos a)) in *.
  set (db := Zpos (digits2_pos b)) in *.
  set (dp := Zpos (digits2_pos (a * b))) in *.
  assert (0 < da /\ 0 < db /\ 0 < dp) as (Pa & Pb & Pp) by (unfold da, db, dp; lia).
  assert (Hlo : 2 ^ (da - 1 + (db - 1)) <= Zpos a * Zpos b).
  { rewrite Z.pow_add_r by lia. apply Z.mul_le_mono_nonneg; lia. }
  assert (Hhi : Zpos a * Zpos b < 2 ^ (da + db)).
  { rewrite Z.pow_add_r by lia. apply Z.mul_lt_mono_nonneg; lia. }
  split.
  - destruct (Z_lt_le_dec dp (da + db - 1)); [| lia].
    assert (2 ^ dp <= 2 ^ (da - 1 + (db - 1))) by (apply Z.pow_le_mono_r; lia). lia.
  - destruct (Z_lt_le_dec (da + db) dp); [| lia].
    assert (2 ^ (da + db) <= 2 ^ (dp - 1)) by (apply Z.pow_le_mono_r; lia). lia.
Qed.

Lemma digits_mul_one (b : positive) :
  Zpos (digits2_pos (4503599627370496 * b)) = 52 + Zpos (digits2_pos b).
Proof.
  pose proof (digits_bounds b) as [Blo Bhi].
  apply digits_unique. rewrite Pos2Z.inj_mul.
  change (Zpos 4503599627370496) with (2 ^ 52).
  replace (52 + Zpos (digits2_pos b) - 1) with (52 + (Zpos (digits2_pos b) - 1)) by lia.
  rewrite !Z.pow_add_r by lia. nia.
Qed.

Lemma B64_product_in_unit x g :
  B64.in_unit x = true -> B64.in_unit g = true -> B64.in_unit (B64.mul x g) = true.
Proof.
  intros Hx Hg. apply unit_has_shape in Hx, Hg. apply shape_is_unit.
  destruct Hx as [[sx ->] | (mx & ex & -> & Bx & Ex)];
  destruct Hg as [[sg ->] | (mg & eg & -> & Bg & Eg)];
    try (left; eexists; reflexivity).
  unfold B64.mul, SFmul. cbn [xorb].
  apply bounded_canonical in Bx as [Cx _], Bg as [Cg _].
  pose proof (digits_mul_le mx mg) as [Plo Phi].
  assert (Hone : Zpos (digits2_pos 4503599627370496) = 53) by reflexivity.
  destruct Ex as [Ex | [-> ->]]; destruct Eg as [Eg | [-> ->]].
  - apply small_is_unit_shape, round_aux_small; unfold B64.fexp in *; lia.
  - rewrite Pos.mul_comm.
    pose proof (digits_mul_one mx) as Hd.
    apply small_is_unit_shape, round_aux_small; unfold B64.fexp in *; lia.
  - pose proof (digits_mul_one mg) as Hd.
    apply small_is_unit_shape, round_aux_small; unfold B64.fexp in *; lia.
  - right. do 2 eexists. split; [vm_compute; reflexivity |]. split; [reflexivity |].
    right. split; reflexivity.
Qed.




Context {W : Type} {rnn : @RnnLM spec_float W}.

Lemma B64_Reset_unit (m : @RnnTreeLM spec_float W) (state : @RnnState spec_float) :
  Forall (fun x => B64.in_unit x = true)
    (FeatureLayer (ResetFeatureLabelVector m state)).
Proof.
  unfold ResetFeatureLabelVector, assign. simpl.
  apply Forall_replicate. reflexivity.
Qed.

Lemma B64_Update_unit (label : Z) (m : @RnnTreeLM spec_float W)
    (state : @RnnState spec_float) :
  B64.in_unit (m_featureGammaCoeff (m_hyper m)) = true ->
  Forall (fun x => B64.in_unit x = true) (FeatureLayer state) ->
  Forall (fun x => B64.in_unit x = true)
    (FeatureLayer (UpdateFeatureLabelVector label m state)).
Proof.
  intros Hg Hin. apply Forall_lookup. intros i y Hy.
  rewrite Update_lookup in Hy.
  destruct (FeatureLayer state !! i) as [x|] eqn:Hx.
  - assert (Hx01 : B64.in_unit x = true).
    { exact (Forall_lookup_1 (fun x => B64.in_unit x = true) _ _ _ Hin Hx). }
    destruct (_ && _); [| destruct (bool_decide _)]; simpl in Hy;
      inversion Hy; subst; [reflexivity | | exact Hx01].
    now apply B64_product_in_unit.
  - destruct (_ && _); [| destruct (bool_decide _)]; simpl in Hy; discriminate.
Qed.

(** The first part of C9 in the arithmetic of the program: starting from
    the zeroed feature layer, with gamma a binary64 number in [0,1],
    every sequence of calls of [UpdateFeatureLabelVector] keeps every
    entry a binary64 number in [0,1]; no product is rounded out of the
    interval. *)
Lemma B64_Updates_unit (labels : list Z) (m : @RnnTreeLM spec_float W)
    (state0 : @RnnState spec_float) :
  B64.in_unit (m_featureGammaCoeff (m_hyper m)) = true ->
  Forall (fun x => B64.in_unit x = true)
    (FeatureLayer (Updates labels m (ResetFeatureLabelVector m state0))).
Proof.
  intros Hg. generalize (B64_Reset_unit m state0).
  generalize (ResetFeatureLabelVector m state0). unfold Updates.
  induction labels as [|l labels IH]; intros state Hin; simpl; [exact Hin |].
  apply IH. now apply B64_Update_unit.
Qed.



End FeatureFactsBinary64.

(** ** Entropy and perplexity, in exact arithmetic *)

Section PerplexityFacts.
Local Open Scope R_scope.

Lemma ln_2_neq_0 : ln 2 <> 0.
Proof. apply ln_neq_0; lra. Qed.

Lemma ln_10_neq_0 : ln 10 <> 0.
Proof. apply ln_neq_0; lra. Qed.

(** C7, as the code has it.  The entropy is in bits: for a positive word
    count the perplexity [10^(-logProbability/wordCount)] is 2 to the
    power of the entropy [-logProbability/log10(2)/wordCount]. *)
Theorem perplexity_is_two_to_the_entropy (logProbability : R) (wordCount : Z) :
  (0 < wordCount)%Z ->
  Perplexity logProbability wordCount
  = Rpower 2 (Entropy logProbability wordCount).
Proof.
  intros Hn. unfold Perplexity, Entropy. simpl.
  unfold Exact.exp10, Exact.log10, Rpower. f_equal.
  assert (Hc : IZR wordCount <> 0) by (apply not_0_IZR; lia).
  pose proof ln_2_neq_0. pose proof ln_10_neq_0.
  field. auto.
Qed.

End PerplexityFacts.

(** ** The safety check in binary64 *)

Section DivergenceFacts.
Context {W : Type} {libm : LibM spec_float} {rnn : @RnnLM spec_float W}.

Lemma SFcompare_refl (x : spec_float) :
  SFcompare x x = if B64.is_nan x then None else Some Eq.
Proof.
  destruct x as [s|s| |s m e]; simpl; try reflexivity.
  - now destruct s.
  - rewrite Z.compare_refl, Pos.compare_cont_refl. now destruct s.
Qed.

(** [x != x] holds of NaN and of nothing else: not of an infinity. *)
Lemma diverged_is_nan (x : spec_float) :
  @Train.diverged spec_float binary64 x = B64.is_nan x.
Proof.
  unfold Train.diverged, d_neb. simpl. unfold SFeqb.
  rewrite SFcompare_refl. now destruct (B64.is_nan x).
Qed.

(** What the safety check of C6 does.  The body of the token loop
    returns false, after the diagnostic, exactly when the accumulated
    training log-probability is NaN after the bookkeeping of the token,
    and goes on otherwise, also when the value is infinite.  So the training of
    an epoch returns false at the first token that makes the accumulated
    value NaN, [TrainRnnModel] then returns false without validation and
    without another epoch, and the training runs to its end when no
    value is NaN. *)
Theorem training_stops_when_log_probability_is_nan
    (sizeFeature : Z) (m : @RnnTreeLM spec_float W)
    (lastValidLogProbability : spec_float) (log0 : list (@Event spec_float))
    (fuel : nat) :
  let o :=
    {| Train.model := m;
       Train.lastValidLogProbability := lastValidLogProbability;
       Train.loopEpochs := true;
       Train.log := log0 |} in
  (forall tok (s : @Train.Locals spec_float W),
     Train.OneToken sizeFeature tok s
     = if B64.is_nan (Train.trainLogProbability (Train.Counted tok s))
       then Train.ReturnFalse (Train.emit [OutNumericalError] (Train.Counted tok s))
       else Train.Continue (Train.Learn sizeFeature tok (Train.Counted tok s)))
  /\ match Train.Training sizeFeature (Train.model o) (Train.log o) with
     | Train.ReturnFalse s =>
         B64.is_nan (Train.trainLogProbability s) = true
         /\ (exists before,
               Train.TrainingTrace sizeFeature (Train.model o) (Train.log o)
               = before ++ [Train.trainLogProbability s]
               /\ Forall (fun y => B64.is_nan y = false) before)
         /\ last (Train.out s) = Some OutNumericalError
         /\ Train.Epochs (S fuel) sizeFeature o
            = Some (false,
                    {| Train.model := Train.this s;
                       Train.lastValidLogProbability := lastValidLogProbability;
                       Train.loopEpochs := true;
                       Train.log := Train.out s |})
     | Train.Continue _ =>
         Forall (fun y => B64.is_nan y = false)
           (Train.TrainingTrace sizeFeature (Train.model o) (Train.log o))
     end.
Proof.
  intros o. split.
  - intros tok s. unfold Train.OneToken, Train.Diverged.
    now rewrite diverged_is_nan.
  - pose proof (Training_Outcome sizeFeature (Train.model o) (Train.log o)) as Ho.
    assert (Hs : forall l, Train.Sound l -> Forall (fun y => B64.is_nan y = false) l).
    { intros l Hl. eapply Forall_impl; [exact Hl |].
      intros y Hy. simpl in Hy. now rewrite diverged_is_nan in Hy. }
    destruct (Train.Training _ _ _) as [s|s] eqn:Ht; simpl in Ho.
    + now apply Hs.
    + destruct Ho as [(pre & Hv & Hx & Hpre) Hout].
      rewrite diverged_is_nan in Hx.
      split; [exact Hx |]. split; [exists pre; split; [exact Hv | now apply Hs] |].
      split; [exact Hout |].
      now apply (Epochs_return_false fuel sizeFeature o s).
Qed.

End DivergenceFacts.

(** ** Concrete runs *)

Section Binary64Runs.

#[local] Abbreviation outer64 := (@Sample.outer spec_float binary64).
#[local] Abbreviation trained64 := (@Sample.trained spec_float binary64).
#[local] Abbreviation training64 := (@Sample.training spec_float binary64).

(** The rollback of an epoch whose validation log-probability, -101, is
    below the stored -100.2, and of the epoch after it. *)
Lemma rollback_or_checkpoint_witness :
  d_ltb (B64.of_int (-101)) (Train.lastValidLogProbability trained64) = true
  /\ m_weights (Train.model (Train.EndOfEpoch (B64.of_int (-101)) trained64))
     = m_weightsBackup (Train.model trained64)
  /\ m_weights
       (Train.model
          (Train.EndOfEpoch (B64.of_int (-102))
             {| Train.model :=
                  set_weights (B64.of_int 9)
                    (Train.model (Train.EndOfEpoch (B64.of_int (-101)) trained64));
                Train.lastValidLogProbability :=
                  Train.lastValidLogProbability
                    (Train.EndOfEpoch (B64.of_int (-101)) trained64);
                Train.loopEpochs :=
                  Train.loopEpochs (Train.EndOfEpoch (B64.of_int (-101)) trained64);
                Train.log :=
                  Train.log (Train.EndOfEpoch (B64.of_int (-101)) trained64) |}))
     = m_weights (Train.model (Train.EndOfEpoch (B64.of_int (-101)) trained64)).
Proof.
  destruct (rollback_or_checkpoint (B64.of_int (-101)) trained64)
    as (Hlt & _ & _ & _ & Hnext).
  split; [vm_compute; reflexivity |]. split.
  - apply Hlt. vm_compute. reflexivity.
  - apply (Hnext (set_weights (B64.of_int 9)) (B64.of_int (-102))).
    + intros x. split; reflexivity.
    + vm_compute. reflexivity.
Defined.

(** The first time the ratio test fires, with -100 against the stored
    -100.2 and the threshold 1.003; and the end of the next epoch, where
    it fires again, with -100 against the stored -100. *)
Lemma annealing_witness :
  let o1 := Train.EndOfEpoch (B64.of_int (-100)) outer64 in
  let o2 := Train.EndOfEpoch (B64.of_int (-100)) o1 in
  (d_ltb (d_mul (B64.of_int (-100))
            (m_minLogProbaImprovement (m_hyper (Train.model outer64))))
         (Train.lastValidLogProbability outer64) = true
   /\ m_doStartReducingLearningRate (Train.model outer64) = false
   /\ m_learningRate (Train.model o1)
      = d_div (m_learningRate (Train.model outer64)) (d_of_int 2))
  /\ (d_ltb (d_mul (B64.of_int (-100))
               (m_minLogProbaImprovement (m_hyper (Train.model o1))))
            (Train.lastValidLogProbability o1) = true
      /\ m_doStartReducingLearningRate (Train.model o1) = true
      /\ Train.loopEpochs o2 = false
      /\ m_learningRate (Train.model o2) = m_learningRate (Train.model o1)
      /\ Train.log o2
         = Train.log o1
           ++ [OutSaveThisModel; FileSaveRnnModel;
               FileSaveWordEmbeddings "model.word_embeddings.txt"]).
Proof.
  cbv zeta. split.
  - destruct (annealing_halves_from_the_first_trigger (B64.of_int (-100)) outer64)
      as (Hfirst & _).
    split; [vm_compute; reflexivity |]. split; [reflexivity |].
    apply Hfirst; vm_compute; reflexivity.
  - destruct (annealing_halves_from_the_first_trigger (B64.of_int (-100))
                (Train.EndOfEpoch (B64.of_int (-100)) outer64))
      as (_ & Hagain & _).
    split; [vm_compute; reflexivity |]. split; [vm_compute; reflexivity |].
    destruct Hagain as (_ & Hloop & Hrate & Hlog & _);
      [vm_compute; reflexivity | vm_compute; reflexivity |].
    split; [exact Hloop |]. split; [exact Hrate |].
    rewrite Hlog. vm_compute. reflexivity.
Defined.

(** Against C3: at the end of the epoch in which the ratio test fires for
    the first time the learning rate, 0.1, has already become 0.05; the
    next epoch does not train at the same rate. *)
Lemma first_trigger_halves_the_rate_at_once :
  let o' := Train.EndOfEpoch (B64.of_int (-100)) outer64 in
  d_ltb (d_mul (B64.of_int (-100))
           (m_minLogProbaImprovement (m_hyper (Train.model outer64))))
        (Train.lastValidLogProbability outer64) = true
  /\ m_doStartReducingLearningRate (Train.model outer64) = false
  /\ m_doStartReducingLearningRate (Train.model o') = true
  /\ Train.loopEpochs o' = true
  /\ m_learningRate (Train.model outer64) = Sample.ratio 1 10
  /\ m_learningRate (Train.model o') = Sample.ratio 1 20
  /\ m_learningRate (Train.model o') <> m_learningRate (Train.model outer64).
Proof. vm_compute. repeat split; discriminate. Qed.

(** C6 fails on the code.  The source announces a check "that
    log-likelihood does not diverge" and its diagnostic reads "infinite
    log-likelihood", but the test for an infinite value is commented out
    and [x != x] is left alone.  A log-probability of minus infinity,
    the logarithm of a probability that is zero, makes the accumulated
    value infinite, and the safety check does not fire. *)
Lemma infinite_log_probability_goes_unnoticed :
  let s := Train.Count 1 2 (S754_infinity true) training64 in
  Train.trainLogProbability s = S754_infinity true
  /\ B64.is_finite (Train.trainLogProbability s) = false
  /\ Train.Diverged s = false.
Proof. vm_compute. repeat split. Qed.

(** The check fires when the accumulated value is NaN, here after adding
    plus infinity and minus infinity. *)
Lemma nan_log_probability_is_noticed :
  let s := Train.Count 1 2 (S754_infinity true)
             (Train.Count 2 2 (S754_infinity false) training64) in
  Train.trainLogProbability s = S754_nan /\ Train.Diverged s = true.
Proof. vm_compute. repeat split. Qed.


(** Six calls of [UpdateFeatureLabelVector] in binary64 with gamma = 0.9,
    two of them with a label that is not found: both entries are in
    [0,1]. *)
Example feature_layer_binary64_sample :
  let m := @Sample.lm spec_float binary64 in
  let layer :=
    FeatureLayer
      (@Updates _ _ _ Sample.net [0; 1; 1; 5; 0; -1] m
         (@ResetFeatureLabelVector _ _ _ Sample.net m Sample.state)) in
  layer = [d_mul (d_of_int 1) (Sample.ratio 9 10);
           d_mul (d_mul (d_mul (d_of_int 1) (Sample.ratio 9 10)) (Sample.ratio 9 10))
                 (Sample.ratio 9 10)]
  /\ forallb (fun x => SFleb (d_of_int 0) x && SFleb x (d_of_int 1)) layer = true.
Proof. vm_compute. split; reflexivity. Qed.

(** In binary64 the decay stops at the smallest positive number: its
    product with 0.9 rounds back to itself. *)
Example smallest_positive_binary64_does_not_decay :
  let tiny := S754_finite false 1 (-1074) in
  B64.in_unit tiny = true
  /\ d_mul tiny (Sample.ratio 9 10) = tiny.
Proof. vm_compute. split; reflexivity. Qed.

(** Two shifts of the BPTT memory of depth 2: the last words enter the
    history at index 0 and move up by one. *)
Example shift_bptt_sample :
  let m := @Sample.lm spec_float binary64 in
  let shift := @ShiftBptt _ _ _ Sample.net 2 in
  firstn 3 (History (m_bpttVectors (shift 7 (shift 5 m)))) = [7; 5; -1].
Proof. vm_compute. reflexivity. Qed.

#[local] Existing Instance Sample.net.
#[local] Abbreviation lm64 := (@Sample.lm spec_float binary64).



End Binary64Runs.

Section ExactRuns.

#[local] Existing Instance Sample.net.
#[local] Existing Instance Sample.corpus.

#[local] Abbreviation training := (@Sample.training R exact_real).
#[local] Abbreviation testing := (@Sample.testing R exact_real).

(** A token with a word outside the vocabulary at position 2. *)
Lemma oov_tokens_are_not_counted_witness :
  let tok := Sample.token 2 (-1) 1%R 1 in
  tokenWord tok < 0
  /\ Test.uniqueWordCounter (Test.OneToken tok testing) = 4
  /\ Test.numUnk (Test.OneToken tok testing) = 2
  /\ Train.uniqueWordCounter (Train.locals (Train.OneToken 2 tok training)) = 4.
Proof.
  cbv zeta.
  destruct (oov_tokens_are_not_counted 2 (Sample.token 2 (-1) 1%R 1) training testing)
    as [(Hu & _ & _ & _ & Hn) Htrain].
  - left. simpl. lia.
  - split; [simpl; lia |]. split; [exact Hu |]. split; [exact Hn |].
    destruct Htrain as (Htu & _); [simpl; lia | exact Htu].
Defined.

(** Against C2: in [TrainRnnModel] a token with the unknown word, at a
    position not yet in the table, adds one to [uniqueWordCounter] and
    its log-probability, log10(1 * 1/4), to the accumulated value; and a
    token with a negative word index changes no variable, so that no
    tally of such tokens is kept. *)
Lemma unknown_word_is_counted_in_training :
  let tok := Sample.token 1 1 1%R 0 in
  let s' := Train.locals (Train.OneToken 2 tok training) in
  tokenWord tok = 1
  /\ Train.uniqueWordCounter training = 4
  /\ Train.uniqueWordCounter s' = 5
  /\ Train.trainLogProbability s' <> Train.trainLogProbability training
  /\ Train.Count 2 (-1) 0%R training = training.
Proof.
  cbv zeta.
  destruct (Train_OneToken_Counted 2 (Sample.token 1 1 1%R 0) training)
    as (El & Eu & _).
  split; [reflexivity |]. split; [reflexivity |].
  split; [rewrite Eu; vm_compute; reflexivity |].
  split; [| reflexivity].
  rewrite El. unfold Train.Counted. cbv zeta.
  match goal with
  | |- Train.trainLogProbability (Train.Count ?tn ?w ?lp ?s) <> _ =>
      destruct (Train_Count_first tn w lp s) as (_ & Hl & _);
        [simpl; lia | vm_compute; reflexivity | rewrite Hl]
  end.
  change (IZR (-3) + Exact.log10 (1 * (1 / 4)) <> IZR (-3))%R.
  unfold Exact.log10.
  assert (Hln : (ln (1 * (1 / 4)) <> 0)%R) by (apply ln_neq_0; lra).
  pose proof ln_10_neq_0 as H10.
  intros Heq.
  assert (Hz : (ln (1 * (1 / 4)) / ln 10 = 0)%R) by lra.
  apply Hln.
  replace (ln (1 * (1 / 4)))%R with (ln (1 * (1 / 4)) / ln 10 * ln 10)%R
    by (field; exact H10).
  rewrite Hz. lra.
Qed.

(** A position that is already in the table, visited again. *)
Lemma Test_revisit_changes_nothing_witness :
  let tok := Sample.token 0 2 1%R 1 in
  Test.logProbSentence testing !! tokenNumber tok = Some (-1)%R
  /\ Test.logProbSentence (Test.OneToken tok testing) !! tokenNumber tok
     = Some (-1)%R
  /\ Test.uniqueWordCounter (Test.OneToken tok testing) = 4.
Proof.
  cbv zeta.
  assert (Hl : Test.logProbSentence testing !! tokenNumber (Sample.token 0 2 1%R 1)
               = Some (-1)%R) by (vm_compute; reflexivity).
  destruct (Test_revisit_changes_nothing (Sample.token 0 2 1%R 1) testing (-1)%R Hl)
    as (_ & Hs & _ & _ & Hu & _).
  split; [exact Hl |]. split; [exact Hs | exact Hu].
Defined.

(** The perplexity and the entropy of a log-probability of -1 over one
    word. *)
Lemma perplexity_is_two_to_the_entropy_witness :
  0 < 1 /\ Perplexity (-1)%R 1 = Rpower 2 (Entropy (-1)%R 1).
Proof.
  split; [lia |]. apply perplexity_is_two_to_the_entropy. lia.
Defined.

(** Against C7: for a log-probability of -1 over one word the perplexity
    is 10, and 10 to the power of the entropy, 1/log10(2), is not. *)
Lemma perplexity_is_not_ten_to_the_entropy :
  0 < 1
  /\ Perplexity (-1)%R 1 = 10%R
  /\ Perplexity (-1)%R 1 <> ExponentiateBase10 (Entropy (-1)%R 1).
Proof.
  split; [lia |].
  assert (Hp : Perplexity (-1)%R 1 = 10%R).
  { unfold Perplexity. simpl. unfold Exact.exp10.
    replace (- -1 / 1)%R with 1%R by lra. apply Rpower_1. lra. }
  split; [exact Hp |].
  rewrite Hp. unfold Entropy. simpl. unfold Exact.exp10, Exact.log10.
  intros Heq.
  rewrite <- (Rpower_1 10) in Heq at 1 by lra.
  unfold Rpower in Heq. apply exp_inv in Heq.
  pose proof ln_2_neq_0 as H2. pose proof ln_10_neq_0 as H10.
  assert (Hln : (ln 10 = ln 2)%R).
  { apply (Rmult_eq_reg_r (ln 10)); [| exact H10].
    transitivity (1 * ln 10 * ln 2)%R; [| lra].
    rewrite Heq. field. auto. }
  apply ln_inv in Hln; lra.
Qed.


(** In exact arithmetic too: with gamma = 1, which is in [0,1], the entry
    of label 0 is 1 after the call that finds the label, and remains 1
    after any number of calls without a label. *)
Example exact_gamma_one_never_decays :
  let m := @Sample.lm_gamma R exact_real 1%R in
  let state := Updates [0] m (ResetFeatureLabelVector m Sample.state) in
  (0 <= m_featureGammaCoeff (m_hyper m) <= 1)%R
  /\ FeatureLayer state !! 0%nat = Some 1%R
  /\ forall n, FeatureLayer (Updates (replicate n (-1)) m state) !! 0%nat = Some 1%R.
Proof.
  cbv zeta. split; [simpl; lra |].
  assert (H1 : FeatureLayer
                 (Updates [0] (@Sample.lm_gamma R exact_real 1%R)
                    (ResetFeatureLabelVector (Sample.lm_gamma 1%R) Sample.state))
               !! 0%nat = Some 1%R) by (vm_compute; reflexivity).
  split; [exact H1 |].
  intros n.
  rewrite (Updates_decay (replicate n (-1)) _ _ 0%nat 1%R).
  - simpl. rewrite pow1. f_equal. lra.
  - apply Forall_replicate. reflexivity.
  - vm_compute. lia.
  - exact H1.
Qed.

End ExactRuns.

Section VocabularyRuns.

#[local] Existing Instance Sample.net.
#[local] Existing Instance Sample.corpus.

(** The sample model with a class file requested. *)
Lemma class_file_aborts_vocabulary_witness :
  let m := @Sample.lm_class_file spec_float binary64 in
  m_usesClassFile (m_hyper m) = true
  /\ fst (fst (LearnVocabularyFromTrainFile m)) = false
  /\ m_vocabularyStorage (m_vocab (snd (fst (LearnVocabularyFromTrainFile m)))) = [].
Proof.
  cbv zeta.
  pose proof (class_file_aborts_vocabulary
                (@Sample.lm_class_file spec_float binary64) eq_refl) as Hc.
  destruct (LearnVocabularyFromTrainFile Sample.lm_class_file) as [[ok m'] evs].
  destruct Hc as (Hok & _ & Hst & _).
  split; [reflexivity |]. split; [exact Hok | exact Hst].
Defined.

(** Without a class file the end-of-sentence word gets index 0, the words
    of the corpus follow with their rounded counts, and the labels get
    their indices in the order of the corpus. *)
Example learn_vocabulary_sample :
  let '(ok, m', evs) := LearnVocabularyFromTrainFile (@Sample.lm spec_float binary64) in
  ok = true
  /\ m_vocabularyStorage (m_vocab m')
     = [ {| word := "</s>"; cn := 5; classIndex := 0 |};
         {| word := "<unk>"; cn := 2; classIndex := 0 |};
         {| word := "holmes"; cn := 3; classIndex := 0 |} ]
  /\ SearchWordInVocabulary "holmes" (m_vocab m') = 2
  /\ SearchLabelInVocabulary "nsubj" (m_vocab m') = 1
  /\ SearchLabelInVocabulary "dobj" (m_vocab m') = -1.
Proof. vm_compute. repeat split. Qed.

End VocabularyRuns.

(** * Further properties *)

(** ** The shift of the memory for BPTT *)

Section BpttFacts.
Context {D : Type} {W : Type}.
Context {dbl : Double D} {libm : LibM D} {rnn : @RnnLM D W}.

Lemma for_up_pair {A B} (f : nat -> A -> A) (g : nat -> B -> B) n :
  forall lo x y,
    for_up lo n (fun b '(x, y) => (f b x, g b y)) (x, y)
    = (for_up lo n f x, for_up lo n g y).
Proof. induction n as [|n IH]; intros lo x y; simpl; [reflexivity | apply IH]. Qed.

Lemma for_down_pair {A B} (body : nat -> A * B -> A * B)
    (F : nat -> A -> A) (G : nat -> B -> B) :
  (forall a x y, body a (x, y) = (F a x, G a y)) ->
  forall top x y,
    for_down top body (x, y) = (for_down top F x, for_down top G y).
Proof.
  intros Hb top. induction top as [|a IH]; intros x y; simpl; [reflexivity |].
  rewrite Hb. apply IH.
Qed.

(** One block copied on top of the next: the loop over [b]. *)
Lemma copy_block_lookup {A} (d : A) (n a : nat) (k : nat) :
  forall (lo : nat) (v : list A) (i : nat),
    (1 <= a)%nat -> (lo + k <= n)%nat -> ((a + 1) * n <= length v)%nat ->
    for_up lo k
      (fun b => copy_cell d (Z.of_nat a * Z.of_nat n + Z.of_nat b)
                  ((Z.of_nat a - 1) * Z.of_nat n + Z.of_nat b)) v !! i
    = if bool_decide (a * n + lo <= i < a * n + lo + k)%nat
      then v !! (i - n)%nat else v !! i.
Proof.
  induction k as [|k IH]; intros lo v i Ha Hlo Hlen; simpl.
  - rewrite bool_decide_eq_false_2 by lia. reflexivity.
  - assert (Hlen' : forall x, length (<[(a * n + lo)%nat := x]> v) = length v)
      by (intros; apply length_insert).
    unfold copy_cell at 2.
    replace (Z.of_nat a * Z.of_nat n + Z.of_nat lo) with (Z.of_nat (a * n + lo)) by lia.
    replace ((Z.of_nat a - 1) * Z.of_nat n + Z.of_nat lo)
      with (Z.of_nat ((a - 1) * n + lo)) by nia.
    rewrite put_nat, at_nat.
    rewrite IH by (rewrite ?length_insert; lia).
    destruct (decide (i = a * n + lo)%nat) as [-> | Hne].
    + rewrite bool_decide_eq_false_2 by lia.
      rewrite bool_decide_eq_true_2 by lia.
      rewrite list_lookup_insert_eq by nia.
      replace (a * n + lo - n)%nat with ((a - 1) * n + lo)%nat by nia.
      destruct (lookup_lt_is_Some_2 v ((a - 1) * n + lo)%nat) as [x Hx]; [nia |].
      now rewrite Hx.
    + destruct (bool_decide (a * n + S lo <= i < a * n + S lo + k)%nat) eqn:E.
      * apply bool_decide_eq_true in E.
        rewrite bool_decide_eq_true_2 by lia.
        rewrite list_lookup_insert_ne by nia. reflexivity.
      * apply bool_decide_eq_false in E.
        rewrite bool_decide_eq_false_2 by lia.
        rewrite list_lookup_insert_ne by lia. reflexivity.
Qed.

(** A loop that runs down over the blocks, each step copying one block
    on top of the next, moves all the blocks but the last up by one. *)
Lemma for_down_blocks {A} (n : nat) (body : nat -> list A -> list A) :
  (forall a v, (1 <= a)%nat -> ((a + 1) * n <= length v)%nat ->
     length (body a v) = length v
     /\ forall i, body a v !! i
          = if bool_decide (a * n <= i < (a + 1) * n)%nat
            then v !! (i - n)%nat else v !! i) ->
  forall top v i, ((top + 1) * n <= length v)%nat ->
    for_down top body v !! i
    = if bool_decide (n <= i < (top + 1) * n)%nat
      then v !! (i - n)%nat else v !! i.
Proof.
  intros Hb top. induction top as [|a IH]; intros v i Hlen; simpl.
  - rewrite bool_decide_eq_false_2 by lia. reflexivity.
  - destruct (Hb (S a) v) as [Hl Hi]; [lia | lia |].
    rewrite IH by (rewrite Hl; lia). rewrite !Hi.
    destruct (bool_decide (n <= i < (a + 1) * n)%nat) eqn:E1.
    + apply bool_decide_eq_true in E1.
      rewrite bool_decide_eq_false_2 by nia.
      rewrite bool_decide_eq_true_2 by nia. reflexivity.
    + apply bool_decide_eq_false in E1.
      destruct (bool_decide (S a * n <= i < (S a + 1) * n)%nat) eqn:E2.
      * apply bool_decide_eq_true in E2.
        rewrite bool_decide_eq_true_2 by nia. reflexivity.
      * apply bool_decide_eq_false in E2.
        rewrite bool_decide_eq_false_2 by nia. reflexivity.
Qed.

(** The same as a list: the first block stays, the blocks up to [top]
    hold what the blocks before them held, the rest stays. *)
Lemma shifted_blocks {A} (n top : nat) (v v' : list A) :
  ((top + 1) * n <= length v)%nat ->
  (forall i, v' !! i
     = if bool_decide (n <= i < (top + 1) * n)%nat
       then v !! (i - n)%nat else v !! i) ->
  v' = take n v ++ take (top * n) v ++ drop ((top + 1) * n) v.
Proof.
  intros Hlen Hv. apply list_eq. intros i. rewrite Hv.
  assert (L1 : length (take n v) = n) by (rewrite length_take; nia).
  assert (L2 : length (take (top * n) v) = (top * n)%nat) by (rewrite length_take; nia).
  destruct (decide (i < n)%nat) as [Hi | Hi].
  - rewrite bool_decide_eq_false_2 by lia.
    rewrite lookup_app_l by lia. now rewrite lookup_take_lt.
  - rewrite lookup_app_r by lia. rewrite L1.
    destruct (decide (i < (top + 1) * n)%nat) as [Hj | Hj].
    + rewrite bool_decide_eq_true_2 by lia.
      rewrite lookup_app_l by nia. now rewrite lookup_take_lt by nia.
    + rewrite bool_decide_eq_false_2 by lia.
      rewrite lookup_app_r by nia. rewrite L2, lookup_drop. f_equal. nia.
Qed.

Lemma copy_block_length {A} (d : A) (size : Z) (a : nat) (k : nat) :
  forall (lo : nat) (v : list A),
    length (for_up lo k
              (fun b => copy_cell d (Z.of_nat a * size + Z.of_nat b)
                          ((Z.of_nat a - 1) * size + Z.of_nat b)) v)
    = length v.
Proof.
  induction k as [|k IH]; intros lo v; simpl; [reflexivity |].
  rewrite IH. unfold copy_cell, put. destruct (_ <? 0); [reflexivity |].
  apply length_insert.
Qed.

(** The two nested loops of the shift, on a vector of blocks of [size]
    entries. *)
Lemma shift_blocks {A} (d : A) (size : Z) (top : nat) (v : list A) :
  let n := Z.to_nat size in
  ((top + 1) * n <= length v)%nat ->
  for_down top
    (fun a =>
       for_up 0 n
         (fun b => copy_cell d (Z.of_nat a * size + Z.of_nat b)
                     ((Z.of_nat a - 1) * size + Z.of_nat b))) v
  = take n v ++ take (top * n) v ++ drop ((top + 1) * n) v.
Proof.
  intros n Hlen. apply shifted_blocks; [exact Hlen |]. intros i.
  apply for_down_blocks; [| exact Hlen].
  intros a w Ha Hw. split; [apply copy_block_length |]. intros j.
  destruct (decide (size <= 0)) as [Hs | Hs].
  - assert (Hn : n = 0%nat) by (unfold n; lia). rewrite Hn. simpl.
    rewrite bool_decide_eq_false_2 by lia. reflexivity.
  - assert (Hn : size = Z.of_nat n) by (unfold n; lia).
    clearbody n. subst size.
    rewrite (copy_block_lookup d n a n 0 w j) by lia.
    destruct (bool_decide (a * n + 0 <= j < a * n + 0 + n)%nat) eqn:E.
    + apply bool_decide_eq_true in E. rewrite bool_decide_eq_true_2 by lia. reflexivity.
    + apply bool_decide_eq_false in E. rewrite bool_decide_eq_false_2 by lia. reflexivity.
Qed.

(** The loop over the history, whose blocks are single entries. *)
Lemma shift_history (top : nat) (h : list Z) (lastWord : Z) :
  (top < length h)%nat ->
  put (for_down top (fun a => copy_cell 0 (Z.of_nat a) (Z.of_nat a - 1)) h) 0 lastWord
  = lastWord :: take top h ++ drop (S top) h.
Proof.
  intros Hlen.
  assert (E : for_down top (fun a => copy_cell 0 (Z.of_nat a) (Z.of_nat a - 1)) h
              = take 1 h ++ take (top * 1) h ++ drop ((top + 1) * 1) h).
  { apply shifted_blocks; [lia |]. intros i.
    apply for_down_blocks; [| lia].
    intros a w Ha Hw. split.
    - unfold copy_cell, put. destruct (_ <? 0); [reflexivity | apply length_insert].
    - intros j. unfold copy_cell.
      replace (Z.of_nat a - 1) with (Z.of_nat (a - 1)) by lia.
      rewrite put_nat, at_nat.
      destruct (decide (j = a)) as [-> | Hne].
      + rewrite bool_decide_eq_true_2 by lia.
        rewrite list_lookup_insert_eq by lia.
        destruct (lookup_lt_is_Some_2 w (a - 1)%nat) as [x Hx]; [lia |].
        rewrite Hx. reflexivity.
      + rewrite bool_decide_eq_false_2 by lia.
        now rewrite list_lookup_insert_ne by lia. }
  rewrite E. unfold put. simpl (0 <? 0). cbn [Z.to_nat].
  destruct h as [|x h]; [simpl in Hlen; lia |].
  simpl. rewrite Nat.mul_1_r. replace ((top + 1) * 1)%nat with (S top) by lia.
  reflexivity.
Qed.

(** The vectors after the shift, each by its own loops. *)
Lemma ShiftBptt_vectors (sizeFeature lastWord : Z) (m : @RnnTreeLM D W) :
  0 < m_numBpttSteps (m_hyper m) ->
  let top := Z.to_nat (m_numBpttSteps (m_hyper m) + m_bpttBlockSize (m_hyper m) - 1) in
  let bv := m_bpttVectors m in
  let blocks (size : Z) :=
    for_down top
      (fun a =>
         for_up 0 (Z.to_nat size)
           (fun b => copy_cell (d_of_int 0) (Z.of_nat a * size + Z.of_nat b)
                       ((Z.of_nat a - 1) * size + Z.of_nat b))) in
  m_bpttVectors (ShiftBptt sizeFeature lastWord m)
  = {| History :=
         put (for_down top (fun a => copy_cell 0 (Z.of_nat a) (Z.of_nat a - 1))
                (History bv)) 0 lastWord;
       BpttHiddenLayer := blocks (GetHiddenSize m) (BpttHiddenLayer bv);
       BpttHiddenGradient := blocks (GetHiddenSize m) (BpttHiddenGradient bv);
       BpttFeatureLayer := blocks sizeFeature (BpttFeatureLayer bv);
       BpttFeatureGradient := BpttFeatureGradient bv;
       WeightsInput2Hidden := WeightsInput2Hidden bv;
       WeightsRecurrent2Hidden := WeightsRecurrent2Hidden bv;
       WeightsFeature2Hidden := WeightsFeature2Hidden bv |}.
Proof.
  intros Hs top bv blocks. unfold ShiftBptt.
  apply Z.ltb_lt in Hs. rewrite Hs. fold top. fold bv.
  rewrite (for_down_pair _
             (fun a => for_up 0 (Z.to_nat (GetHiddenSize m))
                (fun b => copy_cell (d_of_int 0)
                   (Z.of_nat a * GetHiddenSize m + Z.of_nat b)
                   ((Z.of_nat a - 1) * GetHiddenSize m + Z.of_nat b)))
             (fun a => for_up 0 (Z.to_nat (GetHiddenSize m))
                (fun b => copy_cell (d_of_int 0)
                   (Z.of_nat a * GetHiddenSize m + Z.of_nat b)
                   ((Z.of_nat a - 1) * GetHiddenSize m + Z.of_nat b)))).
  - reflexivity.
  - intros a x y.
    apply (for_up_pair
             (fun b => copy_cell (d_of_int 0)
                (Z.of_nat a * GetHiddenSize m + Z.of_nat b)
                ((Z.of_nat a - 1) * GetHiddenSize m + Z.of_nat b))
             (fun b => copy_cell (d_of_int 0)
                (Z.of_nat a * GetHiddenSize m + Z.of_nat b)
                ((Z.of_nat a - 1) * GetHiddenSize m + Z.of_nat b))).
Qed.

Lemma ShiftBptt_hyper sf lw (m : @RnnTreeLM D W) : m_hyper (ShiftBptt sf lw m) = m_hyper m.
Proof.
  unfold ShiftBptt. destruct (0 <? _); [| reflexivity].
  destruct (for_down _ _ _). reflexivity.
Qed.

Lemma ShiftBptt_history (sizeFeature lastWord : Z) (m : @RnnTreeLM D W) :
  0 < m_numBpttSteps (m_hyper m) ->
  let top := Z.to_nat (m_numBpttSteps (m_hyper m) + m_bpttBlockSize (m_hyper m) - 1) in
  let history := History (m_bpttVectors m) in
  (top < length history)%nat ->
  History (m_bpttVectors (ShiftBptt sizeFeature lastWord m))
  = lastWord :: take top history ++ drop (S top) history.
Proof.
  intros Hs top history Hlen.
  rewrite (ShiftBptt_vectors sizeFeature lastWord m Hs). cbn [History].
  now apply shift_history.
Qed.

(** X1.  With [m_numBpttSteps > 0] and a history vector longer than
    [top = m_numBpttSteps + m_bpttBlockSize - 1], the shift of
    [TrainRnnModel] puts [lastWord] at index 0, moves the entries at 0 to
    [top - 1] up by one, drops the entry that was at [top], and leaves
    the entries above [top] as they are. *)
Theorem ShiftBptt_moves_history_up (sizeFeature lastWord : Z) (m : @RnnTreeLM D W) :
  0 < m_numBpttSteps (m_hyper m) ->
  let top := Z.to_nat (m_numBpttSteps (m_hyper m) + m_bpttBlockSize (m_hyper m) - 1) in
  let history := History (m_bpttVectors m) in
  (top < length history)%nat ->
  History (m_bpttVectors (ShiftBptt sizeFeature lastWord m))
  = lastWord :: take top history ++ drop (S top) history.
Proof.
  intros Hs top history Hlen. now apply ShiftBptt_history.
Qed.

(** X2.  After any number of shifts in a row the first [top + 1]
    entries of the history are the last words shifted in, the most
    recent first, followed by the entries that were there at the start;
    the entries above [top] never change. *)
Theorem Shifts_keep_the_last_words (sizeFeature : Z) (words : list Z) (m : @RnnTreeLM D W) :
  0 < m_numBpttSteps (m_hyper m) ->
  let top := Z.to_nat (m_numBpttSteps (m_hyper m) + m_bpttBlockSize (m_hyper m) - 1) in
  let history := History (m_bpttVectors m) in
  (top < length history)%nat ->
  History (m_bpttVectors (Shifts sizeFeature words m))
  = take (S top) (rev words ++ history) ++ drop (S top) history.
Proof.
  intros Hs top history Hlen. unfold Shifts.
  induction words as [|w words IH] using rev_ind.
  - simpl. unfold history. rewrite take_drop. reflexivity.
  - rewrite fold_left_app. simpl.
    set (m' := fold_left _ words m) in *.
    assert (Hh : m_hyper m' = m_hyper m).
    { unfold m'. clear. induction words as [|x l IHl] using rev_ind; [reflexivity |].
      rewrite fold_left_app. simpl. now rewrite ShiftBptt_hyper. }
    rewrite ShiftBptt_history; rewrite ?Hh; fold top; try exact Hs.
    + rewrite IH. rewrite rev_app_distr. simpl.
      assert (Hl : length (take (S top) (rev words ++ history)) = S top).
      { rewrite length_take, length_app. fold history in Hlen. lia. }
      rewrite take_app_le by lia. rewrite take_take.
      replace (top `min` S top)%nat with top by lia.
      rewrite drop_app_length' by (symmetry; exact Hl). reflexivity.
    + rewrite IH. rewrite length_app, length_take, length_app, length_drop.
      fold history in Hlen. lia.
Qed.

(** X3.  The hidden layers and the hidden gradients of the BPTT memory
    are blocks of [GetHiddenSize()] entries.  With room for [top + 1]
    blocks, the shift leaves block 0 as it is, gives the blocks 1 to
    [top] what the blocks 0 to [top - 1] held, and leaves everything
    above block [top] as it is. *)
Theorem ShiftBptt_moves_hidden_blocks_up (sizeFeature lastWord : Z) (m : @RnnTreeLM D W) :
  0 < m_numBpttSteps (m_hyper m) ->
  let top := Z.to_nat (m_numBpttSteps (m_hyper m) + m_bpttBlockSize (m_hyper m) - 1) in
  let n := Z.to_nat (GetHiddenSize m) in
  let layer := BpttHiddenLayer (m_bpttVectors m) in
  let gradient := BpttHiddenGradient (m_bpttVectors m) in
  ((top + 1) * n <= length layer)%nat ->
  ((top + 1) * n <= length gradient)%nat ->
  BpttHiddenLayer (m_bpttVectors (ShiftBptt sizeFeature lastWord m))
  = take n layer ++ take (top * n) layer ++ drop ((top + 1) * n) layer
  /\ BpttHiddenGradient (m_bpttVectors (ShiftBptt sizeFeature lastWord m))
     = take n gradient ++ take (top * n) gradient ++ drop ((top + 1) * n) gradient.
Proof.
  intros Hs top n layer gradient Hl Hg.
  rewrite (ShiftBptt_vectors sizeFeature lastWord m Hs).
  cbn [BpttHiddenLayer BpttHiddenGradient].
  split; now apply shift_blocks.
Qed.

(** X4.  The same for the feature layers of the BPTT memory, in blocks of
    [sizeFeature] entries; the feature gradients are not shifted. *)
Theorem ShiftBptt_moves_feature_blocks_up (sizeFeature lastWord : Z) (m : @RnnTreeLM D W) :
  0 < m_numBpttSteps (m_hyper m) ->
  let top := Z.to_nat (m_numBpttSteps (m_hyper m) + m_bpttBlockSize (m_hyper m) - 1) in
  let n := Z.to_nat sizeFeature in
  let layer := BpttFeatureLayer (m_bpttVectors m) in
  ((top + 1) * n <= length layer)%nat ->
  BpttFeatureLayer (m_bpttVectors (ShiftBptt sizeFeature lastWord m))
  = take n layer ++ take (top * n) layer ++ drop ((top + 1) * n) layer
  /\ BpttFeatureGradient (m_bpttVectors (ShiftBptt sizeFeature lastWord m))
     = BpttFeatureGradient (m_bpttVectors m).
Proof.
  intros Hs top n layer Hl.
  rewrite (ShiftBptt_vectors sizeFeature lastWord m Hs).
  cbn [BpttFeatureLayer BpttFeatureGradient].
  split; [now apply shift_blocks | reflexivity].
Qed.

(** X5.  The vectors that the constructor of [RnnBptt] allocates, for
    [numBpttSteps > 0] and sizes that are not negative, are large enough
    for every index of the shift of [TrainRnnModel]: the history has
    [top + 11] entries, all -1, the hidden vectors [top + 2] blocks and
    the feature layer [top + 3] blocks, where the shift touches the
    indices up to [top] and the blocks up to [top]. *)
Theorem RnnBptt_new_leaves_room_for_the_shift
    (sizeVocabulary sizeHidden sizeFeature numBpttSteps bpttBlockSize : Z) :
  0 < numBpttSteps -> 0 <= bpttBlockSize -> 0 <= sizeHidden -> 0 <= sizeFeature ->
  let bv := @RnnBptt_new D dbl sizeVocabulary sizeHidden sizeFeature numBpttSteps
              bpttBlockSize in
  let top := Z.to_nat (numBpttSteps + bpttBlockSize - 1) in
  History bv = replicate (top + 11) (-1)
  /\ (top < length (History bv))%nat
  /\ length (BpttHiddenLayer bv) = ((top + 2) * Z.to_nat sizeHidden)%nat
  /\ length (BpttHiddenGradient bv) = ((top + 2) * Z.to_nat sizeHidden)%nat
  /\ length (BpttFeatureLayer bv) = ((top + 3) * Z.to_nat sizeFeature)%nat
  /\ ((top + 1) * Z.to_nat sizeHidden <= length (BpttHiddenLayer bv))%nat
  /\ ((top + 1) * Z.to_nat sizeHidden <= length (BpttHiddenGradient bv))%nat
  /\ ((top + 1) * Z.to_nat sizeFeature <= length (BpttFeatureLayer bv))%nat.
Proof.
  intros Hs Hb Hh Hf bv top.
  assert (E1 : Z.to_nat (numBpttSteps + bpttBlockSize + 10) = (top + 11)%nat)
    by (unfold top; lia).
  assert (E2 : Z.to_nat ((numBpttSteps + bpttBlockSize + 1) * sizeHidden)
               = ((top + 2) * Z.to_nat sizeHidden)%nat) by (unfold top; nia).
  assert (E3 : Z.to_nat ((numBpttSteps + bpttBlockSize + 2) * sizeFeature)
               = ((top + 3) * Z.to_nat sizeFeature)%nat) by (unfold top; nia).
  unfold bv, RnnBptt_new, assign. cbn [History BpttHiddenLayer BpttHiddenGradient
    BpttFeatureLayer]. rewrite !length_replicate, E1, E2, E3.
  repeat split; try reflexivity; lia.
Qed.

End BpttFacts.

(** ** The constructor of [RnnState], and the feature-label vector again *)

Section StateFacts.
Context {D : Type} {dbl : Double D}.

(** X6.  For sizes that are not negative the constructor of [RnnState]
    builds a state whose getters return the sizes given, with an output
    layer of [sizeVocabulary + sizeClasses] units, each gradient as long
    as its layer, a word history of [c_maxNGramOrder] zeros and all
    activations zero; [sizeDirectConnection] plays no part. *)
Theorem RnnState_new_sizes
    (sizeVocabulary sizeHidden sizeFeature sizeClasses sizeCompress
       sizeDirectConnection orderDirectConnection : Z) :
  0 <= sizeVocabulary -> 0 <= sizeHidden -> 0 <= sizeFeature ->
  0 <= sizeClasses -> 0 <= sizeCompress ->
  let s := @RnnState_new D dbl sizeVocabulary sizeHidden sizeFeature sizeClasses
             sizeCompress sizeDirectConnection orderDirectConnection in
  State_GetInputSize s = sizeVocabulary
  /\ State_GetHiddenSize s = sizeHidden
  /\ State_GetCompressSize s = sizeCompress
  /\ State_GetFeatureSize s = sizeFeature
  /\ State_GetOutputSize s = sizeVocabulary + sizeClasses
  /\ State_GetOrderDirectConnection s = orderDirectConnection
  /\ Z.of_nat (length (RecurrentLayer s)) = sizeHidden
  /\ length (InputGradient s) = length (InputLayer s)
  /\ length (FeatureGradient s) = length (FeatureLayer s)
  /\ length (RecurrentGradient s) = length (RecurrentLayer s)
  /\ length (HiddenGradient s) = length (HiddenLayer s)
  /\ length (CompressGradient s) = length (CompressLayer s)
  /\ length (OutputGradient s) = length (OutputLayer s)
  /\ WordHistory s = replicate 20 0
  /\ Forall (fun x => x = d_of_int 0)
       (InputLayer s ++ FeatureLayer s ++ RecurrentLayer s ++ HiddenLayer s
        ++ CompressLayer s ++ OutputLayer s).
Proof.
  intros Hv Hh Hf Hc Hp s.
  unfold s, RnnState_new, State_GetInputSize, State_GetHiddenSize,
    State_GetCompressSize, State_GetFeatureSize, State_GetOutputSize,
    State_GetOrderDirectConnection, assign.
  cbn [InputLayer FeatureLayer RecurrentLayer HiddenLayer CompressLayer OutputLayer
       InputGradient FeatureGradient RecurrentGradient HiddenGradient
       CompressGradient OutputGradient WordHistory m_orderDirectConnection].
  rewrite !length_replicate.
  repeat split; try lia; try reflexivity.
  rewrite !Forall_app. repeat split; apply Forall_replicate; reflexivity.
Qed.
End StateFacts.

Section FeatureRecency.
Context {D : Type} {W : Type}.
Context {dbl : Double D} {rnn : @RnnLM D W}.

Lemma Updates_cons l labels (m : @RnnTreeLM D W) state :
  Updates (l :: labels) m state = Updates labels m (UpdateFeatureLabelVector l m state).
Proof. reflexivity. Qed.

Lemma Updates_app l1 l2 (m : @RnnTreeLM D W) state :
  Updates (l1 ++ l2) m state = Updates l2 m (Updates l1 m state).
Proof. unfold Updates. apply fold_left_app. Qed.

Lemma Updates_keep_length (labels : list Z) (m : @RnnTreeLM D W) (state : @RnnState D) :
  length (FeatureLayer (Updates labels m state)) = length (FeatureLayer state).
Proof.
  revert state. induction labels as [|l labels IH]; intros state; [reflexivity |].
  rewrite Updates_cons, IH. apply Update_length.
Qed.

Lemma Reset_length (m : @RnnTreeLM D W) (state : @RnnState D) :
  length (FeatureLayer (ResetFeatureLabelVector m state)) = Z.to_nat (GetFeatureSize m).
Proof. unfold ResetFeatureLabelVector, assign. simpl. apply length_replicate. Qed.

(** Calls with other labels multiply the entry of label [i] by gamma,
    once per call. *)
Lemma Updates_other_labels (labels : list Z) (m : @RnnTreeLM D W)
    (state : @RnnState D) (i : nat) (x : D) :
  Z.of_nat i ∉ labels ->
  (i < Z.to_nat (GetFeatureSize m))%nat ->
  FeatureLayer state !! i = Some x ->
  FeatureLayer (Updates labels m state) !! i
  = Some (Nat.iter (length labels)
            (fun y => d_mul y (m_featureGammaCoeff (m_hyper m))) x).
Proof.
  intros Hn Hi. revert state x.
  induction labels as [|l labels IH]; intros state x Hx; [exact Hx |].
  apply not_elem_of_cons in Hn as [Hl Hn].
  rewrite Updates_cons. cbn [length]. rewrite Nat.iter_succ_r.
  apply (IH Hn). rewrite Update_lookup, Hx.
  destruct (found m l) eqn:Hf; simpl.
  - unfold found in Hf. apply andb_true_iff in Hf as [H0 _]. apply Z.leb_le in H0.
    rewrite bool_decide_eq_false_2 by lia.
    now rewrite bool_decide_eq_true_2 by exact Hi.
  - now rewrite bool_decide_eq_true_2 by exact Hi.
Qed.

(** X7.  After a reset and any calls of [UpdateFeatureLabelVector], the
    entry of a label [i] below the feature size records the last call
    that had [i] as its label: it is 1 multiplied by gamma once for each
    call since then, and 0 multiplied by gamma once for each call when
    no call had that label.  The other labels of the calls play no
    part. *)
Theorem feature_entry_records_the_last_call_with_its_label
    (m : @RnnTreeLM D W) (state0 : @RnnState D) (i : nat) :
  (i < Z.to_nat (GetFeatureSize m))%nat ->
  let decay := fun y => d_mul y (m_featureGammaCoeff (m_hyper m)) in
  let entry labels :=
    FeatureLayer (Updates labels m (ResetFeatureLabelVector m state0)) !! i in
  (forall labels,
     Z.of_nat i ∉ labels ->
     entry labels = Some (Nat.iter (length labels) decay (d_of_int 0)))
  /\ (forall before after,
        Z.of_nat i ∉ after ->
        entry (before ++ Z.of_nat i :: after)
        = Some (Nat.iter (length after) decay (d_of_int 1))).
Proof.
  intros Hi decay entry. split.
  - intros labels Hn. unfold entry.
    apply Updates_other_labels; [exact Hn | exact Hi |].
    unfold ResetFeatureLabelVector, assign. simpl.
    now apply lookup_replicate_2.
  - intros before after Hn. unfold entry.
    rewrite Updates_app, Updates_cons.
    apply Updates_other_labels; [exact Hn | exact Hi |].
    rewrite Update_lookup.
    assert (Hf : found m (Z.of_nat i) = true).
    { unfold found. apply andb_true_iff. split; [apply Z.leb_le | apply Z.ltb_lt]; lia. }
    rewrite Hf, Nat2Z.id. rewrite bool_decide_eq_true_2 by reflexivity. simpl.
    destruct (lookup_lt_is_Some_2
                (FeatureLayer (Updates before m (ResetFeatureLabelVector m state0))) i)
      as [x Hx].
    { rewrite Updates_keep_length, Reset_length. exact Hi. }
    now rewrite Hx.
Qed.

End FeatureRecency.

Section FeatureBinary64.
Context {W : Type} {rnn : @RnnLM spec_float W}.

(** X8.  In binary64, with its rounding to nearest: starting from the
    zeroed feature layer, with gamma a binary64 number in [0,1], every
    sequence of calls of [UpdateFeatureLabelVector] keeps the layer at
    its size and every entry a binary64 number in [0,1]. *)
Theorem binary64_feature_layer_stays_in_unit_interval
    (m : @RnnTreeLM spec_float W) (state0 : @RnnState spec_float) (labels : list Z) :
  B64.in_unit (m_featureGammaCoeff (m_hyper m)) = true ->
  let layer := FeatureLayer (Updates labels m (ResetFeatureLabelVector m state0)) in
  length layer = Z.to_nat (GetFeatureSize m)
  /\ Forall (fun x => B64.in_unit x = true) layer.
Proof.
  intros Hg layer. split.
  - unfold layer. rewrite Updates_keep_length. apply Reset_length.
  - now apply B64_Updates_unit.
Qed.
End FeatureBinary64.

(** ** The vocabulary that [LearnVocabularyFromTrainFile] builds *)

Section LabelFacts.
Context {D : Type} {W : Type}.
Context {dbl : Double D} {libm : LibM D} {rnn : @RnnLM D W} {corpus : @CorpusOps D}.

Lemma Search_label_absent l (vc : Vocab) :
  m_mapLabel2Index vc !! l = None -> SearchLabelInVocabulary l vc = -1.
Proof. unfold SearchLabelInVocabulary. now intros ->. Qed.

Lemma Search_label_present l k (vc : Vocab) :
  m_mapLabel2Index vc !! l = Some k -> SearchLabelInVocabulary l vc = k.
Proof. unfold SearchLabelInVocabulary. now intros ->. Qed.

(** The words are left alone by the loop over the labels. *)
Lemma CopyLabels_words ls : forall index (vc : Vocab),
  m_vocabularyStorage (CopyLabels ls index vc) = m_vocabularyStorage vc
  /\ m_mapWord2Index (CopyLabels ls index vc) = m_mapWord2Index vc
  /\ m_mapIndex2Word (CopyLabels ls index vc) = m_mapIndex2Word vc.
Proof.
  induction ls as [|l ls IH]; intros index vc; simpl; [auto |].
  destruct (_ =? -1); [| apply IH].
  destruct (IH (index + 1)
              (set_mapLabel2Index (<[l := index]> (m_mapLabel2Index vc)) vc))
    as (E1 & E2 & E3).
  rewrite E1, E2, E3. auto.
Qed.

Lemma CopyLabels_Numbered ls : forall index (vc : Vocab),
  Numbered index (m_mapLabel2Index vc) ->
  let M' := m_mapLabel2Index (CopyLabels ls index vc) in
  Numbered (Z.of_nat (size M')) M'
  /\ m_mapLabel2Index vc ⊆ M'
  /\ (forall l, is_Some (M' !! l) <-> is_Some (m_mapLabel2Index vc !! l) \/ l ∈ ls)
  /\ (size M' <= size (m_mapLabel2Index vc) + length ls)%nat.
Proof.
  induction ls as [|l ls IH]; intros index vc HN; cbn [CopyLabels].
  - cbv zeta. split; [| split; [reflexivity | split]].
    + destruct HN as (H1 & H2 & H3). rewrite H3. exact (conj H1 (conj H2 H3)).
    + intros l. split; [now left |].
      intros [Hs | Hs]; [exact Hs | now apply elem_of_nil in Hs].
    + cbn [length]. lia.
  - destruct (m_mapLabel2Index vc !! l) as [k|] eqn:El.
    + rewrite (Search_label_present l k vc El).
      destruct HN as (H1 & H2 & H3).
      destruct (Z.eqb_spec k (-1)) as [-> | Hk]; [specialize (H1 _ _ El); lia |].
      destruct (IH index vc (conj H1 (conj H2 H3))) as (N & S1 & S2 & S3).
      cbv zeta. split; [exact N |]. split; [exact S1 |]. split.
      * intros l'. rewrite S2. rewrite elem_of_cons. split; [tauto |].
        intros [H | [-> | H]]; [tauto | left; now rewrite El | tauto].
      * cbn [length]. lia.
    + rewrite (Search_label_absent l vc El). cbn [Z.eqb Pos.eqb].
      destruct HN as (H1 & H2 & H3).
      set (vc1 := set_mapLabel2Index (<[l := index]> (m_mapLabel2Index vc)) vc).
      assert (HN1 : Numbered (index + 1) (m_mapLabel2Index vc1)).
      { unfold vc1. cbn [set_mapLabel2Index m_mapLabel2Index].
        split; [| split].
        - intros l0 k A.
          destruct (decide (l0 = l)) as [-> | Hne].
          + rewrite lookup_insert_eq in A. inversion A; subst. lia.
          + rewrite lookup_insert_ne in A by congruence. specialize (H1 _ _ A). lia.
        - intros l1 l2 k A B.
          destruct (decide (l1 = l)) as [-> | N1]; destruct (decide (l2 = l)) as [-> | N2];
            try reflexivity.
          + rewrite lookup_insert_eq in A. rewrite lookup_insert_ne in B by congruence.
            inversion A; subst. specialize (H1 _ _ B). lia.
          + rewrite lookup_insert_eq in B. rewrite lookup_insert_ne in A by congruence.
            inversion B; subst. specialize (H1 _ _ A). lia.
          + rewrite lookup_insert_ne in A, B by congruence. eapply H2; eassumption.
        - rewrite map_size_insert_None by exact El. rewrite Nat2Z.inj_succ, H3. lia. }
      destruct (IH (index + 1) vc1 HN1) as (N & S1 & S2 & S3).
      cbv zeta. split; [exact N |]. split; [| split].
      * etransitivity; [| exact S1]. unfold vc1. cbn. now apply insert_subseteq.
      * intros l'. rewrite S2. unfold vc1. cbn [set_mapLabel2Index m_mapLabel2Index].
        rewrite elem_of_cons. rewrite lookup_insert_is_Some. 
        destruct (decide (l = l')) as [-> | Hne]; [tauto |].
        split; [intros [[? | [_ ?]] | ?]; tauto | intros [? | [? | ?]]; try tauto; congruence].
      * assert (Hsz : size (m_mapLabel2Index vc1) = S (size (m_mapLabel2Index vc))).
        { unfold vc1. cbn [set_mapLabel2Index m_mapLabel2Index].
          now apply map_size_insert_None. }
        rewrite Hsz in S3. cbn [length]. lia.
Qed.

(** Labels that are all new and all different get the indices that
    follow [index], in order. *)
Lemma CopyLabels_in_order ls : forall index (vc : Vocab),
  0 <= index ->
  (forall l k, m_mapLabel2Index vc !! l = Some k -> k <> -1) ->
  NoDup ls ->
  (forall l, l ∈ ls -> m_mapLabel2Index vc !! l = None) ->
  (forall l k, m_mapLabel2Index vc !! l = Some k ->
     m_mapLabel2Index (CopyLabels ls index vc) !! l = Some k)
  /\ forall (k : nat) l, ls !! k = Some l ->
       m_mapLabel2Index (CopyLabels ls index vc) !! l = Some (index + Z.of_nat k).
Proof.
  induction ls as [|l ls IH]; intros index vc Hi Hv Hnd Hnew; cbn [CopyLabels].
  - split; [auto |]. intros k l H. discriminate.
  - apply NoDup_cons in Hnd as [Hl Hnd].
    rewrite (Search_label_absent l vc) by (apply Hnew; left).
    cbn [Z.eqb Pos.eqb].
    set (vc1 := set_mapLabel2Index (<[l := index]> (m_mapLabel2Index vc)) vc).
    destruct (IH (index + 1) vc1) as [Hkeep Hord]; try assumption; try lia.
    + unfold vc1. cbn. intros l' k H.
      destruct (decide (l' = l)) as [-> | Hne].
      * rewrite lookup_insert_eq in H. inversion H; subst. lia.
      * rewrite lookup_insert_ne in H by congruence. eapply Hv; eassumption.
    + unfold vc1. cbn. intros l' H'.
      rewrite lookup_insert_ne by (intros ->; contradiction).
      apply Hnew. now right.
    + split.
      * intros l' k H. apply Hkeep. unfold vc1. cbn.
        rewrite lookup_insert_ne; [exact H |].
        intros ->. rewrite Hnew in H by left. discriminate.
      * intros [|k] l' H.
        -- inversion H; subst. rewrite Z.add_0_r. apply Hkeep.
           unfold vc1. cbn. apply lookup_insert_eq.
        -- cbn in H. rewrite (Hord k l' H). f_equal. lia.
Qed.

(** *** The words *)

Lemma CopyWords_cons w ws k counts (vc : Vocab) :
  CopyWords (w :: ws) k counts vc
  = CopyWords ws (S k) counts (CopyWord w (at_ (d_of_int 0) counts (Z.of_nat k)) vc).
Proof.
  cbn [CopyWords]. unfold CopyWord.
  destruct (SearchWordInVocabulary w vc =? -1); [| reflexivity].
  destruct (AddWordToVocabulary w vc). reflexivity.
Qed.

Lemma alter_cn_word (f : Z) (i j : nat) (st : list VocabWord) :
  word <$> (alter (set_cn f) i st !! j) = word <$> (st !! j).
Proof.
  destruct (decide (i = j)) as [-> | Hne].
  - rewrite list_lookup_alter_eq. now destruct (st !! j).
  - now rewrite list_lookup_alter_ne.
Qed.

(** A word that is in the vocabulary: its count is set. *)
Lemma CopyWord_known w count (vc : Vocab) i :
  Indexed vc -> m_mapWord2Index vc !! w = Some i ->
  CopyWord w count vc
  = set_vocabularyStorage
      (alter (set_cn (d_round count)) (Z.to_nat i) (m_vocabularyStorage vc)) vc.
Proof.
  intros (I1 & I2 & I3) Hw. unfold CopyWord, SearchWordInVocabulary. rewrite Hw.
  destruct (I2 _ _ Hw) as [H0 _].
  destruct (Z.eqb_spec i (-1)) as [-> | _]; [lia |].
  cbn [set_vocabularyStorage set_mapWord2Index set_mapIndex2Word m_mapWord2Index
       m_mapIndex2Word m_vocabularyStorage m_mapLabel2Index].
  rewrite (insert_id (m_mapWord2Index vc) w i Hw).
  rewrite (insert_id (m_mapIndex2Word vc) i w) by (now apply I1).
  reflexivity.
Qed.

(** A word that is not: it is appended, with its count. *)
Lemma CopyWord_new w count (vc : Vocab) :
  m_mapWord2Index vc !! w = None ->
  let i := Z.of_nat (length (m_vocabularyStorage vc)) in
  CopyWord w count vc
  = {| m_vocabularyStorage :=
         m_vocabularyStorage vc
         ++ [{| word := w; cn := d_round count; classIndex := 0 |}];
       m_mapWord2Index := <[w := i]> (m_mapWord2Index vc);
       m_mapIndex2Word := <[i := w]> (m_mapIndex2Word vc);
       m_mapLabel2Index := m_mapLabel2Index vc |}.
Proof.
  intros Hw i. unfold CopyWord, SearchWordInVocabulary, AddWordToVocabulary.
  rewrite Hw. cbn [Z.eqb Pos.eqb].
  cbn [set_vocabularyStorage set_mapWord2Index set_mapIndex2Word m_mapWord2Index
       m_mapIndex2Word m_vocabularyStorage m_mapLabel2Index].
  fold i. rewrite !insert_insert_eq. f_equal.
  unfold i. rewrite Nat2Z.id.
  rewrite alter_app_r_alt by lia. rewrite Nat.sub_diag. reflexivity.
Qed.

Lemma CopyWord_Indexed w count (vc : Vocab) :
  Indexed vc ->
  Indexed (CopyWord w count vc)
  /\ m_mapWord2Index vc ⊆ m_mapWord2Index (CopyWord w count vc)
  /\ is_Some (m_mapWord2Index (CopyWord w count vc) !! w)
  /\ m_mapLabel2Index (CopyWord w count vc) = m_mapLabel2Index vc.
Proof.
  intros HI. destruct (m_mapWord2Index vc !! w) as [i|] eqn:Hw.
  - rewrite (CopyWord_known w count vc i HI Hw).
    destruct HI as (I1 & I2 & I3). unfold Indexed.
    cbn [set_vocabularyStorage m_mapWord2Index m_mapIndex2Word m_vocabularyStorage
         m_mapLabel2Index].
    split; [| split; [reflexivity | split; [now rewrite Hw | reflexivity]]].
    split; [exact I1 | split].
    + intros w' i' H'. destruct (I2 _ _ H') as [H0 Hst]. split; [exact H0 |].
      now rewrite alter_cn_word.
    + intros j x Hx.
      destruct (decide (Z.to_nat i = j)) as [<- | Hne].
      * rewrite list_lookup_alter_eq in Hx.
        destruct (m_vocabularyStorage vc !! Z.to_nat i) as [y|] eqn:Hy; [| discriminate].
        inversion Hx; subst x. cbn [set_cn word]. now apply I3.
      * rewrite list_lookup_alter_ne in Hx by exact Hne. now apply I3.
  - rewrite (CopyWord_new w count vc Hw).
    destruct HI as (I1 & I2 & I3). unfold Indexed.
    cbn [m_mapWord2Index m_mapIndex2Word m_vocabularyStorage m_mapLabel2Index].
    set (n := length (m_vocabularyStorage vc)).
    assert (Hfresh : m_mapIndex2Word vc !! Z.of_nat n = None).
    { destruct (m_mapIndex2Word vc !! Z.of_nat n) as [w'|] eqn:E; [| reflexivity].
      apply I1 in E. destruct (I2 _ _ E) as [_ Hst]. rewrite Nat2Z.id in Hst.
      rewrite (proj2 (lookup_ge_None (m_vocabularyStorage vc) n)) in Hst by (unfold n; lia).
      discriminate. }
    split; [| split; [now apply insert_subseteq
                     | split; [rewrite lookup_insert_eq; eauto | reflexivity]]].
    split; [| split].
    + intros w' i'.
      destruct (decide (w' = w)) as [-> | Hne].
      * rewrite lookup_insert_eq. split.
        -- intros H. inversion H; subst. apply lookup_insert_eq.
        -- intros H. destruct (decide (i' = Z.of_nat n)) as [-> | Hi]; [reflexivity |].
           rewrite lookup_insert_ne in H by congruence.
           apply I1 in H. congruence.
      * rewrite lookup_insert_ne by congruence.
        destruct (decide (i' = Z.of_nat n)) as [-> | Hi].
        -- rewrite lookup_insert_eq. split.
           ++ intros H. apply I1 in H. congruence.
           ++ intros H. inversion H; subst. contradiction.
        -- rewrite lookup_insert_ne by congruence. apply I1.
    + intros w' i'.
      destruct (decide (w' = w)) as [-> | Hne].
      * rewrite lookup_insert_eq. intros H. inversion H; subst i'.
        split; [lia |]. rewrite Nat2Z.id. unfold n.
        rewrite lookup_app_r by lia. rewrite Nat.sub_diag. reflexivity.
      * rewrite lookup_insert_ne by congruence. intros H.
        destruct (I2 _ _ H) as [H0 Hst]. split; [exact H0 |].
        destruct (m_vocabularyStorage vc !! Z.to_nat i') as [y|] eqn:Hy; [| discriminate].
        rewrite lookup_app_l by (apply lookup_lt_Some in Hy; lia).
        rewrite Hy. exact Hst.
    + intros j x Hx.
      destruct (decide (j < n)%nat) as [Hj | Hj].
      * rewrite lookup_app_l in Hx by exact Hj.
        pose proof (I3 _ _ Hx) as Hm.
        rewrite lookup_insert_ne; [exact Hm |].
        intros E. rewrite <- E in Hm. congruence.
      * rewrite lookup_app_r in Hx by lia. fold n in Hx.
        destruct (j - n)%nat as [|d] eqn:Hd; [| destruct d; cbn in Hx; discriminate].
        inversion Hx; subst x. cbn [word].
        replace j with n by lia. apply lookup_insert_eq.
Qed.

Lemma CopyWords_Indexed ws : forall k counts (vc : Vocab),
  Indexed vc ->
  Indexed (CopyWords ws k counts vc)
  /\ m_mapWord2Index vc ⊆ m_mapWord2Index (CopyWords ws k counts vc)
  /\ (forall w, w ∈ ws -> is_Some (m_mapWord2Index (CopyWords ws k counts vc) !! w))
  /\ m_mapLabel2Index (CopyWords ws k counts vc) = m_mapLabel2Index vc.
Proof.
  induction ws as [|w ws IH]; intros k counts vc HI.
  - cbn [CopyWords]. split; [exact HI |]. split; [reflexivity |].
    split; [| reflexivity]. intros w Hw. now apply elem_of_nil in Hw.
  - rewrite CopyWords_cons.
    destruct (CopyWord_Indexed w (at_ (d_of_int 0) counts (Z.of_nat k)) vc HI)
      as (HI1 & Hsub & Hin & Hlab).
    destruct (IH (S k) counts _ HI1) as (HI2 & Hsub2 & Hin2 & Hlab2).
    split; [exact HI2 |]. split; [etransitivity; eassumption |].
    split; [| congruence].
    intros w' Hw'. apply elem_of_cons in Hw' as [-> | Hw']; [| now apply Hin2].
    destruct Hin as [i Hi]. exists i.
    eapply lookup_weaken; eassumption.
Qed.

(** A turn of the loop leaves the entries of the other words alone. *)
Lemma CopyWord_other w count (vc : Vocab) w' i' x :
  Indexed vc -> w' <> w ->
  m_mapWord2Index vc !! w' = Some i' ->
  m_vocabularyStorage vc !! Z.to_nat i' = Some x ->
  m_vocabularyStorage (CopyWord w count vc) !! Z.to_nat i' = Some x.
Proof.
  intros HI Hne Hw' Hx. destruct (m_mapWord2Index vc !! w) as [i|] eqn:Hw.
  - rewrite (CopyWord_known w count vc i HI Hw). cbn [set_vocabularyStorage m_vocabularyStorage].
    destruct HI as (I1 & I2 & I3).
    rewrite list_lookup_alter_ne; [exact Hx |].
    intros E. destruct (I2 _ _ Hw) as [H0 _]. destruct (I2 _ _ Hw') as [H0' _].
    assert (i = i') by lia. subst i'.
    apply I1 in Hw, Hw'. congruence.
  - rewrite (CopyWord_new w count vc Hw). cbn [m_vocabularyStorage].
    rewrite lookup_app_l by (apply lookup_lt_Some in Hx; exact Hx). exact Hx.
Qed.

(** The entry of the word of a turn after it: it holds the count. *)
Lemma CopyWord_count w count (vc : Vocab) :
  Indexed vc ->
  exists i x,
    m_mapWord2Index (CopyWord w count vc) !! w = Some i
    /\ m_vocabularyStorage (CopyWord w count vc) !! Z.to_nat i = Some x
    /\ word x = w /\ cn x = d_round count.
Proof.
  intros HI. destruct (m_mapWord2Index vc !! w) as [i|] eqn:Hw.
  - rewrite (CopyWord_known w count vc i HI Hw).
    cbn [set_vocabularyStorage m_vocabularyStorage m_mapWord2Index].
    destruct HI as (I1 & I2 & I3). destruct (I2 _ _ Hw) as [H0 Hst].
    destruct (m_vocabularyStorage vc !! Z.to_nat i) as [y|] eqn:Hy; [| discriminate].
    exists i, (set_cn (d_round count) y).
    split; [exact Hw |]. split; [| split; [| reflexivity]].
    + rewrite list_lookup_alter_eq, Hy. reflexivity.
    + cbn in Hst. now inversion Hst.
  - rewrite (CopyWord_new w count vc Hw). cbn [m_vocabularyStorage m_mapWord2Index].
    exists (Z.of_nat (length (m_vocabularyStorage vc))),
      {| word := w; cn := d_round count; classIndex := 0 |}.
    split; [apply lookup_insert_eq |]. split; [| split; reflexivity].
    rewrite Nat2Z.id, lookup_app_r by lia. now rewrite Nat.sub_diag.
Qed.

Lemma CopyWords_keeps ws : forall k counts (vc : Vocab) w i x,
  Indexed vc -> w ∉ ws ->
  m_mapWord2Index vc !! w = Some i ->
  m_vocabularyStorage vc !! Z.to_nat i = Some x ->
  m_mapWord2Index (CopyWords ws k counts vc) !! w = Some i
  /\ m_vocabularyStorage (CopyWords ws k counts vc) !! Z.to_nat i = Some x.
Proof.
  induction ws as [|w0 ws IH]; intros k counts vc w i x HI Hn Hw Hx.
  - now split.
  - rewrite CopyWords_cons. apply not_elem_of_cons in Hn as [Hne Hn].
    destruct (CopyWord_Indexed w0 (at_ (d_of_int 0) counts (Z.of_nat k)) vc HI)
      as (HI1 & Hsub & _ & _).
    apply IH; [exact HI1 | exact Hn | |].
    + eapply lookup_weaken; eassumption.
    + now apply (CopyWord_other w0 _ vc w i x).
Qed.

Lemma CopyWords_counts ws : forall k counts (vc : Vocab),
  Indexed vc -> NoDup ws ->
  forall (j : nat) w, ws !! j = Some w ->
  exists i x,
    m_mapWord2Index (CopyWords ws k counts vc) !! w = Some i
    /\ m_vocabularyStorage (CopyWords ws k counts vc) !! Z.to_nat i = Some x
    /\ word x = w
    /\ cn x = d_round (at_ (d_of_int 0) counts (Z.of_nat (k + j))).
Proof.
  induction ws as [|w0 ws IH]; intros k counts vc HI Hnd j w Hj; [discriminate |].
  rewrite CopyWords_cons. apply NoDup_cons in Hnd as [Hn0 Hnd].
  destruct (CopyWord_Indexed w0 (at_ (d_of_int 0) counts (Z.of_nat k)) vc HI)
    as (HI1 & _ & _ & _).
  destruct j as [|j].
  - inversion Hj; subst w0.
    destruct (CopyWord_count w (at_ (d_of_int 0) counts (Z.of_nat k)) vc HI)
      as (i & x & Hi & Hx & Hwx & Hcn).
    destruct (CopyWords_keeps ws (S k) counts _ w i x HI1 Hn0 Hi Hx) as [Hi' Hx'].
    exists i, x. rewrite Nat.add_0_r. auto.
  - cbn in Hj. destruct (IH (S k) counts _ HI1 Hnd j w Hj) as (i & x & Hi & Hx & Hwx & Hcn).
    exists i, x. replace (k + S j)%nat with (S k + j)%nat by lia. auto.
Qed.

(** The vocabulary that a successful call builds. *)
Lemma Learn_success (m : @RnnTreeLM D W) :
  m_usesClassFile (m_hyper m) = false ->
  let '(ok, m', evs) := LearnVocabularyFromTrainFile m in
  let train := m_corpusTrain m' in
  ok = true
  /\ m_vocab m'
     = CopyLabels (labelsReverse train) 0
         (CopyWords (vocabularyReverse train) 0 (wordCountsDiscounted train)
            {| m_vocabularyStorage := [{| word := "</s>"; cn := 0; classIndex := 0 |}];
               m_mapWord2Index := {["</s>" := 0]};
               m_mapIndex2Word := {[0 := "</s>"]};
               m_mapLabel2Index := ∅ |}).
Proof.
  intros Hc. unfold LearnVocabularyFromTrainFile.
  destruct (ReadVocabulary _ _) as [n cv].
  cbn [set_vocab set_corpusVocabulary set_numTrainWords set_corpusTrain m_hyper
       m_vocab m_corpusTrain m_corpusVocabulary].
  rewrite Hc. cbv zeta.
  cbn [set_vocab set_corpusValidTest m_corpusTrain m_vocab].
  split; reflexivity.
Qed.

Lemma EndOfSentenceOnly_Indexed : Indexed EndOfSentenceOnly.
Proof.
  unfold Indexed, EndOfSentenceOnly.
  cbn [m_vocabularyStorage m_mapWord2Index m_mapIndex2Word].
  split; [| split].
  - intros w i. rewrite !lookup_singleton_Some. split; intros [-> ->]; auto.
  - intros w i. rewrite lookup_singleton_Some. intros [<- <-]. split; [lia | reflexivity].
  - intros j x Hx. destruct j as [|j]; [| destruct j; discriminate].
    inversion Hx; subst x. cbn [word]. apply lookup_singleton_eq.
Qed.

Lemma Numbered_empty : Numbered 0 ∅.
Proof.
  split; [| split].
  - intros l k H. rewrite lookup_empty in H. discriminate.
  - intros l1 l2 k H. rewrite lookup_empty in H. discriminate.
  - reflexivity.
Qed.

Lemma Search_label_found l (vc : Vocab) :
  (forall l k, m_mapLabel2Index vc !! l = Some k -> 0 <= k) ->
  SearchLabelInVocabulary l vc <> -1 <-> is_Some (m_mapLabel2Index vc !! l).
Proof.
  intros Hk. unfold SearchLabelInVocabulary.
  destruct (m_mapLabel2Index vc !! l) as [k|] eqn:E.
  - specialize (Hk _ _ E). split; [eauto | lia].
  - split; [congruence | intros [? ?]; discriminate].
Qed.

(** X9.  After a call of [LearnVocabularyFromTrainFile] without a class
    file, [SearchLabelInVocabulary] finds a label exactly when the corpus
    has it in [labelsReverse]; the indices of the labels are the numbers
    from 0 to one less than the number of labels kept, and two labels
    never share an index. *)
Theorem learned_labels_are_numbered (m : @RnnTreeLM D W) :
  m_usesClassFile (m_hyper m) = false ->
  let '(ok, m', evs) := LearnVocabularyFromTrainFile m in
  let labels := labelsReverse (m_corpusTrain m') in
  let search l := SearchLabelInVocabulary l (m_vocab m') in
  let count := Z.of_nat (size (m_mapLabel2Index (m_vocab m'))) in
  ok = true
  /\ (forall l, search l <> -1 <-> l ∈ labels)
  /\ (forall l, l ∈ labels -> 0 <= search l < count)
  /\ (forall l1 l2, l1 ∈ labels -> search l1 = search l2 -> l1 = l2)
  /\ count <= Z.of_nat (length labels).
Proof.
  intros Hc. pose proof (Learn_success m Hc) as Hs.
  destruct (LearnVocabularyFromTrainFile m) as [[ok m'] evs].
  cbv zeta in Hs. destruct Hs as [Hok Hv]. cbv zeta.
  split; [exact Hok |].
  set (vc1 := CopyWords _ _ _ _) in Hv.
  assert (Hl1 : m_mapLabel2Index vc1 = ∅).
  { unfold vc1.
    destruct (CopyWords_Indexed (vocabularyReverse (m_corpusTrain m')) 0
                (wordCountsDiscounted (m_corpusTrain m')) _ EndOfSentenceOnly_Indexed)
      as (_ & _ & _ & E). exact E. }
  assert (HN : Numbered 0 (m_mapLabel2Index vc1)) by (rewrite Hl1; apply Numbered_empty).
  destruct (CopyLabels_Numbered (labelsReverse (m_corpusTrain m')) 0 vc1 HN)
    as ((N1 & N2 & N3) & _ & Hdom & Hsize).
  rewrite <- Hv in N1, N2, N3, Hdom, Hsize. rewrite Hl1 in Hdom, Hsize.
  assert (Hk : forall l k, m_mapLabel2Index (m_vocab m') !! l = Some k -> 0 <= k).
  { intros l k H. apply N1 in H. lia. }
  assert (Hin : forall l, is_Some (m_mapLabel2Index (m_vocab m') !! l)
                          <-> l ∈ labelsReverse (m_corpusTrain m')).
  { intros l. rewrite Hdom. rewrite lookup_empty. split; [| tauto].
    intros [[? ?] | ?]; [discriminate | assumption]. }
  split; [| split; [| split]].
  - intros l. rewrite (Search_label_found l _ Hk). apply Hin.
  - intros l Hl. apply Hin in Hl as [k Hl].
    rewrite (Search_label_present l k _ Hl). now apply (N1 l).
  - intros l1 l2 Hl1' E. apply Hin in Hl1' as [k Hk1].
    rewrite (Search_label_present l1 k _ Hk1) in E.
    assert (H2 : SearchLabelInVocabulary l2 (m_vocab m') <> -1)
      by (specialize (Hk _ _ Hk1); lia).
    apply (Search_label_found l2 _ Hk) in H2 as [k2 Hk2].
    rewrite (Search_label_present l2 k2 _ Hk2) in E. subst k2.
    eapply N2; eassumption.
  - rewrite map_size_empty in Hsize. lia.
Qed.

(** X10.  When the labels of [labelsReverse] are all different, the
    index that [SearchLabelInVocabulary] returns for a label is its
    position in [labelsReverse], and the label map has [NumLabels()]
    entries: the labels that the tokens carry index the feature layer as
    the corpus numbers them. *)
Theorem learned_label_indices_agree_with_the_corpus (m : @RnnTreeLM D W) :
  m_usesClassFile (m_hyper m) = false ->
  let '(ok, m', evs) := LearnVocabularyFromTrainFile m in
  let labels := labelsReverse (m_corpusTrain m') in
  NoDup labels ->
  (forall (k : nat) l, labels !! k = Some l ->
     SearchLabelInVocabulary l (m_vocab m') = Z.of_nat k)
  /\ Z.of_nat (size (m_mapLabel2Index (m_vocab m'))) = NumLabels (m_corpusTrain m').
Proof.
  intros Hc. pose proof (Learn_success m Hc) as Hs.
  destruct (LearnVocabularyFromTrainFile m) as [[ok m'] evs].
  cbv zeta in Hs. destruct Hs as [Hok Hv]. cbv zeta. intros Hnd.
  set (vc1 := CopyWords _ _ _ _) in Hv.
  assert (Hl1 : m_mapLabel2Index vc1 = ∅).
  { unfold vc1.
    destruct (CopyWords_Indexed (vocabularyReverse (m_corpusTrain m')) 0
                (wordCountsDiscounted (m_corpusTrain m')) _ EndOfSentenceOnly_Indexed)
      as (_ & _ & _ & E). exact E. }
  destruct (CopyLabels_in_order (labelsReverse (m_corpusTrain m')) 0 vc1) as [_ Hord];
    [lia | | exact Hnd | |].
  - intros l k H. rewrite Hl1, lookup_empty in H. discriminate.
  - intros l _. rewrite Hl1. apply lookup_empty.
  - rewrite <- Hv in Hord. split.
    + intros k l Hk. rewrite (Search_label_present l _ _ (Hord k l Hk)). lia.
    + unfold NumLabels.
      assert (HN : Numbered 0 (m_mapLabel2Index vc1))
        by (rewrite Hl1; apply Numbered_empty).
      destruct (CopyLabels_Numbered (labelsReverse (m_corpusTrain m')) 0 vc1 HN)
        as ((N1 & N2 & N3) & _ & _ & Hsize).
      rewrite <- Hv in N1, Hsize. rewrite Hl1, map_size_empty in Hsize.
      apply Z.le_antisymm; [lia |].
      set (ls := labelsReverse (m_corpusTrain m')) in *.
      destruct (decide (length ls = 0%nat)) as [E0 | E0]; [lia |].
      destruct (lookup_lt_is_Some_2 ls (length ls - 1)) as [l Hl]; [lia |].
      specialize (Hord _ _ Hl). apply N1 in Hord. lia.
Qed.

Lemma Search_word_present w i (vc : Vocab) :
  m_mapWord2Index vc !! w = Some i -> SearchWordInVocabulary w vc = i.
Proof. unfold SearchWordInVocabulary. now intros ->. Qed.

(** X11.  After a call of [LearnVocabularyFromTrainFile] without a class
    file, with [AddWordToVocabulary] appending an entry and
    [SearchWordInVocabulary] looking the word up: the end-of-sentence
    word has index 0, every word of [vocabularyReverse] has an index
    inside the vocabulary, the word -> index and index -> word maps are
    inverse to each other, the entry at the index of a word holds that
    word, and, when the words are all different, its count is the
    rounded discounted count of the corpus. *)
Theorem learned_words_are_indexed (m : @RnnTreeLM D W) :
  m_usesClassFile (m_hyper m) = false ->
  let '(ok, m', evs) := LearnVocabularyFromTrainFile m in
  let vc := m_vocab m' in
  let words := vocabularyReverse (m_corpusTrain m') in
  let counts := wordCountsDiscounted (m_corpusTrain m') in
  ok = true
  /\ SearchWordInVocabulary "</s>" vc = 0
  /\ (forall w, w ∈ words ->
        0 <= SearchWordInVocabulary w vc < Z.of_nat (length (m_vocabularyStorage vc)))
  /\ (forall w i, m_mapWord2Index vc !! w = Some i <-> m_mapIndex2Word vc !! i = Some w)
  /\ (forall w i, m_mapWord2Index vc !! w = Some i -> 0 <= i /\ WordAt m' i = w)
  /\ (NoDup words ->
      forall (k : nat) w, words !! k = Some w ->
        cn (at_ no_word (m_vocabularyStorage vc) (SearchWordInVocabulary w vc))
        = d_round (at_ (d_of_int 0) counts (Z.of_nat k))).
Proof.
  intros Hc. pose proof (Learn_success m Hc) as Hs.
  destruct (LearnVocabularyFromTrainFile m) as [[ok m'] evs].
  cbv zeta in Hs. destruct Hs as [Hok Hv]. cbv zeta.
  split; [exact Hok |].
  fold EndOfSentenceOnly in Hv.
  set (ws := vocabularyReverse (m_corpusTrain m')) in *.
  set (counts := wordCountsDiscounted (m_corpusTrain m')) in *.
  set (vc1 := CopyWords ws 0 counts EndOfSentenceOnly) in Hv.
  destruct (CopyWords_Indexed ws 0 counts _ EndOfSentenceOnly_Indexed)
    as (HI & Hsub & Hin & _). fold vc1 in HI, Hsub, Hin.
  destruct (CopyLabels_words (labelsReverse (m_corpusTrain m')) 0 vc1) as (E1 & E2 & E3).
  rewrite <- Hv in E1, E2, E3.
  unfold WordAt, SearchWordInVocabulary. rewrite E1, E2, E3.
  destruct HI as (I1 & I2 & I3).
  assert (Hat : forall w i, m_mapWord2Index vc1 !! w = Some i ->
                  0 <= i < Z.of_nat (length (m_vocabularyStorage vc1))
                  /\ exists x, m_vocabularyStorage vc1 !! Z.to_nat i = Some x
                       /\ at_ no_word (m_vocabularyStorage vc1) i = x /\ word x = w).
  { intros w i Hw. destruct (I2 _ _ Hw) as [H0 Hst].
    destruct (m_vocabularyStorage vc1 !! Z.to_nat i) as [x|] eqn:Hx; [| discriminate].
    split; [apply lookup_lt_Some in Hx; lia |].
    exists x. split; [reflexivity |]. split; [| now inversion Hst].
    unfold at_. destruct (Z.ltb_spec i 0); [lia |]. now rewrite Hx. }
  split; [| split; [| split; [exact I1 | split]]].
  - assert (H0 : m_mapWord2Index vc1 !! "</s>" = Some 0).
    { eapply lookup_weaken; [| exact Hsub]. apply lookup_singleton_eq. }
    now rewrite H0.
  - intros w Hw. destruct (Hin w Hw) as [i Hi]. rewrite Hi. now apply (Hat w i).
  - intros w i Hw. destruct (Hat w i Hw) as (Hr & x & _ & -> & Hwx). split; [lia | exact Hwx].
  - intros Hnd k w Hk.
    destruct (CopyWords_counts ws 0 counts _ EndOfSentenceOnly_Indexed Hnd k w Hk)
      as (i & x & Hi & Hx & Hwx & Hcn). fold vc1 in Hi, Hx.
    rewrite Hi.
    destruct (Hat w i Hi) as (_ & x' & Hx' & -> & _).
    assert (x' = x) by congruence. subst x'. exact Hcn.
Qed.

End LabelFacts.

(** ** The counters and the result of [TestRnnModel] *)

Lemma size_fresh (p : Z) (X : gset Z) : p ∉ X -> size ({[p]} ∪ X) = S (size X).
Proof.
  intros H. rewrite size_union by set_solver. now rewrite size_singleton.
Qed.

Section TestCorpusFacts.
Context {D : Type} {W : Type}.
Context {dbl : Double D} {libm : LibM D} {rnn : @RnnLM D W}.

#[local] Abbreviation TLocals := (@Test.Locals D W).

Lemma TokenVisits_at toks : forall (s : TLocals),
  Forall2 at_token (Test.TokenVisits toks s) toks.
Proof.
  induction toks as [|tok toks IH]; intros s; cbn [Test.TokenVisits]; constructor.
  - split; reflexivity.
  - apply IH.
Qed.

Lemma UnrollVisits_at sent : forall (s : TLocals),
  Forall2 at_token (Test.UnrollVisits sent s) (SentenceTokens sent).
Proof.
  induction sent as [|u sent IH]; intros s; cbn [Test.UnrollVisits].
  - constructor.
  - unfold SentenceTokens. rewrite fmap_cons. cbn [concat].
    apply Forall2_app; [apply TokenVisits_at | apply IH].
Qed.

Lemma at_token_counts (v : @Test.Visit D) (tok : @Token D) :
  at_token v tok -> Test.counts v = TestCounted tok.
Proof. intros [_ Hw]. unfold Test.counts, TestCounted. now rewrite Hw. Qed.

Lemma counted_positions (vs : list (@Test.Visit D)) (toks : list (@Token D)) :
  Forall2 at_token vs toks ->
  Test.position <$> filter (fun v => Test.counts v = true) vs
  = tokenNumber <$> filter (fun tok => TestCounted tok = true) toks.
Proof.
  induction 1 as [|v tok vs toks Hvt _ IH]; [reflexivity |].
  rewrite !filter_cons. rewrite <- (at_token_counts v tok Hvt).
  destruct (decide (Test.counts v = true)) as [Hc | Hc].
  - rewrite !fmap_cons. destruct Hvt as [-> _]. now f_equal.
  - exact IH.
Qed.

Lemma uncounted_number (vs : list (@Test.Visit D)) (toks : list (@Token D)) :
  Forall2 at_token vs toks ->
  length (filter (fun v => Test.counts v = false) vs)
  = length (filter (fun tok => TestCounted tok = false) toks).
Proof.
  induction 1 as [|v tok vs toks Hvt _ IH]; [reflexivity |].
  rewrite !filter_cons. rewrite <- (at_token_counts v tok Hvt).
  destruct (decide (Test.counts v = false)); cbn [length]; now rewrite IH.
Qed.

(** The first visits are as many as the positions not seen before. *)
Lemma FirstVisits_length (vs : list (@Test.Visit D)) : forall (seen : gset Z),
  length (Test.FirstVisits seen vs)
  = size (list_to_set (Test.position <$> filter (fun v => Test.counts v = true) vs)
          ∖ seen : gset Z).
Proof.
  induction vs as [|v vs IH]; intros seen; cbn [Test.FirstVisits].
  - rewrite filter_nil, fmap_nil. cbn [list_to_set].
    assert (E : (∅ : gset Z) ∖ seen = ∅) by set_solver.
    now rewrite E, size_empty.
  - rewrite filter_cons.
    destruct (decide (Test.counts v = true)) as [Hc | Hc].
    + rewrite Hc. cbn [andb]. rewrite fmap_cons. cbn [list_to_set].
      destruct (decide (Test.position v ∈ seen)) as [Hs | Hs].
      * rewrite bool_decide_eq_false_2 by (intros H; contradiction).
        rewrite IH. set (S0 := list_to_set _).
        assert (E : ({[Test.position v]} ∪ S0) ∖ seen = S0 ∖ seen) by set_solver.
        now rewrite E.
      * rewrite bool_decide_eq_true_2 by exact Hs.
        cbn [length]. rewrite IH.
        set (S0 := list_to_set _).
        assert (E : ({[Test.position v]} ∪ S0) ∖ seen
                    = {[Test.position v]} ∪ S0 ∖ ({[Test.position v]} ∪ seen))
          by (clearbody S0; clear -Hs; apply set_eq; intros x;
              destruct (decide (x = Test.position v)); set_solver).
        rewrite E. symmetry. apply size_fresh. clearbody S0. clear -Hs. set_solver.
    + apply not_true_is_false in Hc. rewrite Hc. cbn [andb]. apply IH.
Qed.

(** *** The tally of the words that do not count *)

Lemma Test_OneToken_numUnk tok (s : TLocals) :
  Test.numUnk (Test.OneToken tok s)
  = Test.numUnk s + (if TestCounted tok then 0 else 1).
Proof.
  destruct (Test_OneToken_Count tok s) as (_ & _ & _ & _ & Hn & _).
  rewrite Hn. clear Hn.
  set (lp := Test.logProbability _). set (s1 := Test.set_this _ s).
  change (Test.numUnk s) with (Test.numUnk s1).
  destruct (TestCounted tok) eqn:Hc.
  - destruct (Test.logProbSentence s1 !! tokenNumber tok) as [stored|] eqn:Hl.
    + rewrite (Test_Count_seen (tokenNumber tok) (tokenWord tok) lp stored s1 Hc Hl). cbn. lia.
    + destruct (Test_Count_first (tokenNumber tok) (tokenWord tok) lp s1 Hc Hl) as (_ & _ & _ & _ & Hn). rewrite Hn. lia.
  - destruct (Test_Count_oov (tokenNumber tok) (tokenWord tok) lp s1 Hc) as (_ & _ & _ & _ & Hn). exact Hn.
Qed.

Lemma Uncounted_app (l1 l2 : list (@Token D)) : UncountedTokens (l1 ++ l2) = UncountedTokens l1 + UncountedTokens l2.
Proof. unfold UncountedTokens. rewrite filter_app, length_app. lia. Qed.

Lemma Uncounted_cons (tok : @Token D) l :
  UncountedTokens (tok :: l) = (if TestCounted tok then 0 else 1) + UncountedTokens l.
Proof.
  unfold UncountedTokens. rewrite filter_cons.
  destruct (TestCounted tok); destruct (decide _); try congruence; cbn [length]; lia.
Qed.

Lemma Test_Tokens_numUnk toks : forall (s : TLocals),
  Test.numUnk (Test.Tokens toks s) = Test.numUnk s + UncountedTokens toks.
Proof.
  unfold Test.Tokens.
  induction toks as [|tok toks IH]; intros s; cbn [fold_left].
  - unfold UncountedTokens. cbn. lia.
  - rewrite IH, Test_OneToken_numUnk, Uncounted_cons. lia.
Qed.

Lemma Test_OneUnroll_numUnk u (s : TLocals) :
  Test.numUnk (Test.OneUnroll u s) = Test.numUnk s + UncountedTokens (UnrollTokens u).
Proof. unfold Test.OneUnroll. now rewrite Test_Tokens_numUnk. Qed.

Lemma Test_OneSentence_numUnk sent (s : TLocals) :
  Test.numUnk (Test.OneSentence sent s) = Test.numUnk s + UncountedTokens (SentenceTokens sent).
Proof.
  unfold Test.OneSentence, Test.Unrolls. cbn [Test.numUnk].
  change (Test.numUnk s) with (Test.numUnk (Test.BeginSentence s)).
  generalize (Test.BeginSentence s). clear s.
  induction sent as [|u sent IH]; intros s; cbn [fold_left].
  - unfold UncountedTokens, SentenceTokens. cbn. lia.
  - rewrite IH, Test_OneUnroll_numUnk. unfold SentenceTokens.
    rewrite fmap_cons. cbn [concat]. rewrite Uncounted_app. lia.
Qed.

(** *** The loops over books and sentences, as one loop over sentences *)

Lemma Test_Books_sentences bks : forall (s : TLocals),
  Test.Books bks s
  = fold_left (fun s sent => Test.OneSentence sent s) (CorpusSentences bks) s.
Proof.
  unfold Test.Books, CorpusSentences.
  induction bks as [|book bks IH]; intros s; cbn [fold_left concat]; [reflexivity |].
  rewrite fold_left_app. apply IH.
Qed.

Lemma CorpusTokens_sentences (bks : list (@BookUnrolls D)) :
  CorpusTokens bks = concat (SentenceTokens <$> CorpusSentences bks).
Proof.
  unfold CorpusTokens, CorpusSentences, BookTokens.
  induction bks as [|book bks IH]; [reflexivity |].
  rewrite fmap_cons. cbn [concat]. rewrite fmap_app, concat_app. now rewrite IH.
Qed.

Lemma Test_OneSentence_unique sent (s : TLocals) :
  Test.uniqueWordCounter (Test.OneSentence sent s)
  = Test.uniqueWordCounter s + DistinctPositions TestCounted sent.
Proof.
  destruct (Test_OneSentence_account sent s) as (_ & _ & _ & _ & Hu).
  rewrite Hu, FirstVisits_length. unfold Test.SentenceVisits.
  rewrite (counted_positions _ _ (UnrollVisits_at sent (Test.BeginSentence s))).
  unfold DistinctPositions, Positions.
  set (S0 := list_to_set _).
  assert (E : S0 ∖ ∅ = S0) by (clearbody S0; set_solver).
  now rewrite E.
Qed.

Lemma TestRnnModel_sentences (m : @RnnTreeLM D W) sentenceScores0 out0 :
  let s := Test.TestRnnModel m sentenceScores0 out0 in
  let s' := fold_left (fun s sent => Test.OneSentence sent s)
              (CorpusSentences (books (m_corpusValidTest m)))
              (Test.Begin m sentenceScores0 out0) in
  Test.uniqueWordCounter s = Test.uniqueWordCounter s'
  /\ Test.numUnk s = Test.numUnk s'
  /\ Test.sentenceScores s = Test.sentenceScores s'
  /\ Test.testLogProbability s = Test.testLogProbability s'
  /\ Test.out s
     = Test.out s'
       ++ [OutTestSummary (Test.testLogProbability s') (Test.uniqueWordCounter s')
             (Test.numUnk s') (Z.of_nat (length (Test.sentenceScores s')));
           OutPerplexity
             (if 0 <? Test.uniqueWordCounter s'
              then Perplexity (Test.testLogProbability s') (Test.uniqueWordCounter s')
              else d_of_int 0)].
Proof.
  cbv zeta. unfold Test.TestRnnModel. cbv zeta. rewrite Test_Books_sentences.
  repeat split; reflexivity.
Qed.

Lemma Test_sentences_counts sents : forall (s1 : TLocals),
  let s2 := fold_left (fun s sent => Test.OneSentence sent s) sents s1 in
  Test.uniqueWordCounter s2
  = Test.uniqueWordCounter s1 + foldr Z.add 0 (DistinctPositions TestCounted <$> sents)
  /\ Test.numUnk s2
     = Test.numUnk s1 + UncountedTokens (concat (SentenceTokens <$> sents))
  /\ length (Test.sentenceScores s2)
     = (length (Test.sentenceScores s1) + length sents)%nat.
Proof.
  induction sents as [|sent sents IH]; intros s1; cbn [fold_left].
  - cbv zeta. unfold UncountedTokens. cbn. repeat split; lia.
  - destruct (IH (Test.OneSentence sent s1)) as (A & B & C). cbv zeta.
    rewrite A, B, C. rewrite Test_OneSentence_unique, Test_OneSentence_numUnk.
    destruct (Test_OneSentence_account sent s1) as (Hs & _). rewrite Hs.
    rewrite !fmap_cons. cbn [foldr concat length].
    rewrite Uncounted_app, length_app. cbn [length]. repeat split; lia.
Qed.

(** X12.  The counters of [TestRnnModel] depend on the corpus only, not
    on the network: [uniqueWordCounter] is the sum over the sentences of
    the number of distinct token positions that hold a word that counts
    ([word >= 0] and [word != 1]), [numUnk] is the number of token visits
    whose word does not count, and [sentenceScores] grows by one entry
    per sentence. *)
Theorem TestRnnModel_counts_depend_on_the_corpus_only
    (m : @RnnTreeLM D W) (sentenceScores0 : list D) (out0 : list (@Event D)) :
  let s := Test.TestRnnModel m sentenceScores0 out0 in
  let bks := books (m_corpusValidTest m) in
  Test.uniqueWordCounter s = CorpusPositions TestCounted bks
  /\ Test.numUnk s
     = Z.of_nat (length (filter (fun tok => TestCounted tok = false) (CorpusTokens bks)))
  /\ length (Test.sentenceScores s)
     = (length sentenceScores0 + length (CorpusSentences bks))%nat.
Proof.
  intros s bks. subst s.
  destruct (TestRnnModel_sentences m sentenceScores0 out0) as (-> & -> & -> & _).
  fold bks. fold (UncountedTokens (CorpusTokens bks)). rewrite CorpusTokens_sentences.
  unfold CorpusPositions.
  destruct (Test_sentences_counts (CorpusSentences bks)
              (Test.Begin m sentenceScores0 out0)) as (A & B & C).
  rewrite A, B, C. cbn [Test.Begin Test.uniqueWordCounter Test.numUnk Test.sentenceScores].
  repeat split; lia.
Qed.

(** *** A corpus without a word that counts *)

Lemma filter_counted_nil (toks : list (@Token D)) :
  Forall (fun tok => TestCounted tok = false) toks ->
  filter (fun tok => TestCounted tok = true) toks = [].
Proof.
  induction 1 as [|tok toks Ht _ IH]; [reflexivity |].
  rewrite filter_cons. destruct (decide _); [congruence | exact IH].
Qed.

Lemma FirstVisits_none (vs : list (@Test.Visit D)) toks :
  Forall2 at_token vs toks ->
  Forall (fun tok => TestCounted tok = false) toks ->
  forall seen, Test.FirstVisits seen vs = [].
Proof.
  induction 1 as [|v tok vs toks Hvt _ IH]; intros Hall seen; [reflexivity |].
  apply Forall_cons in Hall as [Hc Hall]. cbn [Test.FirstVisits].
  rewrite (at_token_counts v tok Hvt), Hc. cbn [andb]. now apply IH.
Qed.

Lemma Test_sentences_uncounted sents : forall (s1 : TLocals),
  Forall (fun tok => TestCounted tok = false) (concat (SentenceTokens <$> sents)) ->
  let s2 := fold_left (fun s sent => Test.OneSentence sent s) sents s1 in
  Test.testLogProbability s2 = Test.testLogProbability s1
  /\ Test.sentenceScores s2
     = Test.sentenceScores s1 ++ replicate (length sents) (d_of_int 0).
Proof.
  induction sents as [|sent sents IH]; intros s1 Hall; cbn [fold_left].
  - cbv zeta. cbn. now rewrite app_nil_r.
  - rewrite fmap_cons in Hall. cbn [concat] in Hall.
    apply Forall_app in Hall as [Hsent Hall].
    destruct (IH (Test.OneSentence sent s1) Hall) as (A & B). cbv zeta.
    rewrite A, B.
    destruct (Test_OneSentence_account sent s1) as (Hs & _ & _ & Hl & _).
    rewrite Hs, Hl. unfold Test.SentenceScore, Test.SentenceVisits.
    rewrite (FirstVisits_none _ _ (UnrollVisits_at sent (Test.BeginSentence s1)) Hsent).
    cbn [fmap list_fmap Test.sum_from fold_left length replicate].
    split; [reflexivity |]. rewrite <- app_assoc. reflexivity.
Qed.

(** X13.  On a corpus without a word that counts (every word negative
    or the unknown word 1; also the corpus without books), [TestRnnModel]
    returns 0, sets [uniqueWordCounter] to 0, tallies every token visit
    in [numUnk], appends a score of 0 for each sentence, and reports a
    perplexity of 0: no division by the zero count is made. *)
Theorem TestRnnModel_without_a_word_that_counts
    (m : @RnnTreeLM D W) (sentenceScores0 : list D) (out0 : list (@Event D)) :
  let bks := books (m_corpusValidTest m) in
  Forall (fun tok => TestCounted tok = false) (CorpusTokens bks) ->
  let s := Test.TestRnnModel m sentenceScores0 out0 in
  Test.testLogProbability s = d_of_int 0
  /\ Test.uniqueWordCounter s = 0
  /\ Test.numUnk s = Z.of_nat (length (CorpusTokens bks))
  /\ Test.sentenceScores s
     = sentenceScores0 ++ replicate (length (CorpusSentences bks)) (d_of_int 0)
  /\ last (Test.out s) = Some (OutPerplexity (d_of_int 0)).
Proof.
  intros bks Hall s.
  destruct (TestRnnModel_sentences m sentenceScores0 out0) as (Eu & En & Es & El & Eo).
  fold s bks in Eu, En, Es, El, Eo.
  set (s' := fold_left _ _ _) in *.
  rewrite CorpusTokens_sentences in Hall.
  destruct (Test_sentences_uncounted (CorpusSentences bks)
              (Test.Begin m sentenceScores0 out0) Hall) as (A & B).
  destruct (Test_sentences_counts (CorpusSentences bks)
              (Test.Begin m sentenceScores0 out0)) as (C & N & _).
  fold s' in A, B, C, N.
  cbn [Test.Begin Test.uniqueWordCounter Test.numUnk Test.sentenceScores
       Test.testLogProbability] in A, B, C, N.
  assert (Hd : foldr Z.add 0 (DistinctPositions TestCounted <$> CorpusSentences bks) = 0).
  { clear -Hall. induction (CorpusSentences bks) as [|sent sents IH]; [reflexivity |].
    rewrite fmap_cons in Hall. cbn [concat] in Hall.
    apply Forall_app in Hall as [Hsent Hall].
    rewrite fmap_cons. cbn [foldr]. rewrite (IH Hall).
    unfold DistinctPositions, Positions.
    rewrite (filter_counted_nil _ Hsent). reflexivity. }
  assert (Hu : UncountedTokens (concat (SentenceTokens <$> CorpusSentences bks))
               = Z.of_nat (length (concat (SentenceTokens <$> CorpusSentences bks)))).
  { unfold UncountedTokens. f_equal. f_equal.
    clear -Hall. induction (concat _) as [|tok toks IH]; [reflexivity |].
    apply Forall_cons in Hall as [Ht Hall]. rewrite filter_cons.
    destruct (decide _); [| contradiction]. f_equal. now apply IH. }
  rewrite Hd in C. rewrite Hu in N.
  split; [now rewrite El, A |]. split; [rewrite Eu, C; lia |].
  split; [rewrite En, N, CorpusTokens_sentences; lia |].
  split; [now rewrite Es, B |].
  rewrite Eo, C. cbn [Z.add Z.ltb Z.compare].
  match goal with
  | |- last (?l ++ [?a; ?b]) = _ =>
      change (l ++ [a; b]) with (l ++ [a] ++ [b]); rewrite app_assoc; apply last_snoc
  end.
Qed.

(** *** What [TestRnnModel] leaves alone *)

(** X14.  Of the members of the model [TestRnnModel] assigns [m_state]
    only, through the methods of the base class that receive it by
    reference; it reads the books through [m_corpusValidTest], whose
    reading position is no part of this model.  The weights and their
    backup, the backup of the state, the BPTT memory, the learning
    rates, the annealing flag, the counters, the vocabulary, the
    hyper-parameters and the two other corpus readers are as before the
    call. *)
Theorem TestRnnModel_keeps_all_but_state_and_reader
    (m : @RnnTreeLM D W) (sentenceScores0 : list D) (out0 : list (@Event D)) :
  let m' := Test.this (Test.TestRnnModel m sentenceScores0 out0) in
  m_weights m' = m_weights m
  /\ m_weightsBackup m' = m_weightsBackup m
  /\ m_stateBackup m' = m_stateBackup m
  /\ m_bpttVectors m' = m_bpttVectors m
  /\ m_learningRate m' = m_learningRate m
  /\ m_initialLearningRate m' = m_initialLearningRate m
  /\ m_doStartReducingLearningRate m' = m_doStartReducingLearningRate m
  /\ m_iteration m' = m_iteration m
  /\ m_wordCounter m' = m_wordCounter m
  /\ m_currentPosTrainFile m' = m_currentPosTrainFile m
  /\ m_numTrainWords m' = m_numTrainWords m
  /\ m_vocab m' = m_vocab m
  /\ m_hyper m' = m_hyper m
  /\ m_correctSentenceLabels m' = m_correctSentenceLabels m
  /\ m_corpusVocabulary m' = m_corpusVocabulary m
  /\ m_corpusTrain m' = m_corpusTrain m.
Proof.
  cbv zeta. repeat split;
    match goal with
    | |- ?q _ = ?q m => apply (TestRnnModel_keeps q); reflexivity
    end.
Qed.

End TestCorpusFacts.

(** ** The epochs of [TrainRnnModel] *)

Section EpochBookkeeping.
Context {D : Type} {W : Type}.
Context {dbl : Double D} {libm : LibM D} {rnn : @RnnLM D W}.

#[local] Abbreviation Outer := (@Train.Outer D W).

Lemma EndOfEpoch_learningRate v (o : Outer) :
  let o' := Train.EndOfEpoch v o in
  m_learningRate (Train.model o')
  = if Train.loopEpochs o' && m_doStartReducingLearningRate (Train.model o')
    then d_div (m_learningRate (Train.model o)) (d_of_int 2)
    else m_learningRate (Train.model o).
Proof.
  cbv zeta. unfold Train.EndOfEpoch, Train.RestoreOrBackup, Train.Anneal.
  destruct (d_ltb v (Train.lastValidLogProbability o)); cbn;
    destruct (d_ltb _ _); cbn;
    destruct (m_doStartReducingLearningRate (Train.model o)) eqn:Hf; cbn;
    rewrite ?Hf; cbn; reflexivity.
Qed.

(** X16.  Across a whole epoch of [TrainRnnModel] (the training of all
    books, the validation and the end of the epoch) the learning rate is
    either left unchanged or halved once: it is halved exactly when the
    loop goes on with the annealing flag set, and it is unchanged when
    the epoch returns false.  No discount remains. *)
Theorem learning_rate_across_an_epoch (sizeFeature : Z) (o : Outer) :
  let alpha := m_learningRate (Train.model o) in
  match Train.OneEpoch sizeFeature o with
  | inl o' => m_learningRate (Train.model o') = alpha
  | inr o' =>
      m_learningRate (Train.model o')
      = if Train.loopEpochs o' && m_doStartReducingLearningRate (Train.model o')
        then d_div alpha (d_of_int 2) else alpha
  end.
Proof.
  cbv zeta. unfold Train.OneEpoch.
  pose proof (Training_keeps m_learningRate learningRate_Kept sizeFeature
                (Train.model o) (Train.log o)) as Ht.
  destruct (Train.Training sizeFeature (Train.model o) (Train.log o)) as [s | s];
    cbn [Train.locals] in Ht.
  - pose proof (Validate_keeps (@m_learningRate D W) (fun _ _ => eq_refl) s) as Hv.
    destruct (Train.Validate s) as [[v m] evs]. cbn [fst snd] in Hv.
    rewrite EndOfEpoch_learningRate. cbn [Train.model]. now rewrite Hv, Ht.
  - cbn [Train.model]. exact Ht.
Qed.

(** X18.  Every end of an epoch resets [m_wordCounter] and
    [m_currentPosTrainFile] to 0, writes the model and the word
    embeddings exactly once, after the restoring or the backup, adds one
    to [m_iteration] exactly when the loop goes on, stops only when the
    annealing flag was already set (keeping [lastValidLogProbability]),
    never clears the flag, and leaves the hyper-parameters, the
    vocabulary, the BPTT memory and the initial learning rate alone. *)
Theorem end_of_epoch_bookkeeping (validLogProbability : D) (o : Outer) :
  let o' := Train.EndOfEpoch validLogProbability o in
  let m := Train.model o in
  let m' := Train.model o' in
  m_wordCounter m' = 0
  /\ m_currentPosTrainFile m' = 0
  /\ m_iteration m' = m_iteration m + (if Train.loopEpochs o' then 1 else 0)
  /\ Train.log o'
     = Train.log o
       ++ [if d_ltb validLogProbability (Train.lastValidLogProbability o)
           then OutRestored else OutSaveThisModel]
       ++ Train.save_model m
       ++ (if Train.loopEpochs o' then [OutSavedTheModel] else [])
  /\ (Train.loopEpochs o' = false ->
      Train.lastValidLogProbability o' = Train.lastValidLogProbability o
      /\ m_doStartReducingLearningRate m = true)
  /\ (m_doStartReducingLearningRate m = true ->
      m_doStartReducingLearningRate m' = true)
  /\ m_hyper m' = m_hyper m
  /\ m_vocab m' = m_vocab m
  /\ m_bpttVectors m' = m_bpttVectors m
  /\ m_initialLearningRate m' = m_initialLearningRate m.
Proof.
  cbv zeta. unfold Train.EndOfEpoch, Train.RestoreOrBackup, Train.Anneal, Train.save_model.
  destruct (d_ltb validLogProbability (Train.lastValidLogProbability o)); cbn;
    destruct (d_ltb _ _); cbn;
    destruct (m_doStartReducingLearningRate (Train.model o)) eqn:Hf; cbn;
    rewrite ?Hf; cbn; rewrite <- ?app_assoc; cbn;
    repeat split; try reflexivity; try lia; try (intros; congruence);
    try (rewrite ?app_nil_r; reflexivity).
Qed.

End EpochBookkeeping.

(** ** The counters of [TrainRnnModel] *)

Lemma size_of_list (l : list Z) : (size (list_to_set l : gset Z) <= length l)%nat.
Proof.
  induction l as [|x l IH]; cbn [list_to_set length].
  - rewrite size_empty. lia.
  - destruct (decide (x ∈ (list_to_set l : gset Z))) as [Hx | Hx].
    + assert (E : {[x]} ∪ list_to_set l = (list_to_set l : gset Z)) by set_solver.
      rewrite E. lia.
    + rewrite size_fresh by exact Hx. lia.
Qed.

Section TrainCountFacts.
Context {D : Type} {W : Type}.
Context {dbl : Double D} {libm : LibM D} {rnn : @RnnLM D W}.

#[local] Abbreviation Locals := (@Train.Locals D W).

(** A quantity that each turn of a loop changes by a step of its own. *)
Lemma loop_fold {A X} (body : A -> Locals -> Train.Flow) (p : Locals -> X)
    (step : A -> X -> X) :
  (forall x s s', body x s = Train.Continue s' -> p s' = step x (p s)) ->
  forall xs s s', Train.loop body xs s = Train.Continue s' ->
    p s' = fold_left (fun acc x => step x acc) xs (p s).
Proof.
  intros Hb xs. induction xs as [|x xs IH]; intros s s' Hl; cbn [Train.loop] in Hl.
  - inversion Hl; subst. reflexivity.
  - destruct (body x s) as [s1 | s1] eqn:E; [| discriminate].
    cbn [fold_left]. rewrite <- (Hb x s s1 E). now apply IH.
Qed.

Lemma Count_seen_count (tok : @Token D) lp (s : Locals) :
  Train_seen (Train.Count (tokenNumber tok) (tokenWord tok) lp s) = Train_see tok (Train_seen s).
Proof.
  unfold Train_seen, Train_see, Train.Count, TrainCounted. cbn [fst snd].
  destruct (0 <=? tokenWord tok); cbn [andb]; [| reflexivity].
  destruct (Train.logProbSentence s !! tokenNumber tok) as [x|] eqn:E.
  - rewrite bool_decide_eq_false_2; [reflexivity |].
    intros Hn. apply Hn. apply elem_of_dom. eauto.
  - rewrite bool_decide_eq_true_2 by (now apply not_elem_of_dom).
    cbn. now rewrite dom_insert_L.
Qed.

Lemma OneToken_seen_count sf tok (s : Locals) :
  Train_seen (Train.locals (Train.OneToken sf tok s)) = Train_see tok (Train_seen s).
Proof.
  destruct (Train_OneToken_Counted sf tok s) as (_ & Hu & Hl).
  unfold Train_seen at 1. rewrite Hu, Hl.
  unfold Train.Counted. cbv zeta.
  exact (Count_seen_count tok _ (Train.set_this _ s)).
Qed.

Lemma see_tokens (toks : list (@Token D)) : forall (seen : gset Z) (u : Z),
  fold_left (fun acc tok => Train_see tok acc) toks (seen, u)
  = (list_to_set (tokenNumber <$> filter (fun tok => TrainCounted tok = true) toks) ∪ seen,
     u + Z.of_nat
           (size (list_to_set
                    (tokenNumber <$> filter (fun tok => TrainCounted tok = true) toks)
                  ∖ seen : gset Z))).
Proof.
  induction toks as [|tok toks IH]; intros seen u; cbn [fold_left].
  - rewrite filter_nil, fmap_nil. cbn [list_to_set].
    assert (E : (∅ : gset Z) ∖ seen = ∅) by set_solver.
    rewrite E, size_empty. f_equal; [set_solver | lia].
  - rewrite filter_cons. unfold Train_see at 2. cbn [fst snd].
    destruct (decide (TrainCounted tok = true)) as [Hc | Hc].
    + rewrite Hc. cbn [andb]. rewrite fmap_cons. cbn [list_to_set].
      set (S0 := list_to_set _).
      destruct (decide (tokenNumber tok ∈ seen)) as [Hs | Hs].
      * rewrite bool_decide_eq_false_2 by (intros H; contradiction).
        rewrite IH. fold S0.
        assert (E1 : {[tokenNumber tok]} ∪ S0 ∪ seen = S0 ∪ seen)
          by (clearbody S0; clear -Hs; set_solver).
        assert (E2 : ({[tokenNumber tok]} ∪ S0) ∖ seen = S0 ∖ seen)
          by (clearbody S0; clear -Hs; set_solver).
        now rewrite E1, E2.
      * rewrite bool_decide_eq_true_2 by exact Hs.
        rewrite IH. fold S0.
        assert (E1 : S0 ∪ ({[tokenNumber tok]} ∪ seen) = {[tokenNumber tok]} ∪ S0 ∪ seen)
          by (clearbody S0; clear; set_solver).
        assert (E2 : ({[tokenNumber tok]} ∪ S0) ∖ seen
                     = {[tokenNumber tok]} ∪ S0 ∖ ({[tokenNumber tok]} ∪ seen))
          by (clearbody S0; clear -Hs; apply set_eq; intros x;
              destruct (decide (x = tokenNumber tok)); set_solver).
        rewrite E1, E2. f_equal.
        rewrite size_fresh by (clearbody S0; clear; set_solver). lia.
    + apply not_true_is_false in Hc. rewrite Hc. cbn [andb]. apply IH.
Qed.

Lemma BeginUnroll_seen_count (s : Locals) :
  Train_seen (Train.BeginUnroll s) = Train_seen s.
Proof. reflexivity. Qed.

Lemma OneUnroll_seen_count sf u (s s' : Locals) :
  Train.OneUnroll sf u s = Train.Continue s' ->
  Train_seen s' = fold_left (fun acc tok => Train_see tok acc) (UnrollTokens u) (Train_seen s).
Proof.
  unfold Train.OneUnroll. intros Hl.
  rewrite <- (BeginUnroll_seen_count s).
  apply (loop_fold (Train.OneToken sf) Train_seen Train_see); [| exact Hl].
  intros tok s1 s2 E. rewrite <- OneToken_seen_count with (sf := sf). now rewrite E.
Qed.

Lemma fold_left_concat {A B} (f : B -> A -> B) (ls : list (list A)) : forall b,
  fold_left (fun acc l => fold_left f l acc) ls b = fold_left f (concat ls) b.
Proof.
  induction ls as [|l ls IH]; intros b; cbn [fold_left concat]; [reflexivity |].
  rewrite fold_left_app. apply IH.
Qed.

Lemma fold_left_through {A B C} (h : A -> B) (g : C -> B -> C) (l : list A) : forall c,
  fold_left (fun acc x => g acc (h x)) l c = fold_left g (h <$> l) c.
Proof. induction l as [|x l IH]; intros c; [reflexivity | apply IH]. Qed.

Lemma Verbose_unique idxBook idxSentence (s : Locals) :
  Train.uniqueWordCounter (Train.Verbose idxBook idxSentence s) = Train.uniqueWordCounter s
  /\ Train.this (Train.Verbose idxBook idxSentence s) = Train.this s.
Proof. unfold Train.Verbose. destruct (_ =? 0); split; reflexivity. Qed.

Lemma OneSentence_unique sf idxBook isent (s s' : Locals) :
  Train.OneSentence sf idxBook isent s = Train.Continue s' ->
  Train.uniqueWordCounter s'
  = Train.uniqueWordCounter s + DistinctPositions TrainCounted (snd isent).
Proof.
  unfold Train.OneSentence.
  destruct (Train.loop _ _ _) as [s1 | s1] eqn:Hl; [| discriminate].
  intros E. inversion E; subst s'. clear E.
  destruct (Verbose_unique idxBook (fst isent) s1) as [-> _].
  pose proof (loop_fold (Train.OneUnroll sf) Train_seen
                (fun (u : @Unroll D) acc =>
                   fold_left (fun acc tok => Train_see tok acc) (UnrollTokens u) acc)
                (OneUnroll_seen_count sf) (snd isent) _ _ Hl) as Hf.
  rewrite (fold_left_through (@UnrollTokens D)
             (fun acc (l : list (@Token D)) =>
                fold_left (fun acc tok => Train_see tok acc) l acc)) in Hf.
  rewrite fold_left_concat in Hf.
  change (concat (UnrollTokens <$> isent.2)) with (SentenceTokens (snd isent)) in Hf.
  unfold Train_seen in Hf at 2. cbn [Train.BeginSentence Train.logProbSentence
    Train.uniqueWordCounter] in Hf.
  rewrite dom_empty_L, see_tokens in Hf.
  unfold Train_seen in Hf. inversion Hf as [[Hd Hu]]. rewrite Hu.
  unfold DistinctPositions, Positions.
  set (S0 := list_to_set _).
  assert (E : S0 ∖ ∅ = S0) by (clearbody S0; set_solver).
  now rewrite E.
Qed.

Lemma indexed_snd {A} (l : list A) : snd <$> Train.indexed l = l.
Proof.
  unfold Train.indexed.
  assert (G : forall (g : nat -> A -> Z * A), (forall i x, snd (g i x) = x) ->
                snd <$> imap g l = l).
  { induction l as [|x l IH]; intros g Hg; [reflexivity |].
    rewrite imap_cons, fmap_cons, Hg. f_equal. apply IH. intros i y. apply Hg. }
  apply G. reflexivity.
Qed.

Lemma fold_left_sum {A} (f : A -> Z) (l : list A) : forall acc,
  fold_left (fun acc x => acc + f x) l acc = acc + foldr Z.add 0 (f <$> l).
Proof.
  induction l as [|x l IH]; intros acc; cbn [fold_left]; [cbn; lia |].
  rewrite IH, fmap_cons. cbn [foldr]. lia.
Qed.

Lemma OneBook_unique sf ibook (s s' : Locals) :
  Train.OneBook sf ibook s = Train.Continue s' ->
  Train.uniqueWordCounter s'
  = Train.uniqueWordCounter s
    + foldr Z.add 0 (DistinctPositions TrainCounted <$> snd ibook).
Proof.
  unfold Train.OneBook. intros Hl.
  rewrite (loop_fold (Train.OneSentence sf (fst ibook)) Train.uniqueWordCounter
             (fun isent acc => acc + DistinctPositions TrainCounted (snd isent))
             (OneSentence_unique sf (fst ibook)) _ _ _ Hl).
  rewrite (fold_left_sum (fun isent => DistinctPositions TrainCounted (snd isent))).
  f_equal. f_equal.
  rewrite <- (indexed_snd (snd ibook)) at 2. now rewrite <- list_fmap_compose.
Qed.

Lemma sum_concat (f : @Sentence D -> Z) (bks : list (@BookUnrolls D)) :
  foldr Z.add 0 ((fun book => foldr Z.add 0 (f <$> book)) <$> bks)
  = foldr Z.add 0 (f <$> concat bks).
Proof.
  induction bks as [|book bks IH]; [reflexivity |].
  rewrite fmap_cons. cbn [foldr concat]. rewrite IH, fmap_app.
  generalize (f <$> book). intros l. induction l as [|x l IHl]; cbn; lia.
Qed.

(** *** The word counter *)

Lemma Counted_app (l1 l2 : list (@Token D)) : CountedTokens (l1 ++ l2) = CountedTokens l1 + CountedTokens l2.
Proof. unfold CountedTokens. rewrite filter_app, length_app. lia. Qed.

Lemma Counted_cons (tok : @Token D) l :
  CountedTokens (tok :: l) = (if TrainCounted tok then 1 else 0) + CountedTokens l.
Proof.
  unfold CountedTokens. rewrite filter_cons.
  destruct (TrainCounted tok); destruct (decide _); try congruence; cbn [length]; lia.
Qed.

Section WordCounter.
Hypothesis backward_keeps :
  forall lw w (m : @RnnTreeLM D W),
    m_wordCounter (BackPropagateErrorsThenOneStepGradientDescent lw w m) = m_wordCounter m.

Lemma ShiftBptt_wordCounter sf lw (m : @RnnTreeLM D W) :
  m_wordCounter (ShiftBptt sf lw m) = m_wordCounter m.
Proof.
  unfold ShiftBptt. destruct (0 <? _); [| reflexivity].
  destruct (for_down _ _ _). reflexivity.
Qed.

Lemma Learn_wordCounter sf tok (s : Locals) :
  m_wordCounter (Train.this (Train.Learn sf tok s)) = m_wordCounter (Train.this s).
Proof.
  unfold Train.Learn. cbv zeta.
  destruct (ForwardPropagateWordHistory _ _ _ _) as [state lw'].
  cbn [Train.this set_state m_wordCounter on_state].
  unfold Train.DiscountedBackPropagate. cbn [set_learningRate m_wordCounter].
  rewrite backward_keeps. cbn [set_learningRate m_wordCounter].
  apply ShiftBptt_wordCounter.
Qed.

Lemma Counted_wordCounter tok (s : Locals) :
  m_wordCounter (Train.this (Train.Counted tok s))
  = m_wordCounter (Train.this s) + (if TrainCounted tok then 1 else 0).
Proof.
  unfold Train.Counted, Train.Count, TrainCounted. cbv zeta.
  destruct (0 <=? tokenWord tok).
  - cbn [Train.set_this Train.this Train.logProbSentence].
    destruct (_ !! _); cbn [Train.this set_wordCounter m_wordCounter];
      unfold Train.Forward; destruct (_ =? 2); cbn; lia.
  - cbn [Train.set_this Train.this].
    unfold Train.Forward; destruct (_ =? 2); cbn; lia.
Qed.

Lemma OneToken_wordCounter sf tok (s s' : Locals) :
  Train.OneToken sf tok s = Train.Continue s' ->
  m_wordCounter (Train.this s')
  = m_wordCounter (Train.this s) + (if TrainCounted tok then 1 else 0).
Proof.
  unfold Train.OneToken. cbv zeta. destruct (Train.Diverged _); [discriminate |].
  intros E. inversion E; subst s'.
  now rewrite Learn_wordCounter, Counted_wordCounter.
Qed.

Lemma OneUnroll_wordCounter sf u (s s' : Locals) :
  Train.OneUnroll sf u s = Train.Continue s' ->
  m_wordCounter (Train.this s') = m_wordCounter (Train.this s) + CountedTokens (UnrollTokens u).
Proof.
  unfold Train.OneUnroll. intros Hl.
  rewrite (loop_fold (Train.OneToken sf) (fun s => m_wordCounter (Train.this s))
             (fun tok acc => acc + (if TrainCounted tok then 1 else 0))
             (OneToken_wordCounter sf) _ _ _ Hl).
  change (m_wordCounter (Train.this (Train.BeginUnroll s)))
    with (m_wordCounter (Train.this s)).
  generalize (m_wordCounter (Train.this s)). fold (UnrollTokens u). clear Hl.
  induction (UnrollTokens u) as [|tok toks IH]; intros z; cbn [fold_left].
  - unfold CountedTokens. cbn. lia.
  - rewrite IH, Counted_cons. lia.
Qed.

Lemma OneSentence_wordCounter sf idxBook isent (s s' : Locals) :
  Train.OneSentence sf idxBook isent s = Train.Continue s' ->
  m_wordCounter (Train.this s')
  = m_wordCounter (Train.this s) + CountedTokens (SentenceTokens (snd isent)).
Proof.
  unfold Train.OneSentence.
  destruct (Train.loop _ _ _) as [s1 | s1] eqn:Hl; [| discriminate].
  intros E. inversion E; subst s'. clear E.
  destruct (Verbose_unique idxBook (fst isent) s1) as [_ ->].
  rewrite (loop_fold (Train.OneUnroll sf) (fun s => m_wordCounter (Train.this s))
             (fun u acc => acc + CountedTokens (UnrollTokens u))
             (OneUnroll_wordCounter sf) _ _ _ Hl).
  change (m_wordCounter (Train.this (Train.BeginSentence s)))
    with (m_wordCounter (Train.this s)).
  generalize (m_wordCounter (Train.this s)). unfold SentenceTokens. clear Hl.
  induction (snd isent) as [|u sent IH]; intros z; cbn [fold_left].
  - unfold CountedTokens. cbn. lia.
  - rewrite IH, fmap_cons. cbn [concat]. rewrite Counted_app. lia.
Qed.

Lemma OneBook_wordCounter sf ibook (s s' : Locals) :
  Train.OneBook sf ibook s = Train.Continue s' ->
  m_wordCounter (Train.this s')
  = m_wordCounter (Train.this s) + CountedTokens (BookTokens (snd ibook)).
Proof.
  unfold Train.OneBook. intros Hl.
  rewrite (loop_fold (Train.OneSentence sf (fst ibook))
             (fun s => m_wordCounter (Train.this s))
             (fun isent acc => acc + CountedTokens (SentenceTokens (snd isent)))
             (OneSentence_wordCounter sf (fst ibook)) _ _ _ Hl).
  rewrite (fold_left_sum (fun isent => CountedTokens (SentenceTokens (snd isent)))).
  f_equal. unfold BookTokens.
  rewrite <- (indexed_snd (snd ibook)) at 2.
  generalize (Train.indexed (snd ibook)). intros l.
  induction l as [|x l IH]; [reflexivity |].
  rewrite !fmap_cons. cbn [foldr concat]. rewrite Counted_app, IH. reflexivity.
Qed.

Lemma Training_wordCounter sf (m : @RnnTreeLM D W) out0 (s : Locals) :
  Train.Training sf m out0 = Train.Continue s ->
  m_wordCounter (Train.this s)
  = m_wordCounter m + CountedTokens (CorpusTokens (books (m_corpusTrain m))).
Proof.
  unfold Train.Training. intros Hl.
  rewrite (loop_fold (Train.OneBook sf) (fun s => m_wordCounter (Train.this s))
             (fun ibook acc => acc + CountedTokens (BookTokens (snd ibook)))
             (OneBook_wordCounter sf) _ _ _ Hl).
  rewrite (fold_left_sum (fun ibook => CountedTokens (BookTokens (snd ibook)))).
  cbn [Train.BeginEpoch Train.this on_state set_state m_wordCounter].
  f_equal. unfold CorpusTokens.
  rewrite <- (indexed_snd (books (m_corpusTrain m))) at 2.
  generalize (Train.indexed (books (m_corpusTrain m))). intros l.
  induction l as [|x l IH]; [reflexivity |].
  rewrite !fmap_cons. cbn [foldr concat]. rewrite Counted_app, IH. reflexivity.
Qed.
End WordCounter.

Lemma Training_unique sf (m : @RnnTreeLM D W) out0 (s : Locals) :
  Train.Training sf m out0 = Train.Continue s ->
  Train.uniqueWordCounter s = CorpusPositions TrainCounted (books (m_corpusTrain m)).
Proof.
  unfold Train.Training. intros Hl.
  rewrite (loop_fold (Train.OneBook sf) Train.uniqueWordCounter
             (fun (ibook : Z * @BookUnrolls D) acc =>
                acc + foldr Z.add 0 (DistinctPositions TrainCounted <$> snd ibook))
             (OneBook_unique sf) _ _ _ Hl).
  rewrite (fold_left_sum
             (fun ibook : Z * @BookUnrolls D =>
                foldr Z.add 0 (DistinctPositions TrainCounted <$> snd ibook))).
  cbn [Train.BeginEpoch Train.uniqueWordCounter].
  unfold CorpusPositions, CorpusSentences.
  rewrite <- sum_concat.
  rewrite <- (indexed_snd (books (m_corpusTrain m))) at 2.
  rewrite <- list_fmap_compose. reflexivity.
Qed.

(** X17.  In an epoch whose training runs to its end,
    [uniqueWordCounter] is the sum over the sentences of the number of
    distinct token positions that hold a word with [word >= 0] (the
    unknown word included), whatever the network computes; it never
    exceeds the number of token visits with such a word, and
    [m_wordCounter] grows by exactly that number when the backward step
    leaves it alone. *)
Theorem Training_counts_depend_on_the_corpus_only
    (sizeFeature : Z) (m : @RnnTreeLM D W) (out0 : list (@Event D)) (s : Locals) :
  Train.Training sizeFeature m out0 = Train.Continue s ->
  let bks := books (m_corpusTrain m) in
  Train.uniqueWordCounter s = CorpusPositions TrainCounted bks
  /\ ((forall lw w (m : @RnnTreeLM D W),
         m_wordCounter (BackPropagateErrorsThenOneStepGradientDescent lw w m)
         = m_wordCounter m) ->
      m_wordCounter (Train.this s)
      = m_wordCounter m
        + Z.of_nat (length (filter (fun tok => TrainCounted tok = true)
                              (CorpusTokens bks))))
  /\ Train.uniqueWordCounter s
     <= Z.of_nat (length (filter (fun tok => TrainCounted tok = true)
                            (CorpusTokens bks))).
Proof.
  intros Hl bks. split; [now apply (Training_unique sizeFeature m out0) |].
  split; [intros Hb; now apply (Training_wordCounter Hb sizeFeature m out0) |].
  rewrite (Training_unique sizeFeature m out0 s Hl). fold bks.
  unfold CorpusPositions. clear.
  unfold CorpusTokens, CorpusSentences, BookTokens.
  induction bks as [|book bks IH]; [cbn; lia |].
  rewrite fmap_cons. cbn [concat]. rewrite fmap_app, filter_app, length_app.
  assert (G : foldr Z.add 0 (DistinctPositions TrainCounted <$> book)
              <= Z.of_nat (length (filter (fun tok => TrainCounted tok = true)
                                     (concat (SentenceTokens <$> book))))).
  { clear. induction book as [|sent book IH]; [cbn; lia |].
    rewrite !fmap_cons. cbn [foldr concat]. rewrite filter_app, length_app.
    assert (H1 : DistinctPositions TrainCounted sent
                 <= Z.of_nat (length (filter (fun tok => TrainCounted tok = true)
                                        (SentenceTokens sent)))).
    { unfold DistinctPositions, Positions.
      generalize (filter (fun tok => TrainCounted tok = true) (SentenceTokens sent)).
      intros l. apply inj_le.
      etransitivity; [apply size_of_list |]. now rewrite length_fmap. }
    lia. }
  assert (E : forall (l1 l2 : list Z), foldr Z.add 0 (l1 ++ l2)
                = foldr Z.add 0 l1 + foldr Z.add 0 l2).
  { intros l1 l2. induction l1 as [|x l1 IH1]; cbn; lia. }
  rewrite E. lia.
Qed.

End TrainCountFacts.

(** *** In exact arithmetic the training of an epoch runs to its end *)

Section ExactTraining.
Context {W : Type} {libm : LibM R} {rnn : @RnnLM R W}.

Lemma exact_never_diverged (x : R) : Train.diverged x = false.
Proof.
  unfold Train.diverged, d_neb. simpl. unfold Exact.eqb.
  destruct (Req_dec_T x x); [reflexivity | contradiction].
Qed.

Lemma loop_continues {A} (body : A -> @Train.Locals R W -> Train.Flow) :
  (forall x s, body x s = Train.Continue (Train.locals (body x s))) ->
  forall xs s, Train.loop body xs s = Train.Continue (Train.locals (Train.loop body xs s)).
Proof.
  intros Hb xs. induction xs as [|x xs IH]; intros s; cbn [Train.loop]; [reflexivity |].
  rewrite Hb. apply IH.
Qed.

Lemma exact_Training_continues sf (m : @RnnTreeLM R W) out0 :
  Train.Training sf m out0
  = Train.Continue (Train.locals (Train.Training sf m out0)).
Proof.
  unfold Train.Training. apply loop_continues. intros ibook s.
  unfold Train.OneBook. apply loop_continues. intros isent s1.
  unfold Train.OneSentence.
  rewrite (loop_continues (Train.OneUnroll sf)); [reflexivity |].
  intros u s2. unfold Train.OneUnroll. apply loop_continues. intros tok s3.
  unfold Train.OneToken, Train.Diverged. cbv zeta.
  now rewrite exact_never_diverged.
Qed.

End ExactTraining.

(** ** Concrete runs of the further properties *)

Section FurtherBinary64Runs.

#[local] Existing Instance Sample.net.
#[local] Existing Instance Sample.corpus.

#[local] Abbreviation lm64 := (@Sample.lm spec_float binary64).

(** The sample model, whose BPTT memory has depth [top = 1], after the
    shift with last word 7. *)
Lemma ShiftBptt_moves_history_up_witness :
  0 < m_numBpttSteps (m_hyper lm64)
  /\ (1 < length (History (m_bpttVectors lm64)))%nat
  /\ History (m_bpttVectors (ShiftBptt 2 7 lm64)) = 7 :: replicate 11 (-1).
Proof.
  assert (H0 : 0 < m_numBpttSteps (m_hyper lm64)) by (vm_compute; reflexivity).
  assert (H1 : (Z.to_nat (m_numBpttSteps (m_hyper lm64)
                          + m_bpttBlockSize (m_hyper lm64) - 1)
                < length (History (m_bpttVectors lm64)))%nat) by (vm_compute; lia).
  split; [exact H0 |]. split; [vm_compute; lia |].
  rewrite (ShiftBptt_moves_history_up 2 7 lm64 H0 H1). vm_compute. reflexivity.
Defined.

(** Three shifts in a row: the two most recent words are kept. *)
Lemma Shifts_keep_the_last_words_witness :
  0 < m_numBpttSteps (m_hyper lm64)
  /\ firstn 3 (History (m_bpttVectors (Shifts 2 [5; 7; 9] lm64))) = [9; 7; -1].
Proof.
  assert (H0 : 0 < m_numBpttSteps (m_hyper lm64)) by (vm_compute; reflexivity).
  assert (H1 : (Z.to_nat (m_numBpttSteps (m_hyper lm64)
                          + m_bpttBlockSize (m_hyper lm64) - 1)
                < length (History (m_bpttVectors lm64)))%nat) by (vm_compute; lia).
  split; [exact H0 |].
  rewrite (Shifts_keep_the_last_words 2 [5; 7; 9] lm64 H0 H1). vm_compute. reflexivity.
Defined.

Lemma ShiftBptt_moves_hidden_blocks_up_witness :
  BpttHiddenLayer (m_bpttVectors (ShiftBptt 2 7 (@Sample.lm_bptt spec_float binary64)))
  = d_of_int <$> [1; 2; 1; 2; 5; 6]
  /\ BpttHiddenGradient (m_bpttVectors (ShiftBptt 2 7 (@Sample.lm_bptt spec_float binary64)))
     = d_of_int <$> [11; 12; 11; 12; 15; 16].
Proof.
  assert (H0 : 0 < m_numBpttSteps (m_hyper (@Sample.lm_bptt spec_float binary64))) by (vm_compute; reflexivity).
  destruct (ShiftBptt_moves_hidden_blocks_up 2 7 (@Sample.lm_bptt spec_float binary64) H0) as [Hl Hg];
    [vm_compute; lia | vm_compute; lia |].
  rewrite Hl, Hg. split; vm_compute; reflexivity.
Defined.

Lemma ShiftBptt_moves_feature_blocks_up_witness :
  BpttFeatureLayer (m_bpttVectors (ShiftBptt 2 7 (@Sample.lm_bptt spec_float binary64)))
  = d_of_int <$> [1; 2; 1; 2; 5; 6; 7; 8]
  /\ BpttFeatureGradient (m_bpttVectors (ShiftBptt 2 7 (@Sample.lm_bptt spec_float binary64)))
     = d_of_int <$> [11; 12; 13; 14; 15; 16; 17; 18].
Proof.
  assert (H0 : 0 < m_numBpttSteps (m_hyper (@Sample.lm_bptt spec_float binary64))) by (vm_compute; reflexivity).
  destruct (ShiftBptt_moves_feature_blocks_up 2 7 (@Sample.lm_bptt spec_float binary64) H0) as [Hl Hg];
    [vm_compute; lia |].
  rewrite Hl, Hg. split; vm_compute; reflexivity.
Defined.

(** The memory of the sample model: depth 1 + 1, two hidden units, two
    features. *)
Lemma RnnBptt_new_leaves_room_for_the_shift_witness :
  let bv := @RnnBptt_new spec_float binary64 3 2 2 1 1 in
  length (History bv) = 12%nat
  /\ length (BpttHiddenLayer bv) = 6%nat
  /\ length (BpttFeatureLayer bv) = 8%nat.
Proof.
  cbv zeta.
  destruct (@RnnBptt_new_leaves_room_for_the_shift spec_float binary64 3 2 2 1 1)
    as (Hh & _ & Hl & _ & Hf & _); [lia | lia | lia | lia |].
  rewrite Hh, Hl, Hf. rewrite length_replicate. repeat split.
Defined.

(** A state for three words in one class, two hidden units and two
    features. *)
Lemma RnnState_new_sizes_witness :
  let s := @RnnState_new spec_float binary64 3 2 2 1 0 1000 3 in
  State_GetOutputSize s = 4 /\ State_GetFeatureSize s = 2
  /\ length (OutputGradient s) = length (OutputLayer s).
Proof.
  cbv zeta.
  destruct (@RnnState_new_sizes spec_float binary64 3 2 2 1 0 1000 3)
    as (_ & _ & _ & Hf & Ho & _ & _ & _ & _ & _ & _ & _ & Hg & _);
    [lia | lia | lia | lia | lia |].
  rewrite Hf, Ho. split; [reflexivity |]. split; [reflexivity | exact Hg].
Defined.

(** Label 0, then label 1 twice and a label that is not found: the
    entry of label 0 is 1 * 0.9 * 0.9 * 0.9. *)
Lemma feature_entry_records_the_last_call_with_its_label_witness :
  (0 < Z.to_nat (GetFeatureSize lm64))%nat
  /\ FeatureLayer (Updates [1; 0; 1; 1; 5] lm64 (ResetFeatureLabelVector lm64 Sample.state))
     !! 0%nat
     = Some (d_mul (d_mul (d_mul (d_of_int 1) (Sample.ratio 9 10)) (Sample.ratio 9 10))
               (Sample.ratio 9 10)).
Proof.
  assert (Hi : (0 < Z.to_nat (GetFeatureSize lm64))%nat) by (vm_compute; lia).
  split; [exact Hi |].
  destruct (feature_entry_records_the_last_call_with_its_label lm64 Sample.state 0 Hi)
    as [_ Hlast].
  change [1; 0; 1; 1; 5] with ([1] ++ Z.of_nat 0 :: [1; 1; 5]).
  rewrite (Hlast [1] [1; 1; 5]); [reflexivity |].
  cbn [Z.of_nat]. set_solver.
Defined.

(** The sample model, whose gamma is the binary64 number nearest to
    0.9. *)
Lemma binary64_feature_layer_stays_in_unit_interval_witness :
  B64.in_unit (m_featureGammaCoeff (m_hyper lm64)) = true
  /\ Forall (fun x => B64.in_unit x = true)
       (FeatureLayer
          (Updates [0; 1; 1; 5; 0; -1] lm64 (ResetFeatureLabelVector lm64 Sample.state))).
Proof.
  assert (Hg : B64.in_unit (m_featureGammaCoeff (m_hyper lm64)) = true)
    by (vm_compute; reflexivity).
  split; [exact Hg |].
  apply (binary64_feature_layer_stays_in_unit_interval lm64 Sample.state
           [0; 1; 1; 5; 0; -1] Hg).
Defined.

(** The vocabulary of the sample corpus. *)
Lemma learned_labels_are_numbered_witness :
  m_usesClassFile (m_hyper lm64) = false
  /\ fst (fst (LearnVocabularyFromTrainFile lm64)) = true.
Proof.
  split; [reflexivity |].
  pose proof (learned_labels_are_numbered lm64 eq_refl) as H.
  destruct (LearnVocabularyFromTrainFile lm64) as [[ok m'] evs].
  destruct H as (Hok & _). exact Hok.
Defined.

Lemma learned_label_indices_agree_with_the_corpus_witness :
  m_usesClassFile (m_hyper lm64) = false
  /\ NoDup (labelsReverse (m_corpusTrain (snd (fst (LearnVocabularyFromTrainFile lm64)))))
  /\ SearchLabelInVocabulary "nsubj"
       (m_vocab (snd (fst (LearnVocabularyFromTrainFile lm64)))) = 1.
Proof.
  split; [reflexivity |].
  pose proof (learned_label_indices_agree_with_the_corpus lm64 eq_refl) as H.
  destruct (LearnVocabularyFromTrainFile lm64) as [[ok m'] evs] eqn:E.
  assert (El : labelsReverse (m_corpusTrain m') = ["ROOT"; "nsubj"]).
  { vm_compute in E. inversion E. reflexivity. }
  cbn [fst snd]. cbv zeta in H.
  assert (Hnd : NoDup (labelsReverse (m_corpusTrain m'))).
  { rewrite El. apply NoDup_cons. split; [set_solver |]. apply NoDup_singleton. }
  split; [exact Hnd |].
  destruct (H Hnd) as [Hord _]. apply (Hord 1%nat). now rewrite El.
Defined.

Lemma learned_words_are_indexed_witness :
  m_usesClassFile (m_hyper lm64) = false
  /\ SearchWordInVocabulary "</s>"
       (m_vocab (snd (fst (LearnVocabularyFromTrainFile lm64)))) = 0.
Proof.
  split; [reflexivity |].
  pose proof (learned_words_are_indexed lm64 eq_refl) as H.
  destruct (LearnVocabularyFromTrainFile lm64) as [[ok m'] evs].
  destruct H as (_ & H0 & _). exact H0.
Defined.

End FurtherBinary64Runs.

Section FurtherExactRuns.

#[local] Existing Instance Sample.net.
#[local] Existing Instance Sample.corpus.

(** The validation corpus of two sentences and two tokens, neither with
    a word that counts. *)
Lemma TestRnnModel_without_a_word_that_counts_witness :
  let m := @Sample.lm_oov R exact_real in
  Forall (fun tok => TestCounted tok = false) (CorpusTokens (books (m_corpusValidTest m)))
  /\ Test.testLogProbability (Test.TestRnnModel m [] []) = 0%R
  /\ Test.numUnk (Test.TestRnnModel m [] []) = 2
  /\ Test.sentenceScores (Test.TestRnnModel m [] []) = [0%R; 0%R].
Proof.
  cbv zeta.
  assert (Hall : Forall (fun tok => TestCounted tok = false)
                   (CorpusTokens (books (m_corpusValidTest (@Sample.lm_oov R exact_real))))).
  { repeat constructor. }
  split; [exact Hall |].
  destruct (TestRnnModel_without_a_word_that_counts Sample.lm_oov [] [] Hall)
    as (Hl & _ & Hn & Hs & _).
  split; [exact Hl |]. split; [exact Hn | exact Hs].
Defined.

(** The training corpus of the sample model: one sentence whose two
    unrolls hold the positions 0 and 1 with words of the vocabulary, and
    four token visits, three of them with such a word. *)
Lemma Training_counts_depend_on_the_corpus_only_witness :
  let m := @Sample.lm R exact_real in
  let s := Train.locals (Train.Training 2 m []) in
  Train.Training 2 m [] = Train.Continue s
  /\ Train.uniqueWordCounter s = 2
  /\ m_wordCounter (Train.this s) = 3.
Proof.
  cbv zeta.
  pose proof (exact_Training_continues 2 (@Sample.lm R exact_real) []) as Hc.
  split; [exact Hc |].
  destruct (Training_counts_depend_on_the_corpus_only 2 Sample.lm [] _ Hc)
    as (Hu & Hw & _).
  split; [rewrite Hu; vm_compute; reflexivity |].
  rewrite Hw; [vm_compute; reflexivity |]. intros lw w m. reflexivity.
Defined.

End FurtherExactRuns.
